(** * Knugget-Interview: the transcript batch tracker

    A shallow embedding of [src/services/TranscriptProcessor.ts], of the
    types of [src/types/index.ts], of the archive loop of
    [TranscriptController.downloadResults] and of the upload route (the
    file filter of [src/middleware/uploadMiddleware.ts] and
    [TranscriptController.processTranscripts]), with the properties of the
    batch tracker stated over it.

    The processor runs on one JavaScript thread.  An [async] function runs
    without interruption from one [await] to the next, so every such segment
    is one atomic transition of the model; the segments of different
    invocations interleave freely.  Objects are shared by reference: the
    registry [jobs] maps a batch id to a reference into [heap], and a running
    [startProcessing] keeps the reference it looked up when it was called.

    Everything the environment decides is an input of a transition: the
    clock (every [new Date()] and [Date.now()] is a reading of its own),
    the identifiers drawn by [uuidv4], the contents read from disk and the
    replies of the three providers. *)

From stdpp Require Import gmap strings list pretty.

Local Open Scope string_scope.
Local Open Scope Z_scope.

(** ** Data model ([src/types/index.ts]) *)

(** The fields of [Express.Multer.File] the program reads. *)
Record MulterFile := {
  originalname : string;
  path : string;
  mimetype : string
}.

Record Metadata := {
  tokens : option Z;
  processingTime : option Z
}.

Record TranscriptAnalysis := {
  model : string;
  filename : string;
  analysis : string;
  metadata : option Metadata;
  timestamp : Z
}.

Inductive FileStatus := FilePending | FileProcessing | FileCompleted | FileFailed.

Record Progress := {
  startTime : Z;
  processingEnd : option Z;
  totalDuration : option Z
}.

Record Results := {
  openai : option TranscriptAnalysis;
  claude : option TranscriptAnalysis;
  gemini : option TranscriptAnalysis
}.

Record TranscriptFile := {
  file_id : string;
  originalFile : MulterFile;
  content : option string;
  file_status : FileStatus;
  progress : Progress;
  results : Results;
  error : option string;
  retryCount : Z
}.

Inductive BatchStatus := Created | Processing | Completed | Failed | Cancelled.

Record Models := {
  models_openai : string;
  models_claude : string;
  models_gemini : string
}.

Record JobConfig := {
  jobDescription : string;
  prompt : string;
  models : Models
}.

Record Timing := {
  elapsedMs : Z;
  estimatedCompletionMs : option Z
}.

Record BatchMetrics := {
  total : Z;
  pending : Z;
  processing : Z;
  completed : Z;
  failed : Z;
  openaiComplete : Z;
  claudeComplete : Z;
  geminiComplete : Z;
  timing : Timing
}.

Record BatchJob := {
  batch_id : string;
  status : BatchStatus;
  files : list TranscriptFile;
  jobConfig : option JobConfig;
  metrics : BatchMetrics;
  createdAt : Z;
  startedAt : option Z;
  completedAt : option Z
}.

Record BatchProgress := {
  bp_batchId : string;
  bp_status : BatchStatus;
  bp_metrics : BatchMetrics;
  bp_processing : list string
}.

Record ResultFile := {
  rf_filename : string;
  rf_openai : option TranscriptAnalysis;
  rf_claude : option TranscriptAnalysis;
  rf_gemini : option TranscriptAnalysis
}.

Record MultiModelResults := {
  mr_batchId : string;
  mr_files : list ResultFile
}.

Global Instance BatchStatus_eq_dec : EqDecision BatchStatus.
Proof. solve_decision. Defined.

Global Instance FileStatus_eq_dec : EqDecision FileStatus.
Proof. solve_decision. Defined.

(** The terminal statuses of the spec's data model. *)
Definition terminal (s : BatchStatus) : bool :=
  match s with
  | Completed | Failed | Cancelled => true
  | Created | Processing => false
  end.

(** ** Field assignments *)

Definition set_file_status (s : FileStatus) (f : TranscriptFile) : TranscriptFile :=
  {| file_id := file_id f; originalFile := originalFile f; content := content f;
     file_status := s; progress := progress f; results := results f;
     error := error f; retryCount := retryCount f |}.

Definition set_results (r : Results) (f : TranscriptFile) : TranscriptFile :=
  {| file_id := file_id f; originalFile := originalFile f; content := content f;
     file_status := file_status f; progress := progress f; results := r;
     error := error f; retryCount := retryCount f |}.

Definition set_error (e : string) (f : TranscriptFile) : TranscriptFile :=
  {| file_id := file_id f; originalFile := originalFile f; content := content f;
     file_status := file_status f; progress := progress f; results := results f;
     error := Some e; retryCount := retryCount f |}.

Definition set_progress (p : Progress) (f : TranscriptFile) : TranscriptFile :=
  {| file_id := file_id f; originalFile := originalFile f; content := content f;
     file_status := file_status f; progress := p; results := results f;
     error := error f; retryCount := retryCount f |}.

Definition set_status (s : BatchStatus) (b : BatchJob) : BatchJob :=
  {| batch_id := batch_id b; status := s; files := files b;
     jobConfig := jobConfig b; metrics := metrics b; createdAt := createdAt b;
     startedAt := startedAt b; completedAt := completedAt b |}.

Definition set_startedAt (t : Z) (b : BatchJob) : BatchJob :=
  {| batch_id := batch_id b; status := status b; files := files b;
     jobConfig := jobConfig b; metrics := metrics b; createdAt := createdAt b;
     startedAt := Some t; completedAt := completedAt b |}.

Definition set_completedAt (t : Z) (b : BatchJob) : BatchJob :=
  {| batch_id := batch_id b; status := status b; files := files b;
     jobConfig := jobConfig b; metrics := metrics b; createdAt := createdAt b;
     startedAt := startedAt b; completedAt := Some t |}.

Definition set_files (fs : list TranscriptFile) (b : BatchJob) : BatchJob :=
  {| batch_id := batch_id b; status := status b; files := fs;
     jobConfig := jobConfig b; metrics := metrics b; createdAt := createdAt b;
     startedAt := startedAt b; completedAt := completedAt b |}.

Definition set_metrics (m : BatchMetrics) (b : BatchJob) : BatchJob :=
  {| batch_id := batch_id b; status := status b; files := files b;
     jobConfig := jobConfig b; metrics := m; createdAt := createdAt b;
     startedAt := startedAt b; completedAt := completedAt b |}.

(** [file.x = ...] on the file at index [i] of a batch object. *)
Definition on_file (i : nat) (g : TranscriptFile → TranscriptFile)
    (b : BatchJob) : BatchJob :=
  set_files (alter g i (files b)) b.

(** [batch.metrics.x++] and the like. *)
Definition on_metrics (g : BatchMetrics → BatchMetrics) (b : BatchJob) : BatchJob :=
  set_metrics (g (metrics b)) b.

(** ** Provider adapters

    Each adapter builds one request, awaits the provider and turns the
    response into a [TranscriptAnalysis].  The request builders keep the
    [jobDescription] parameter of the source. *)

(** [apiConfig.openai.maxTokens] and [apiConfig.anthropic.maxTokens]
    ([src/config/index.ts]). *)
Definition openai_maxTokens : Z := 4000.
Definition anthropic_maxTokens : Z := 4000.

(** [s.includes(sub)] *)
Definition includes (s sub : string) : bool :=
  match String.index 0 sub s with
  | Some _ => true
  | None => false
  end.

Record ChatMessage := {
  role : string;
  msg_content : string
}.

Inductive TokenLimit :=
| max_completion_tokens (n : Z)
| max_tokens (n : Z).

Record OpenAIRequest := {
  oa_model : string;
  oa_messages : list ChatMessage;
  oa_limit : TokenLimit
}.

Record ClaudeRequest := {
  cl_model : string;
  cl_max_tokens : Z;
  cl_messages : list ChatMessage
}.

Record GeminiRequest := {
  ge_model : string;
  ge_parts : list string
}.

(** The newline of the template literals. *)
Definition nl : string := String (Ascii.ascii_of_nat 10) EmptyString.

Definition analyze_this (content : string) : string :=
  "Analyze this transcript:" ++ nl ++ nl ++ content.

Definition openai_request
    (content jobDescription prompt model filename : string) : OpenAIRequest :=
  let systemPrompt := prompt in
  let isNewerModel :=
    includes model "gpt-4o" || includes model "gpt-5" ||
    includes model "o1" || includes model "o3" in
  {| oa_model := model;
     oa_messages :=
       [ {| role := "system"; msg_content := systemPrompt |};
         {| role := "user"; msg_content := analyze_this content |} ];
     oa_limit :=
       if isNewerModel then max_completion_tokens openai_maxTokens
       else max_tokens openai_maxTokens |}.

Definition claude_request
    (content jobDescription prompt model filename : string) : ClaudeRequest :=
  let systemPrompt := prompt in
  {| cl_model := model;
     cl_max_tokens := anthropic_maxTokens;
     cl_messages :=
       [ {| role := "user";
            msg_content := systemPrompt ++ nl ++ nl ++ analyze_this content |} ] |}.

Definition gemini_request
    (content jobDescription prompt model filename : string) : GeminiRequest :=
  let systemPrompt := prompt in
  {| ge_model := model;
     ge_parts := [ systemPrompt; nl ++ nl ++ analyze_this content ] |}.

(** The parts of the providers' responses the adapters read. *)
Record OpenAIChoice := { choice_message : option (option string) }.

Record OpenAIResponse := {
  choices : list OpenAIChoice;
  usage_total_tokens : option Z
}.

Inductive ContentBlock :=
| TextBlock (text : string)
| OtherBlock.

Record ClaudeUsage := {
  input_tokens : Z;
  output_tokens : Z
}.

Record ClaudeResponse := {
  cl_content : list ContentBlock;
  cl_usage : option ClaudeUsage
}.

Record GeminiResponse := { ge_text : string }.

(** What an awaited provider call comes back with: a response, with the
    two readings of the clock the adapter then takes ([Date.now()] for the
    processing time, [new Date()] for the timestamp), or an error. *)
Inductive Reply (R : Type) :=
| Responded (response : R) (finished : Z) (stamped : Z)
| Errored (reason : string).
Arguments Responded {R}.
Arguments Errored {R}.

(** [x || "No analysis generated"]: the empty string is falsy. *)
Definition or_no_analysis (x : option string) : string :=
  match x with
  | Some s => if decide (s = "") then "No analysis generated" else s
  | None => "No analysis generated"
  end.

Definition openai_result (model filename : string) (startTime : Z)
    (completion : OpenAIResponse) (now stamp : Z) : TranscriptAnalysis :=
  let analysis :=
    or_no_analysis (c ← choices completion !! 0%nat;
                    m ← choice_message c; m) in
  let processingTime := now - startTime in
  {| model := model; filename := filename; analysis := analysis;
     metadata := Some {| tokens := usage_total_tokens completion;
                         processingTime := Some processingTime |};
     timestamp := stamp |}.

Definition claude_result (model filename : string) (startTime : Z)
    (message : ClaudeResponse) (now stamp : Z) : TranscriptAnalysis :=
  let analysis :=
    match cl_content message !! 0%nat with
    | Some (TextBlock text) => text
    | _ => "No analysis generated"
    end in
  let processingTime := now - startTime in
  {| model := model; filename := filename; analysis := analysis;
     metadata :=
       Some {| tokens :=
                 match cl_usage message with
                 | Some u =>
                     if decide (input_tokens u = 0) then None
                     else Some (input_tokens u + output_tokens u)
                 | None => None
                 end;
               processingTime := Some processingTime |};
     timestamp := stamp |}.

Definition gemini_result (model filename : string) (startTime : Z)
    (response : GeminiResponse) (now stamp : Z) : TranscriptAnalysis :=
  let analysis := ge_text response in
  let processingTime := now - startTime in
  {| model := model; filename := filename; analysis := analysis;
     metadata := Some {| tokens := None; processingTime := Some processingTime |};
     timestamp := stamp |}.

(** The elements of the array [Promise.allSettled] resolves to. *)
Inductive Settled :=
| Fulfilled (value : TranscriptAnalysis)
| Rejected (reason : string).

Definition fulfilled (r : Settled) : bool :=
  match r with Fulfilled _ => true | Rejected _ => false end.

Definition settled {R : Type} (finish : R → Z → Z → TranscriptAnalysis)
    (r : Reply R) : Settled :=
  match r with
  | Responded response now stamp => Fulfilled (finish response now stamp)
  | Errored reason => Rejected reason
  end.

(** The three calls [processTranscript] issues for one file
    (lines 150-172). *)
Record ProviderCalls := {
  call_openai : OpenAIRequest;
  call_claude : ClaudeRequest;
  call_gemini : GeminiRequest
}.

Definition fan_out (cfg : JobConfig) (file : TranscriptFile) : ProviderCalls :=
  (* [file.content!]: a missing content would be interpolated as the text
     [undefined]; [createBatch] always sets it *)
  let content := default "undefined" (content file) in
  let name := originalname (originalFile file) in
  {| call_openai :=
       openai_request content (jobDescription cfg) (prompt cfg)
         (models_openai (models cfg)) name;
     call_claude :=
       claude_request content (jobDescription cfg) (prompt cfg)
         (models_claude (models cfg)) name;
     call_gemini :=
       gemini_request content (jobDescription cfg) (prompt cfg)
         (models_gemini (models cfg)) name |}.

(** ** The processor's state *)

(** Every reading of the clock is an input of its own.  At the head of
    its loop an invocation reads it once when the loop is over ([new
    Date()], line 125); otherwise each of the three adapters starts with a
    [Date.now()] of its own. *)
Record Starts := {
  start_openai : Z;
  start_claude : Z;
  start_gemini : Z
}.

Record Clock := {
  at_end : Z;
  at_calls : Starts
}.

(** Where an invocation of [startProcessing] is suspended. *)
Inductive Phase :=
| (** in [processTranscript], at [await Promise.allSettled]; [batch] is the
      object [processTranscript] fetched from the registry, the other fields
      are what the three adapter calls captured *)
  AwaitSettled (batch : nat) (cfg_models : Models) (name : string) (t0 : Starts)
| (** at [await this.processTranscript(batchId, file)], the callee done *)
  AwaitTranscript
| (** at the two-second timer between two files *)
  AwaitDelay
| (** the invocation is over *)
  Returned.

(** One invocation of [startProcessing]: its argument, the batch object it
    holds in [batch] and the loop counter [i]. *)
Record Task := {
  task_batchId : string;
  task_batch : nat;
  task_i : nat;
  task_phase : Phase
}.

Record State := {
  heap : list BatchJob;      (* the batch objects ever allocated *)
  jobs : gmap string nat;    (* [this.jobs] *)
  tasks : list Task          (* the invocations of [startProcessing] *)
}.

Definition initial : State := {| heap := []; jobs := ∅; tasks := [] |}.

(** [this.jobs.get(batchId)], with the reference. *)
Definition jobs_get (st : State) (batchId : string) : option (nat * BatchJob) :=
  r ← jobs st !! batchId; b ← heap st !! r; Some (r, b).

(** A mutation of the batch object at reference [r]. *)
Definition mutate (r : nat) (g : BatchJob → BatchJob) (st : State) : State :=
  {| heap := alter g r (heap st); jobs := jobs st; tasks := tasks st |}.

Definition set_task (tid : nat) (t : Task) (st : State) : State :=
  {| heap := heap st; jobs := jobs st; tasks := <[tid := t]> (tasks st) |}.

Definition at_phase (p : Phase) (t : Task) : Task :=
  {| task_batchId := task_batchId t; task_batch := task_batch t;
     task_i := task_i t; task_phase := p |}.

Definition at_index (i : nat) (t : Task) : Task :=
  {| task_batchId := task_batchId t; task_batch := task_batch t;
     task_i := i; task_phase := task_phase t |}.

(** ** createBatch *)

(** One uploaded file with what [createBatch] obtains for it: the content
    read from disk, the [uuidv4()] of the record and its [new Date()]. *)
Record Upload := {
  up_file : MulterFile;
  up_content : string;
  up_id : string;
  up_time : Z
}.

Definition new_file (u : Upload) : TranscriptFile :=
  {| file_id := up_id u; originalFile := up_file u;
     content := Some (up_content u); file_status := FilePending;
     progress := {| startTime := up_time u; processingEnd := None;
                    totalDuration := None |};
     results := {| openai := None; claude := None; gemini := None |};
     error := None; retryCount := 0 |}.

Definition new_batch (batchId : string) (ups : list Upload)
    (jobConfig : JobConfig) (now : Z) : BatchJob :=
  let transcriptFiles := new_file <$> ups in
  {| batch_id := batchId; status := Created; files := transcriptFiles;
     jobConfig := Some jobConfig;
     metrics :=
       {| total := Z.of_nat (length transcriptFiles);
          pending := Z.of_nat (length transcriptFiles);
          processing := 0; completed := 0; failed := 0;
          openaiComplete := 0; claudeComplete := 0; geminiComplete := 0;
          timing := {| elapsedMs := 0; estimatedCompletionMs := None |} |};
     createdAt := now; startedAt := None; completedAt := None |}.

(** The segment after the file reads: the batch object is built and put in
    the registry under the id drawn at the start.  (A failed read rejects
    the call before this segment; the state is then untouched.) *)
Definition createBatch (ups : list Upload) (jobConfig : JobConfig)
    (batchId : string) (now : Z) (st : State) : string * State :=
  (batchId,
   {| heap := heap st ++ [new_batch batchId ups jobConfig now];
      jobs := <[batchId := length (heap st)]> (jobs st);
      tasks := tasks st |}).

(** ** processTranscript *)

Definition begin_metrics (m : BatchMetrics) : BatchMetrics :=
  {| total := total m; pending := pending m - 1; processing := processing m + 1;
     completed := completed m; failed := failed m;
     openaiComplete := openaiComplete m; claudeComplete := claudeComplete m;
     geminiComplete := geminiComplete m; timing := timing m |}.

(** Lines 138-172, up to the [await]: the registry is read again, the file
    (element [i] of the caller's batch object [r]) and the metrics of the
    fetched batch are updated and the three calls are issued. *)
Definition processTranscript_begin (batchId : string) (r i : nat)
    (file : TranscriptFile) (t0 : Starts) (st : State) :
    State * Phase * option ProviderCalls :=
  match jobs_get st batchId with
  | None => (st, AwaitTranscript, None)
  | Some (r', batch) =>
      match jobConfig batch with
      | None => (st, AwaitTranscript, None)
      | Some cfg =>
          let st1 := mutate r (on_file i (set_file_status FileProcessing)) st in
          let st2 := mutate r' (on_metrics begin_metrics) st1 in
          (st2,
           AwaitSettled r' (models cfg) (originalname (originalFile file)) t0,
           Some (fan_out cfg file))
      end
  end.

Definition b2z (b : bool) : Z := if b then 1 else 0.

Definition successCount (r0 r1 r2 : Settled) : nat :=
  length (filter (λ r, fulfilled r = true) [r0; r1; r2]).

(** Lines 174-239 on the metrics. *)
Definition settle_metrics (r0 r1 r2 : Settled) (m : BatchMetrics) : BatchMetrics :=
  let ok := bool_decide (0 < successCount r0 r1 r2)%nat in
  {| total := total m; pending := pending m;
     processing := processing m - 1;
     completed := completed m + b2z ok;
     failed := failed m + b2z (negb ok);
     openaiComplete := openaiComplete m + b2z (fulfilled r0);
     claudeComplete := claudeComplete m + b2z (fulfilled r1);
     geminiComplete := geminiComplete m + b2z (fulfilled r2);
     timing := timing m |}.

Definition store (r : Settled) (old : option TranscriptAnalysis) :
    option TranscriptAnalysis :=
  match r with Fulfilled v => Some v | Rejected _ => old end.

(** Lines 174-238 on the file. *)
Definition settle_file (r0 r1 r2 : Settled) (now : Z) (f : TranscriptFile) :
    TranscriptFile :=
  let f1 :=
    set_results {| openai := store r0 (openai (results f));
                   claude := store r1 (claude (results f));
                   gemini := store r2 (gemini (results f)) |} f in
  let f2 :=
    if bool_decide (0 < successCount r0 r1 r2)%nat
    then set_file_status FileCompleted f1
    else set_error "All models failed to process the transcript"
           (set_file_status FileFailed f1) in
  set_progress {| startTime := startTime (progress f2);
                  processingEnd := Some now;
                  totalDuration := Some (now - startTime (progress f2)) |} f2.

(** The rest of [processTranscript], run when [Promise.allSettled] resolves
    with [r0], [r1], [r2]: [r'] is the batch it fetched, the file is element
    [i] of the caller's batch [r]. *)
Definition processTranscript_settle (r i r' : nat) (r0 r1 r2 : Settled)
    (now : Z) (st : State) : State :=
  mutate r' (on_metrics (settle_metrics r0 r1 r2))
    (mutate r (on_file i (settle_file r0 r1 r2 now)) st).

(** ** startProcessing *)

(** The head of the [for] loop (line 113) for the task [tid], entered with
    counter [task_i t]: either the body starts on [batch.files[i]] and runs
    to the [await] inside [processTranscript], or the loop is over and lines
    124-125 run.  Nothing in the [try] block throws (the provider calls are
    contained by [Promise.allSettled], the timer always fires), so the
    [catch] of lines 127-131 has no transition.  The first branch is for a
    reference outside the heap, which no invocation ever holds. *)
Definition loop_head (tid : nat) (t : Task) (clock : Clock) (st : State) :
    State :=
  match heap st !! task_batch t with
  | None => set_task tid (at_phase Returned t) st
  | Some batch =>
      match files batch !! task_i t with
      | Some file =>
          let '(st', ph, _) :=
            processTranscript_begin (task_batchId t) (task_batch t) (task_i t)
              file (at_calls clock) st in
          set_task tid (at_phase ph t) st'
      | None =>
          set_task tid (at_phase Returned t)
            (mutate (task_batch t)
               (λ b, set_completedAt (at_end clock) (set_status Completed b))
               st)
      end
  end.

Inductive Outcome :=
| Threw (message : string)
| Spawned (tid : nat).

(** A new invocation enters the list of invocations. *)
Definition spawn (t : Task) (st : State) : State :=
  {| heap := heap st; jobs := jobs st; tasks := tasks st ++ [t] |}.

(** Lines 94-115: the call runs up to its first [await], or throws.  [now]
    is the [new Date()] of line 105, [clock] holds the readings at the head
    of the loop. *)
Definition startProcessing (batchId : string) (now : Z) (clock : Clock)
    (st : State) : Outcome * State :=
  match jobs_get st batchId with
  | None => (Threw ("Batch " ++ batchId ++ " not found"), st)
  | Some (r, batch) =>
      match jobConfig batch with
      | None => (Threw "Job configuration not set", st)
      | Some _ =>
          let st1 :=
            mutate r (λ b, set_startedAt now (set_status Processing b)) st in
          let tid := length (tasks st) in
          let t := {| task_batchId := batchId; task_batch := r;
                      task_i := 0; task_phase := AwaitTranscript |} in
          (Spawned tid, loop_head tid t clock (spawn t st1))
      end
  end.

(** [Promise.allSettled] resolved for the task [tid]. *)
Definition settle (tid : nat) (o : Reply OpenAIResponse)
    (c : Reply ClaudeResponse) (g : Reply GeminiResponse) (now : Z)
    (st : State) : State :=
  match tasks st !! tid with
  | Some t =>
      match task_phase t with
      | AwaitSettled r' ms name t0 =>
          let r0 :=
            settled (openai_result (models_openai ms) name (start_openai t0)) o in
          let r1 :=
            settled (claude_result (models_claude ms) name (start_claude t0)) c in
          let r2 :=
            settled (gemini_result (models_gemini ms) name (start_gemini t0)) g in
          set_task tid (at_phase AwaitTranscript t)
            (processTranscript_settle (task_batch t) (task_i t) r' r0 r1 r2 now st)
      | _ => st
      end
  | None => st
  end.

(** The promise the task [tid] awaits in [startProcessing] itself resolved:
    that of [processTranscript] (lines 117-121 follow) or the timer (the
    loop goes on with [i++]). *)
Definition resume (tid : nat) (clock : Clock) (st : State) : State :=
  match tasks st !! tid with
  | Some t =>
      match task_phase t with
      | AwaitTranscript =>
          match heap st !! task_batch t with
          | Some batch =>
              if bool_decide (Z.of_nat (task_i t) < Z.of_nat (length (files batch)) - 1)
              then set_task tid (at_phase AwaitDelay t) st
              else loop_head tid (at_index (S (task_i t)) t) clock st
          | None => st
          end
      | AwaitDelay => loop_head tid (at_index (S (task_i t)) t) clock st
      | _ => st
      end
  | None => st
  end.

(** ** Queries and mutation *)

Definition getBatchProgress (batchId : string) (st : State) : option BatchProgress :=
  match jobs_get st batchId with
  | None => None
  | Some (_, batch) =>
      Some {| bp_batchId := batch_id batch; bp_status := status batch;
              bp_metrics := metrics batch;
              bp_processing :=
                (λ f, originalname (originalFile f)) <$>
                  filter (λ f, file_status f = FileProcessing) (files batch) |}
  end.

Definition getMultiModelResults (batchId : string) (st : State) :
    option MultiModelResults :=
  match jobs_get st batchId with
  | None => None
  | Some (_, batch) =>
      Some {| mr_batchId := batch_id batch;
              mr_files :=
                (λ file, {| rf_filename := originalname (originalFile file);
                            rf_openai := openai (results file);
                            rf_claude := claude (results file);
                            rf_gemini := gemini (results file) |})
                  <$> files batch |}
  end.

Definition cancelBatch (batchId : string) (st : State) : bool * State :=
  match jobs_get st batchId with
  | None => (false, st)
  | Some (r, batch) =>
      if bool_decide (status batch = Completed) ||
         bool_decide (status batch = Cancelled)
      then (false, st)
      else (true, mutate r (set_status Cancelled) st)
  end.

Definition deleteBatch (batchId : string) (st : State) : bool * State :=
  match jobs_get st batchId with
  | None => (false, st)
  | Some (r, batch) =>
      if bool_decide (status batch = Processing)
      then (false, st)
      else (true, {| heap := heap st; jobs := delete batchId (jobs st);
                     tasks := tasks st |})
  end.

(** ** The transition system *)

Inductive Label :=
| LCreate (ups : list Upload) (cfg : JobConfig) (batchId : string) (now : Z)
| LStart (batchId : string) (now : Z) (clock : Clock)
| LSettle (tid : nat) (o : Reply OpenAIResponse) (c : Reply ClaudeResponse)
    (g : Reply GeminiResponse) (now : Z)
| LResume (tid : nat) (clock : Clock)
| LCancel (batchId : string)
| LDelete (batchId : string).

Definition step (l : Label) (st : State) : State :=
  match l with
  | LCreate ups cfg batchId now => (createBatch ups cfg batchId now st).2
  | LStart batchId now clock => (startProcessing batchId now clock st).2
  | LSettle tid o c g now => settle tid o c g now st
  | LResume tid clock => resume tid clock st
  | LCancel batchId => (cancelBatch batchId st).2
  | LDelete batchId => (deleteBatch batchId st).2
  end.

Definition run (ls : list Label) (st : State) : State :=
  foldl (λ s l, step l s) st ls.

(** ** The result archive ([TranscriptController.downloadResults]) *)

(** One [archive.append(data, { name })]. *)
Record Entry := {
  entry_name : string;
  entry_data : string
}.

Definition append (data name : string) (archive : list Entry) : list Entry :=
  archive ++ [ {| entry_name := name; entry_data := data |} ].

(** The body of the [forEach] of lines 185-205.  [basename] stands for
    Node's [path.basename], a library function outside the repository. *)
Definition add_results (basename : string → string → string)
    (archive : list Entry) (file : ResultFile) : list Entry :=
  let baseFilename := basename (rf_filename file) ".txt" in
  let archive1 :=
    match rf_openai file with
    | Some r => append (analysis r) ("openai/" ++ baseFilename ++ "-openai.txt") archive
    | None => archive
    end in
  let archive2 :=
    match rf_claude file with
    | Some r => append (analysis r) ("claude/" ++ baseFilename ++ "-claude.txt") archive1
    | None => archive1
    end in
  match rf_gemini file with
  | Some r => append (analysis r) ("gemini/" ++ baseFilename ++ "-gemini.txt") archive2
  | None => archive2
  end.

Definition archive_of (basename : string → string → string)
    (results : MultiModelResults) : list Entry :=
  foldl (add_results basename) [] (mr_files results).

(** [downloadResults]: [None] is the 404 answer. *)
Definition downloadResults (basename : string → string → string)
    (batchId : string) (st : State) : option (list Entry) :=
  archive_of basename <$> getMultiModelResults batchId st.

(** The archive in the words of the spec: for every file, for every
    provider that has a result for it, one entry in the provider's group,
    named after the stem of the file and the provider, holding the analysis
    text. *)
Inductive Provider := OpenAI | Claude | Gemini.

Definition provider_name (p : Provider) : string :=
  match p with OpenAI => "openai" | Claude => "claude" | Gemini => "gemini" end.

Definition result_of (p : Provider) (file : ResultFile) : option TranscriptAnalysis :=
  match p with
  | OpenAI => rf_openai file
  | Claude => rf_claude file
  | Gemini => rf_gemini file
  end.

Definition entry_for (basename : string → string → string) (file : ResultFile)
    (p : Provider) (r : TranscriptAnalysis) : Entry :=
  {| entry_name := provider_name p ++ "/" ++ basename (rf_filename file) ".txt"
                     ++ "-" ++ provider_name p ++ ".txt";
     entry_data := analysis r |}.



(** ** Disciplined use of the tracker

    The controller draws a new [uuidv4] for every batch and calls
    [startProcessing] once, on the batch it has just created. *)
Definition permitted (l : Label) (st : State) : bool :=
  match l with
  | LCreate _ _ batchId _ =>
      bool_decide (Forall (λ b, batch_id b ≠ batchId) (heap st))
  | LStart batchId _ _ =>
      match jobs_get st batchId with
      | Some (_, b) => bool_decide (status b = Created)
      | None => true
      end
  | _ => true
  end.

Fixpoint disciplined (ls : list Label) (st : State) : bool :=
  match ls with
  | [] => true
  | l :: ls' => permitted l st && disciplined ls' (step l st)
  end.

(** The replies to the calls for one file, with the readings of the clock
    when [Promise.allSettled] resolves, when [startProcessing] resumes after
    the file and when it resumes after the timer that follows. *)
Record FileReplies := {
  reply_openai : Reply OpenAIResponse;
  reply_claude : Reply ClaudeResponse;
  reply_gemini : Reply GeminiResponse;
  settled_at : Z;
  resumed_at : Clock;
  delayed_at : Clock
}.

Definition responded {R : Type} (r : Reply R) : bool :=
  match r with Responded _ _ _ => true | Errored _ => false end.

(** How many of the three providers answered. *)
Definition successes (x : FileReplies) : nat :=
  length (filter (λ b : bool, b = true)
    [responded (reply_openai x); responded (reply_claude x);
     responded (reply_gemini x)]).

Definition any_success (x : FileReplies) : bool :=
  bool_decide (0 < successes x)%nat.

(** The transitions of one invocation of [startProcessing] that nothing
    interleaves with: per file the settlement and the resumption of the
    loop, and the timer before every file but the first. *)
Fixpoint drive (tid : nat) (rs : list FileReplies) : list Label :=
  match rs with
  | [] => []
  | x :: rs' =>
      LSettle tid (reply_openai x) (reply_claude x) (reply_gemini x) (settled_at x)
      :: LResume tid (resumed_at x)
      :: match rs' with
         | [] => []
         | _ :: _ => LResume tid (delayed_at x) :: drive tid rs'
         end
  end.

(** A job configuration with another job description. *)
Definition with_jobDescription (jd : string) (cfg : JobConfig) : JobConfig :=
  {| jobDescription := jd; prompt := prompt cfg; models := models cfg |}.

(** The same batch, state and transition with every job description [jd]
    replaced by [f jd]. *)
Definition redescribe_config (f : string → string) (cfg : JobConfig) : JobConfig :=
  with_jobDescription (f (jobDescription cfg)) cfg.

Definition redescribe_batch (f : string → string) (b : BatchJob) : BatchJob :=
  {| batch_id := batch_id b; status := status b; files := files b;
     jobConfig := redescribe_config f <$> jobConfig b;
     metrics := metrics b; createdAt := createdAt b;
     startedAt := startedAt b; completedAt := completedAt b |}.

Definition redescribe (f : string → string) (st : State) : State :=
  {| heap := redescribe_batch f <$> heap st; jobs := jobs st;
     tasks := tasks st |}.

Definition redescribe_label (f : string → string) (l : Label) : Label :=
  match l with
  | LCreate ups cfg batchId now =>
      LCreate ups (redescribe_config f cfg) batchId now
  | _ => l
  end.

(** ** Notions used in the statements *)

Definition metrics_sum (m : BatchMetrics) : Z :=
  pending m + processing m + completed m + failed m.

(** [pending + processing + completed + failed == total] *)
Definition balanced (b : BatchJob) : Prop :=
  metrics_sum (metrics b) = total (metrics b).

(** What a transition may do to a batch object: its identity, its file
    count and its configuration stay, [total] stays, the four file counters
    keep their sum and the provider counters do not decrease. *)
Record evolves (b b' : BatchJob) : Prop := {
  ev_id : batch_id b' = batch_id b;
  ev_cfg : jobConfig b' = jobConfig b;
  ev_files : length (files b') = length (files b);
  ev_total : total (metrics b') = total (metrics b);
  ev_sum : metrics_sum (metrics b') = metrics_sum (metrics b);
  ev_openai : openaiComplete (metrics b) ≤ openaiComplete (metrics b');
  ev_claude : claudeComplete (metrics b) ≤ claudeComplete (metrics b');
  ev_gemini : geminiComplete (metrics b) ≤ geminiComplete (metrics b')
}.

Definition heap_evolves (st st' : State) : Prop :=
  length (heap st') = length (heap st)
  ∧ ∀ r b b', heap st !! r = Some b → heap st' !! r = Some b' → evolves b b'.

(** How many of the files of [rs] satisfy [f]. *)
Definition tally (f : FileReplies → bool) (rs : list FileReplies) : Z :=
  foldr (λ x a, b2z (f x) + a) 0 rs.

(** The status [processTranscript] leaves a file in. *)
Definition file_outcome (x : FileReplies) : FileStatus :=
  if any_success x then FileCompleted else FileFailed.

(** What one uninterrupted invocation of [startProcessing] with the replies
    [rs] makes of the batch object [b]: [b'] is the object afterwards. *)
Record processed (rs : list FileReplies) (b b' : BatchJob) : Prop := {
  pr_status : status b' = Completed;
  pr_pending : pending (metrics b') = pending (metrics b) - Z.of_nat (length rs);
  pr_processing : processing (metrics b') = processing (metrics b);
  pr_completed :
    completed (metrics b') = completed (metrics b) + tally any_success rs;
  pr_failed :
    failed (metrics b')
    = failed (metrics b) + tally (λ x, negb (any_success x)) rs;
  pr_openai :
    openaiComplete (metrics b')
    = openaiComplete (metrics b) + tally (λ x, responded (reply_openai x)) rs;
  pr_claude :
    claudeComplete (metrics b')
    = claudeComplete (metrics b) + tally (λ x, responded (reply_claude x)) rs;
  pr_gemini :
    geminiComplete (metrics b')
    = geminiComplete (metrics b) + tally (λ x, responded (reply_gemini x)) rs;
  pr_total : total (metrics b') = total (metrics b);
  pr_files :
    ∀ (j : nat) x, rs !! j = Some x →
      ∃ f', files b' !! j = Some f'
            ∧ file_status f' = file_outcome x
            ∧ (any_success x = false →
               error f' = Some "All models failed to process the transcript")
}.

(** [st'] is [st] with the batch object at [r] and the task [tid] replaced. *)
Definition updated (st st' : State) (r : nat) (b' : BatchJob)
    (tid : nat) (t' : Task) : Prop :=
  jobs st' = jobs st
  ∧ heap st' !! r = Some b'
  ∧ (∀ r0, r0 ≠ r → heap st' !! r0 = heap st !! r0)
  ∧ tasks st' !! tid = Some t'
  ∧ (∀ tid0, tid0 ≠ tid → tasks st' !! tid0 = tasks st !! tid0).

(** The three settled promises for the replies [x], as the adapters started
    with [ms], [name] and [t0] produce them. *)
Definition settled_openai (ms : Models) (name : string) (t0 : Starts)
    (x : FileReplies) : Settled :=
  settled (openai_result (models_openai ms) name (start_openai t0))
    (reply_openai x).

Definition settled_claude (ms : Models) (name : string) (t0 : Starts)
    (x : FileReplies) : Settled :=
  settled (claude_result (models_claude ms) name (start_claude t0))
    (reply_claude x).

Definition settled_gemini (ms : Models) (name : string) (t0 : Starts)
    (x : FileReplies) : Settled :=
  settled (gemini_result (models_gemini ms) name (start_gemini t0))
    (reply_gemini x).

(** The batch object once file [i] has settled with the replies [x]. *)
Definition after_settle (ms : Models) (name : string) (t0 : Starts)
    (x : FileReplies) (i : nat) (b : BatchJob) : BatchJob :=
  on_metrics
    (settle_metrics (settled_openai ms name t0 x) (settled_claude ms name t0 x)
       (settled_gemini ms name t0 x))
    (on_file i
       (settle_file (settled_openai ms name t0 x) (settled_claude ms name t0 x)
          (settled_gemini ms name t0 x) (settled_at x)) b).

(** The batch object once [processTranscript] has started on file [i]. *)
Definition after_begin (i : nat) (b : BatchJob) : BatchJob :=
  on_metrics begin_metrics (on_file i (set_file_status FileProcessing) b).

(** ** The invariant of disciplined use *)

Definition live (t : Task) : Prop := task_phase t ≠ Returned.

(** What the suspension point of an invocation says about the counters of
    its batch [b] ([i] is the loop counter, [r] the batch reference). *)
Definition phase_ok (ph : Phase) (r i : nat) (b : BatchJob) : Prop :=
  let n := length (files b) in
  match ph with
  | AwaitSettled r' _ _ _ =>
      r' = r ∧ (i < n)%nat ∧ processing (metrics b) = 1
      ∧ Z.of_nat n - Z.of_nat i - 1 ≤ pending (metrics b)
  | AwaitTranscript =>
      (i < n)%nat ∧ processing (metrics b) = 0
      ∧ Z.of_nat n - Z.of_nat i - 1 ≤ pending (metrics b)
  | AwaitDelay =>
      (S i < n)%nat ∧ processing (metrics b) = 0
      ∧ Z.of_nat n - Z.of_nat i - 1 ≤ pending (metrics b)
  | Returned => True
  end.

Definition task_ok (h : list BatchJob) (t : Task) : Prop :=
  live t →
  ∃ b, h !! task_batch t = Some b
       ∧ batch_id b = task_batchId t
       ∧ status b ≠ Created ∧ status b ≠ Completed
       ∧ phase_ok (task_phase t) (task_batch t) (task_i t) b.

Definition batch_ok (b : BatchJob) : Prop :=
  total (metrics b) = Z.of_nat (length (files b))
  ∧ balanced b
  ∧ 0 ≤ pending (metrics b) ∧ 0 ≤ processing (metrics b)
  ∧ 0 ≤ failed (metrics b)
  ∧ 0 ≤ openaiComplete (metrics b) ≤ completed (metrics b)
  ∧ 0 ≤ claudeComplete (metrics b) ≤ completed (metrics b)
  ∧ 0 ≤ geminiComplete (metrics b) ≤ completed (metrics b)
  ∧ (status b = Created →
     pending (metrics b) = Z.of_nat (length (files b))
     ∧ processing (metrics b) = 0).

Record Inv (st : State) : Prop := {
  inv_batch : ∀ r b, heap st !! r = Some b → batch_ok b;
  inv_task : ∀ tid t, tasks st !! tid = Some t → task_ok (heap st) t;
  inv_owner :
    ∀ tid1 tid2 t1 t2,
      tasks st !! tid1 = Some t1 → tasks st !! tid2 = Some t2 →
      live t1 → live t2 → task_batch t1 = task_batch t2 → tid1 = tid2;
  inv_ids :
    ∀ r1 r2 b1 b2,
      heap st !! r1 = Some b1 → heap st !! r2 = Some b2 →
      batch_id b1 = batch_id b2 → r1 = r2;
  inv_jobs :
    ∀ batchId r, jobs st !! batchId = Some r →
      ∃ b, heap st !! r = Some b ∧ batch_id b = batchId
}.

(** The status changes of a batch under disciplined use: the start (from
    [Created]; a batch without files is [Completed] at once), a cancellation
    and the end of the loop. *)
Definition status_move (s s' : BatchStatus) : Prop :=
  s' = s
  ∨ (s = Created ∧ (s' = Processing ∨ s' = Completed))
  ∨ (s ≠ Completed ∧ s ≠ Cancelled ∧ s' = Cancelled)
  ∨ (s ≠ Created ∧ s ≠ Completed ∧ s' = Completed).

(** Every batch object of [st] changes status between [st] and [st'] in one
    of these ways only. *)
Definition moves (st st' : State) : Prop :=
  ∀ r b b', heap st !! r = Some b → heap st' !! r = Some b' →
    status_move (status b) (status b').

(** ** A scenario: one file, three answering providers *)

Definition demo_upload (name : string) : Upload :=
  {| up_file := {| originalname := name; path := "uploads/" ++ name;
                   mimetype := "text/plain" |};
     up_content := "Agent: hello. Customer: my order is late.";
     up_id := "file-" ++ name; up_time := 5 |}.

Definition demo_config : JobConfig :=
  {| jobDescription :=
       "Please analyze this customer support call transcript for sentiment";
     prompt := "Summarize the key issues raised by the customer";
     models := {| models_openai := "gpt-4o-mini";
                  models_claude := "claude-sonnet-4-20250514";
                  models_gemini := "gemini-2.5-flash" |} |}.

(** The clock read from the instant [t] on, a millisecond from one
    reading to the next. *)
Definition clock_at (t : Z) : Clock :=
  {| at_end := t;
     at_calls := {| start_openai := t; start_claude := t + 1;
                    start_gemini := t + 2 |} |}.

Definition answered : FileReplies :=
  {| reply_openai :=
       Responded {| choices := [ {| choice_message := Some (Some "late order") |} ];
                    usage_total_tokens := Some 42 |} 19 20;
     reply_claude :=
       Responded {| cl_content := [TextBlock "late order"]; cl_usage := None |}
         20 21;
     reply_gemini := Responded {| ge_text := "late order" |} 21 22;
     settled_at := 23; resumed_at := clock_at 24; delayed_at := clock_at 2025 |}.

Definition unanswered : FileReplies :=
  {| reply_openai := Errored "quota"; reply_claude := Errored "quota";
     reply_gemini := Errored "quota"; settled_at := 23;
     resumed_at := clock_at 24; delayed_at := clock_at 2025 |}.

Definition demo_created : State :=
  run [LCreate [demo_upload "a.txt"] demo_config "b1" 10] initial.

Definition demo_started : State := step (LStart "b1" 11 (clock_at 12)) demo_created.

Definition demo_completed : State := run (drive 0 [answered]) demo_started.

Definition demo_cancelled : State := step (LCancel "b1") demo_started.

(** A registry holding a batch without job configuration, which
    [createBatch] never produces. *)
Definition demo_unconfigured : State :=
  {| heap := [ {| batch_id := "b0"; status := Created; files := [];
                  jobConfig := None;
                  metrics := metrics (new_batch "b0" [] demo_config 10);
                  createdAt := 10; startedAt := None; completedAt := None |} ];
     jobs := {[ "b0" := 0%nat ]};
     tasks := [] |}.

(** ** Further notions: what a batch object keeps *)

Definition same_identity (f f' : TranscriptFile) : Prop :=
  file_id f' = file_id f ∧ originalFile f' = originalFile f
  ∧ content f' = content f ∧ retryCount f' = retryCount f
  ∧ startTime (progress f') = startTime (progress f).

(** A provider result that is present stays present (its value may be
    replaced when the file is processed again). *)
Definition results_kept (f f' : TranscriptFile) : Prop :=
  (is_Some (openai (results f)) → is_Some (openai (results f')))
  ∧ (is_Some (claude (results f)) → is_Some (claude (results f')))
  ∧ (is_Some (gemini (results f)) → is_Some (gemini (results f'))).

Record keeps (b b' : BatchJob) : Prop := {
  keeps_id : batch_id b' = batch_id b;
  keeps_cfg : jobConfig b' = jobConfig b;
  keeps_createdAt : createdAt b' = createdAt b;
  keeps_files :
    Forall2 (λ f f', same_identity f f' ∧ results_kept f f') (files b) (files b')
}.

(** Every object of [st] is still there in [st'], related by [R]. *)
Definition heap_related (R : BatchJob → BatchJob → Prop) (st st' : State) : Prop :=
  ∀ r b, heap st !! r = Some b → ∃ b', heap st' !! r = Some b' ∧ R b b'.

(** ** Further notions: the moves of an invocation *)

(** What the head of the loop, entered with counter [i] on the batch object
    [b0], makes of the object and of the invocation: the loop is over, or
    [processTranscript] returns at once, or it starts on file [i]. *)
Inductive loop_move (r : nat) (batchId : string) (i : nat) (b0 : BatchJob) :
    BatchJob → Task → Prop :=
| LM_finish (now : Z) :
    (length (files b0) ≤ i)%nat →
    loop_move r batchId i b0
      (set_completedAt now (set_status Completed b0))
      (Build_Task batchId r i Returned)
| LM_skip :
    (i < length (files b0))%nat →
    loop_move r batchId i b0 b0 (Build_Task batchId r i AwaitTranscript)
| LM_begin cfg file (now : Starts) :
    jobConfig b0 = Some cfg →
    files b0 !! i = Some file →
    loop_move r batchId i b0 (after_begin i b0)
      (Build_Task batchId r i
         (AwaitSettled r (models cfg) (originalname (originalFile file)) now)).

(** The transitions of a suspended invocation on its batch object. *)
Inductive task_move (r : nat) : Task → BatchJob → BatchJob → Task → Prop :=
| TM_settle batchId i ms name t0 x b :
    task_move r (Build_Task batchId r i (AwaitSettled r ms name t0)) b
      (after_settle ms name t0 x i b) (Build_Task batchId r i AwaitTranscript)
| TM_delay batchId i b :
    (S i < length (files b))%nat →
    task_move r (Build_Task batchId r i AwaitTranscript) b
      b (Build_Task batchId r i AwaitDelay)
| TM_last batchId i b b' t' :
    (length (files b) ≤ S i)%nat →
    loop_move r batchId (S i) b b' t' →
    task_move r (Build_Task batchId r i AwaitTranscript) b b' t'
| TM_next batchId i b b' t' :
    loop_move r batchId (S i) b b' t' →
    task_move r (Build_Task batchId r i AwaitDelay) b b' t'.

(** ** Further notions: counters and files *)

(** A file nothing has happened to yet. *)
Definition fresh_file (f : TranscriptFile) : Prop :=
  file_status f = FilePending ∧ openai (results f) = None
  ∧ claude (results f) = None ∧ gemini (results f) = None.

(** The number of files that satisfy [P]. *)
Definition count_files (P : TranscriptFile → bool)
    (fs : list TranscriptFile) : Z :=
  foldr (λ f a, b2z (P f) + a) 0 fs.

Definition has_status (s : FileStatus) (f : TranscriptFile) : bool :=
  bool_decide (file_status f = s).

Definition has_openai (f : TranscriptFile) : bool :=
  bool_decide (is_Some (openai (results f))).

Definition has_claude (f : TranscriptFile) : bool :=
  bool_decide (is_Some (claude (results f))).

Definition has_gemini (f : TranscriptFile) : bool :=
  bool_decide (is_Some (gemini (results f))).

(** The counters of the metrics are the numbers of files they stand for. *)
Definition counted (b : BatchJob) : Prop :=
  pending (metrics b) = count_files (has_status FilePending) (files b)
  ∧ processing (metrics b) = count_files (has_status FileProcessing) (files b)
  ∧ completed (metrics b) = count_files (has_status FileCompleted) (files b)
  ∧ failed (metrics b) = count_files (has_status FileFailed) (files b)
  ∧ openaiComplete (metrics b) = count_files has_openai (files b)
  ∧ claudeComplete (metrics b) = count_files has_claude (files b)
  ∧ geminiComplete (metrics b) = count_files has_gemini (files b).

Definition later_fresh (i : nat) (b : BatchJob) : Prop :=
  ∀ (j : nat) f, files b !! j = Some f → (i < j)%nat → fresh_file f.

Definition position_ok (ph : Phase) (i : nat) (b : BatchJob) : Prop :=
  match ph with
  | AwaitSettled _ _ _ _ =>
      (∃ f, files b !! i = Some f ∧ file_status f = FileProcessing
            ∧ openai (results f) = None ∧ claude (results f) = None
            ∧ gemini (results f) = None)
      ∧ later_fresh i b
  | AwaitTranscript | AwaitDelay => later_fresh i b
  | Returned => True
  end.

Definition batch_ok2 (b : BatchJob) : Prop :=
  counted b
  ∧ processing (metrics b) ≤ 1
  ∧ (status b = Created → ∀ (j : nat) f, files b !! j = Some f → fresh_file f)
  ∧ (∀ (j : nat) f, files b !! j = Some f →
       file_status f = FileProcessing → later_fresh j b).

Record Inv2 (st : State) : Prop := {
  inv2_batch : ∀ r b, heap st !! r = Some b → batch_ok2 b;
  inv2_task :
    ∀ tid t, tasks st !! tid = Some t → live t →
      ∃ b, heap st !! task_batch t = Some b
           ∧ position_ok (task_phase t) (task_i t) b
}.

(** ** Further notions: continuations and a second scenario *)

(** The transitions that continue a suspended invocation. *)
Definition is_continuation (l : Label) : bool :=
  match l with
  | LSettle _ _ _ _ _ | LResume _ _ => true
  | _ => false
  end.

(** Two files; the batch is cancelled and deleted while the first file is
    with the providers. *)
Definition demo_deleted : State :=
  run [LCreate [demo_upload "a.txt"; demo_upload "b.txt"] demo_config "b1" 10;
       LStart "b1" 11 (clock_at 12); LCancel "b1"; LDelete "b1";
       LSettle 0 (reply_openai answered) (reply_claude answered)
         (reply_gemini answered) 23] initial.

(** ** Further notions: file records *)

Definition no_results (f : TranscriptFile) : Prop :=
  openai (results f) = None ∧ claude (results f) = None
  ∧ gemini (results f) = None.

Definition some_result (f : TranscriptFile) : Prop :=
  is_Some (openai (results f)) ∨ is_Some (claude (results f))
  ∨ is_Some (gemini (results f)).

(** The end of the processing is recorded, with the duration since the
    [startTime] of the record. *)
Definition timed (f : TranscriptFile) : Prop :=
  ∃ e, processingEnd (progress f) = Some e
       ∧ totalDuration (progress f) = Some (e - startTime (progress f)).

Definition untimed (f : TranscriptFile) : Prop :=
  processingEnd (progress f) = None ∧ totalDuration (progress f) = None.

(** What the status of a file says about the rest of its record. *)
Definition coherent (f : TranscriptFile) : Prop :=
  match file_status f with
  | FilePending | FileProcessing =>
      no_results f ∧ error f = None ∧ untimed f
  | FileCompleted =>
      some_result f ∧ error f = None ∧ timed f
  | FileFailed =>
      no_results f
      ∧ error f = Some "All models failed to process the transcript"
      ∧ timed f
  end.

(** Two files; the providers answer for the first and fail for the
    second. *)
Definition demo_mixed : list Label :=
  ([LCreate [demo_upload "a.txt"; demo_upload "b.txt"] demo_config "b1" 10;
    LStart "b1" 11 (clock_at 12)] ++ drive 0 [answered; unanswered])%list.

(** ** Further notions: coherent and attributed records *)

Definition files_coherent (b : BatchJob) : Prop :=
  ∀ (j : nat) f, files b !! j = Some f → coherent f.

(** The results a file holds name the file and the models of the job
    configuration; the text of an OpenAI result is not empty. *)
Definition results_attributed (cfg : JobConfig) (f : TranscriptFile) : Prop :=
  (∀ a, openai (results f) = Some a →
     filename a = originalname (originalFile f)
     ∧ model a = models_openai (models cfg) ∧ analysis a ≠ "")
  ∧ (∀ a, claude (results f) = Some a →
       filename a = originalname (originalFile f)
       ∧ model a = models_claude (models cfg))
  ∧ (∀ a, gemini (results f) = Some a →
       filename a = originalname (originalFile f)
       ∧ model a = models_gemini (models cfg)).

Definition batch_attributed (b : BatchJob) : Prop :=
  ∀ cfg (j : nat) f, jobConfig b = Some cfg → files b !! j = Some f →
    results_attributed cfg f.

Definition batch_ok3 (b : BatchJob) : Prop :=
  files_coherent b ∧ batch_attributed b.

(** The calls an invocation is waiting for were issued for file [i] of its
    batch, with the models of the job configuration. *)
Definition call_ok (ph : Phase) (i : nat) (b : BatchJob) : Prop :=
  match ph with
  | AwaitSettled _ ms name _ =>
      ∃ cfg f, jobConfig b = Some cfg ∧ files b !! i = Some f
               ∧ ms = models cfg ∧ name = originalname (originalFile f)
  | _ => True
  end.

Record Inv3 (st : State) : Prop := {
  inv3_batch : ∀ r b, heap st !! r = Some b → batch_ok3 b;
  inv3_task :
    ∀ tid t b, tasks st !! tid = Some t → heap st !! task_batch t = Some b →
      call_ok (task_phase t) (task_i t) b
}.

(** ** The upload route ([src/middleware/uploadMiddleware.ts],
    [TranscriptController.processTranscripts]) *)

(** The methods of JavaScript strings the route calls.  What they return
    depends on the UTF-16 code units of a string and on the Unicode tables
    of white space and case, which the strings of this development do not
    carry: the methods are parameters of the route. *)
Record JsString := {
  js_trim : string → string;
  js_toLowerCase : string → string;
  js_endsWith : string → string → bool;
  js_length : string → nat
}.

(** [fileFilter] of the upload middleware: the file is stored, or the
    upload is refused with an error. *)
Inductive Filtered :=
| Stored
| Refused (message : string).

Definition fileFilter (js : JsString) (file : MulterFile) : Filtered :=
  if decide (mimetype file = "text/plain"
             ∨ js_endsWith js (js_toLowerCase js (originalname file)) ".txt"
               = true)
  then Stored
  else Refused "Only TXT files are allowed".

(** A field of [req.body]: missing (or any other falsy value that is not
    a string), a string, or a value that is truthy and not a string (an
    array or an object of the body parser). *)
Inductive BodyField :=
| Missing
| Text (s : string)
| NotText.

(** [!x] *)
Definition falsy (x : BodyField) : bool :=
  match x with
  | Missing => true
  | Text s => bool_decide (s = "")
  | NotText => false
  end.

(** [x.trim()]: a [TypeError] unless [x] is a string. *)
Definition trim (js : JsString) (x : BodyField) : option string :=
  match x with
  | Text s => Some (js_trim js s)
  | Missing | NotText => None
  end.

Record UploadRequest := {
  req_files : option (list MulterFile);
  req_jobDescription : BodyField;
  req_prompt : BodyField;
  req_openaiModel : BodyField;
  req_claudeModel : BodyField;
  req_geminiModel : BodyField
}.

(** What the environment decides during one request: the [uuidv4()] of the
    batch; for the file at each position the content read from disk with
    the [uuidv4()] and the [new Date()] of its record, or the failure of
    the read; the [new Date()] of [createBatch] and of [startProcessing]
    with the readings of the clock at the head of the loop;
    and the message of the error the handler catches, if one is thrown. *)
Record UploadEnv := {
  env_batchId : string;
  env_read : nat → option (string * string * Z);
  env_created : Z;
  env_started : Z;
  env_clock : Clock;
  env_message : string
}.

(** The reads of [createBatch]: [Promise.all] rejects when one read does. *)
Fixpoint read_files (read : nat → option (string * string * Z)) (k : nat)
    (files : list MulterFile) : option (list Upload) :=
  match files with
  | [] => Some []
  | file :: rest =>
      match read k with
      | None => None
      | Some (content, id, now) =>
          ups ← read_files read (S k) rest;
          Some ({| up_file := file; up_content := content; up_id := id;
                   up_time := now |} :: ups)
      end
  end.

Record ProcessData := {
  pd_batchId : string;
  pd_totalFiles : nat;
  pd_status : string;
  pd_message : string
}.

Inductive HttpResponse :=
| Status200 (data : ProcessData)
| Status400 (err : string)
| Status500 (err : string).

(** A call of the handler on the processor. *)
Inductive Call :=
| CallCreateBatch (files : list MulterFile) (jobConfig : JobConfig)
| CallStartProcessing (batchId : string).

(** What the handler does: its response, the calls it makes on the
    processor, in order, and the transitions of the tracker these calls
    lead to.  A call of [createBatch] one of whose reads fails rejects
    before it registers anything: it is a call without a transition, and
    the handler answers 500.  [createBatch] is awaited, so
    [startProcessing] is called in a later segment than the one that
    registers the batch. *)
Record Handled := {
  response : HttpResponse;
  calls : list Call;
  transitions : list Label
}.

Definition processTranscripts (js : JsString) (env : UploadEnv)
    (req : UploadRequest) : Handled :=
  let answer r := {| response := r; calls := []; transitions := [] |} in
  let thrown := answer (Status500 (env_message env)) in
  match req_files req with
  | None | Some [] => answer (Status400 "No files uploaded")
  | Some files =>
      let txtFiles :=
        filter (λ file,
                  mimetype file = "text/plain"
                  ∨ js_endsWith js (js_toLowerCase js (originalname file))
                      ".txt" = true) files in
      if bool_decide (length txtFiles = 0%nat)
      then answer (Status400 "No valid TXT files found")
      else if falsy (req_jobDescription req)
      then answer (Status400 "Job description must be at least 20 characters")
      else
      match trim js (req_jobDescription req) with
      | None => thrown
      | Some jd =>
      if bool_decide (js_length js jd < 20)%nat
      then answer (Status400 "Job description must be at least 20 characters")
      else if falsy (req_prompt req)
      then answer (Status400 "Prompt must be at least 20 characters")
      else
      match trim js (req_prompt req) with
      | None => thrown
      | Some p =>
      if bool_decide (js_length js p < 20)%nat
      then answer (Status400 "Prompt must be at least 20 characters")
      else if falsy (req_openaiModel req) || falsy (req_claudeModel req)
              || falsy (req_geminiModel req)
      then answer
             (Status400
                "All model names are required (openaiModel, claudeModel, geminiModel)")
      else
      match trim js (req_openaiModel req), trim js (req_claudeModel req),
            trim js (req_geminiModel req) with
      | Some o, Some c, Some g =>
          let jobConfig :=
            {| jobDescription := jd; prompt := p;
               models := {| models_openai := o; models_claude := c;
                            models_gemini := g |} |} in
          (* [await this.processor.createBatch(txtFiles, jobConfig)] *)
          match read_files (env_read env) 0 txtFiles with
          | None =>
              {| response := Status500 (env_message env);
                 calls := [CallCreateBatch txtFiles jobConfig];
                 transitions := [] |}
          | Some ups =>
              let batchId := env_batchId env in
              {| response :=
                   Status200
                     {| pd_batchId := batchId;
                        pd_totalFiles := length txtFiles;
                        pd_status := "processing";
                        pd_message :=
                          "Processing " ++ pretty (length txtFiles)
                          ++ " transcript file(s) with multiple AI models" |};
                 calls := [CallCreateBatch txtFiles jobConfig;
                           CallStartProcessing batchId];
                 transitions :=
                   [LCreate ups jobConfig batchId (env_created env);
                    LStart batchId (env_started env) (env_clock env)] |}
          end
      | _, _, _ => thrown
      end
      end
      end
  end.

(** The requests the handler accepts. *)
Definition long_enough (js : JsString) (x : BodyField) : Prop :=
  ∃ s, x = Text s ∧ s ≠ "" ∧ (20 ≤ js_length js (js_trim js s))%nat.

Definition named (x : BodyField) : Prop := ∃ s, x = Text s ∧ s ≠ "".

Definition acceptable (js : JsString) (env : UploadEnv) (req : UploadRequest) :
    Prop :=
  ∃ files,
    req_files req = Some files
    ∧ Exists (λ file,
                mimetype file = "text/plain"
                ∨ js_endsWith js (js_toLowerCase js (originalname file)) ".txt"
                  = true) files
    ∧ long_enough js (req_jobDescription req)
    ∧ long_enough js (req_prompt req)
    ∧ named (req_openaiModel req) ∧ named (req_claudeModel req)
    ∧ named (req_geminiModel req)
    ∧ is_Some (read_files (env_read env) 0
                 (filter (λ file,
                            mimetype file = "text/plain"
                            ∨ js_endsWith js
                                (js_toLowerCase js (originalname file)) ".txt"
                              = true) files)).

(** A transition that is no creation and no deletion of a batch under
    the id [batchId]. *)
Definition keeps_registration (batchId : string) (l : Label) : bool :=
  match l with
  | LCreate _ _ id _ | LDelete id => bool_decide (id ≠ batchId)
  | _ => true
  end.

(** A transition that is no start, cancellation or deletion of the batch
    [batchId]. *)
Definition leaves_alone (batchId : string) (l : Label) : bool :=
  match l with
  | LStart id _ _ | LCancel id | LDelete id => bool_decide (id ≠ batchId)
  | _ => true
  end.

(** The batch object after [createBatch] and the first segment of
    [startProcessing]. *)
Definition started_batch (batchId : string) (ups : list Upload)
    (cfg : JobConfig) (now now' : Z) (clock : Clock) : BatchJob :=
  let b := set_startedAt now' (set_status Processing
                                 (new_batch batchId ups cfg now)) in
  match ups with
  | [] => set_completedAt (at_end clock) (set_status Completed b)
  | _ :: _ => after_begin 0 b
  end.

(** String methods for the scenarios: no white space to trim, names in
    lower case already, and the length in characters. *)
Definition demo_js : JsString :=
  {| js_trim := λ s, s; js_toLowerCase := λ s, s;
     js_endsWith := λ s suffix,
       bool_decide (String.substring (String.length s - String.length suffix)
                      (String.length suffix) s = suffix);
     js_length := String.length |}.

Definition demo_env : UploadEnv :=
  {| env_batchId := "b7";
     env_read := λ _, Some ("Agent: hello. Customer: my order is late.",
                            "file-7", 5);
     env_created := 10; env_started := 11; env_clock := clock_at 12;
     env_message := "ENOENT" |}.

Definition demo_request : UploadRequest :=
  {| req_files :=
       Some [ {| originalname := "a.txt"; path := "uploads/a-1.txt";
                 mimetype := "text/plain" |};
              {| originalname := "b.pdf"; path := "uploads/b-2.pdf";
                 mimetype := "application/pdf" |} ];
     req_jobDescription := Text (jobDescription demo_config);
     req_prompt := Text (prompt demo_config);
     req_openaiModel := Text "gpt-4o-mini";
     req_claudeModel := Text "claude-sonnet-4-20250514";
     req_geminiModel := Text "gemini-2.5-flash" |}.

(** * Properties *)

(** ** Basic facts about the state updates *)

Lemma mutate_lookup r g st r0 :
  heap (mutate r g st) !! r0 =
    if decide (r = r0) then g <$> heap st !! r0 else heap st !! r0.
Proof.
  unfold mutate; simpl. rewrite list_lookup_alter.
  destruct (decide (r = r0)) as [->|Hne]; done.
Qed.

Lemma mutate_jobs_get r g st batchId :
  jobs_get (mutate r g st) batchId =
    (λ p, (p.1, if decide (r = p.1) then g p.2 else p.2)) <$> jobs_get st batchId.
Proof.
  unfold jobs_get. simpl. destruct (jobs st !! batchId) as [r0|]; simpl; [|done].
  rewrite list_lookup_alter.
  destruct (decide (r = r0)) as [->|]; destruct (heap st !! r0); simpl;
    try done; case_decide; done.
Qed.

Lemma jobs_get_Some st batchId r b :
  jobs_get st batchId = Some (r, b) ↔
    jobs st !! batchId = Some r ∧ heap st !! r = Some b.
Proof.
  unfold jobs_get. destruct (jobs st !! batchId) as [r0|]; simpl.
  - destruct (heap st !! r0) as [b0|] eqn:E; simpl; split.
    + intros [= <- <-]. done.
    + intros [[= <-] ?]. congruence.
    + done.
    + intros [[= <-] ?]. congruence.
  - split; [done | intros [? _]; done].
Qed.

(** ** cancelBatch, deleteBatch and the failures of startProcessing *)

(** C5. [cancelBatch] answers [true] exactly when the batch is registered
    and its status is neither [Completed] nor [Cancelled]; the status of
    that batch object is then [Cancelled] -- a progress query reports it --
    and nothing else is touched (the other fields of the object, the
    registry, the other objects, the running invocations).  In every other
    case it answers [false] and the state is the one it was called in. *)
Theorem cancelBatch_spec (batchId : string) (st : State) :
  let ok := (cancelBatch batchId st).1 in
  let st' := (cancelBatch batchId st).2 in
  (ok = true ↔
     ∃ r b, jobs_get st batchId = Some (r, b)
            ∧ status b ≠ Completed ∧ status b ≠ Cancelled)
  ∧ (ok = true →
     ∃ r b b', jobs_get st batchId = Some (r, b)
            ∧ jobs_get st' batchId = Some (r, b')
            ∧ status b' = Cancelled
            ∧ b' = {| batch_id := batch_id b; status := Cancelled;
                      files := files b; jobConfig := jobConfig b;
                      metrics := metrics b; createdAt := createdAt b;
                      startedAt := startedAt b;
                      completedAt := completedAt b |}
            ∧ heap st' = <[r := b']> (heap st)
            ∧ jobs st' = jobs st ∧ tasks st' = tasks st
            ∧ ∃ p, getBatchProgress batchId st' = Some p
                   ∧ bp_status p = Cancelled
                   ∧ bp_metrics p = metrics b)
  ∧ (ok = false → st' = st).
Proof.
  unfold cancelBatch.
  destruct (jobs_get st batchId) as [[r b]|] eqn:Hget; simpl.
  - destruct (bool_decide (status b = Completed)) eqn:H1;
      [|destruct (bool_decide (status b = Cancelled)) eqn:H2]; simpl.
    + apply bool_decide_eq_true in H1. split_and!; [|done|done].
      split; [done|]. intros (? & ? & [= <- <-] & ? & ?). done.
    + apply bool_decide_eq_true in H2. split_and!; [|done|done].
      split; [done|]. intros (? & ? & [= <- <-] & ? & ?). done.
    + apply bool_decide_eq_false in H1, H2. split_and!; [|  |done].
      * split; [|done]. intros _. by exists r, b.
      * intros _. exists r, b, (set_status Cancelled b). split; [done|].
        apply jobs_get_Some in Hget as [Hj Hh].
        assert (Hget' : jobs_get (mutate r (set_status Cancelled) st) batchId
                        = Some (r, set_status Cancelled b)).
        { rewrite mutate_jobs_get. unfold jobs_get. rewrite Hj. simpl.
          rewrite Hh. simpl. by rewrite decide_True. }
        split_and!; try done.
        -- simpl. apply list_eq. intros k.
           destruct (decide (r = k)) as [<-|Hne].
           ++ rewrite list_lookup_alter, decide_True, Hh by done. simpl.
              symmetry. apply list_lookup_insert_eq. by eapply lookup_lt_Some.
           ++ rewrite list_lookup_alter, decide_False by done.
              by rewrite list_lookup_insert_ne.
        -- unfold getBatchProgress. rewrite Hget'. by eexists.
  - split_and!; [|done|done]. split; [done|]. intros (? & ? & ? & _). done.
Qed.

(** C6. [deleteBatch] answers [true] exactly when the batch is registered
    and its status is not [Processing]; it then removes the id from the
    registry.  Otherwise it answers [false] and changes nothing: a batch
    in status [Processing] stays registered, unchanged. *)
Theorem deleteBatch_spec (batchId : string) (st : State) :
  let ok := (deleteBatch batchId st).1 in
  let st' := (deleteBatch batchId st).2 in
  (ok = true ↔
     ∃ r b, jobs_get st batchId = Some (r, b) ∧ status b ≠ Processing)
  ∧ (ok = true →
     jobs st' = delete batchId (jobs st) ∧ jobs_get st' batchId = None
     ∧ getBatchProgress batchId st' = None)
  ∧ (ok = false → st' = st)
  ∧ (∀ r b, jobs_get st batchId = Some (r, b) → status b = Processing →
       ok = false ∧ jobs_get st' batchId = Some (r, b)).
Proof.
  unfold deleteBatch.
  destruct (jobs_get st batchId) as [[r b]|] eqn:Hget; simpl.
  - destruct (bool_decide (status b = Processing)) eqn:H1; simpl.
    + apply bool_decide_eq_true in H1. split_and!; try done.
      * split; [done|]. intros (? & ? & [= <- <-] & ?). done.
      * intros ? ? [= <- <-] _. done.
    + apply bool_decide_eq_false in H1. split_and!; try done.
      * split; [|done]. intros _. by exists r, b.
      * intros _. unfold getBatchProgress, jobs_get. simpl.
        rewrite lookup_delete_eq. done.
      * intros ? ? [= <- <-] ?. done.
  - split_and!; try done. split; [done|]. intros (? & ? & ? & _). done.
Qed.

(** C7. [startProcessing] throws "Batch <id> not found" when the id is not
    registered and "Job configuration not set" when the registered batch
    has no [jobConfig]; in both cases the state (every status, timestamp
    and metric, the registry, the invocations) is what it was. *)
Theorem startProcessing_failures
    (batchId : string) (now : Z) (clock : Clock) (st : State) :
  (jobs_get st batchId = None →
     startProcessing batchId now clock st =
       (Threw ("Batch " ++ batchId ++ " not found"), st))
  ∧ (∀ r b, jobs_get st batchId = Some (r, b) → jobConfig b = None →
     startProcessing batchId now clock st = (Threw "Job configuration not set", st)).
Proof.
  unfold startProcessing. split.
  - intros ->. done.
  - intros r b -> ->. done.
Qed.

Lemma startProcessing_failures_witness :
  startProcessing "b9" 1 (clock_at 2) initial = (Threw "Batch b9 not found", initial)
  ∧ startProcessing "b0" 1 (clock_at 2) demo_unconfigured
    = (Threw "Job configuration not set", demo_unconfigured).
Proof.
  destruct (startProcessing_failures "b9" 1 (clock_at 2) initial) as [H1 _].
  destruct (startProcessing_failures "b0" 1 (clock_at 2) demo_unconfigured) as [_ H2].
  split.
  - apply H1. reflexivity.
  - eapply H2; [vm_compute; reflexivity | reflexivity].
Defined.

(** ** The archive *)

Lemma add_results_app basename archive file :
  add_results basename archive file =
    (archive ++ (p ← [OpenAI; Claude; Gemini];
                match result_of p file with
                | Some r => [entry_for basename file p r]
                | None => []
                end))%list.
Proof.
  unfold add_results, append, entry_for. simpl.
  destruct (rf_openai file), (rf_claude file), (rf_gemini file); simpl;
    rewrite <- ?app_assoc, ?app_nil_r; reflexivity.
Qed.

Lemma foldl_add_results basename files archive :
  foldl (add_results basename) archive files =
    (archive ++ (file ← files; p ← [OpenAI; Claude; Gemini];
                match result_of p file with
                | Some r => [entry_for basename file p r]
                | None => []
                end))%list.
Proof.
  revert archive. induction files as [|file files IH]; intros archive; simpl.
  - by rewrite app_nil_r.
  - rewrite IH, add_results_app. by rewrite <- app_assoc.
Qed.


(** ** One transition, seen from a batch object *)

Lemma evolves_refl b : evolves b b.
Proof. split; reflexivity. Qed.

Lemma evolves_trans b1 b2 b3 : evolves b1 b2 → evolves b2 b3 → evolves b1 b3.
Proof.
  intros [] []. split; try congruence; etrans; eassumption.
Qed.

Lemma b2z_nonneg x : 0 ≤ b2z x.
Proof. destruct x; simpl; lia. Qed.

Lemma b2z_negb x : b2z x + b2z (negb x) = 1.
Proof. by destruct x. Qed.

Lemma evolves_set_status s b : evolves b (set_status s b).
Proof. split; reflexivity. Qed.

Lemma evolves_set_startedAt t b : evolves b (set_startedAt t b).
Proof. split; reflexivity. Qed.

Lemma evolves_set_completedAt t b : evolves b (set_completedAt t b).
Proof. split; reflexivity. Qed.

Lemma evolves_on_file i g b : evolves b (on_file i g b).
Proof. split; try reflexivity. simpl. apply length_alter. Qed.

Lemma evolves_begin b : evolves b (on_metrics begin_metrics b).
Proof. split; try reflexivity. unfold metrics_sum; simpl. lia. Qed.

Lemma evolves_settle r0 r1 r2 b :
  evolves b (on_metrics (settle_metrics r0 r1 r2) b).
Proof.
  split; try reflexivity; simpl.
  - unfold metrics_sum; simpl.
    pose proof (b2z_negb (bool_decide (0 < successCount r0 r1 r2)%nat)). lia.
  - pose proof (b2z_nonneg (fulfilled r0)). lia.
  - pose proof (b2z_nonneg (fulfilled r1)). lia.
  - pose proof (b2z_nonneg (fulfilled r2)). lia.
Qed.

Create HintDb evolve.
#[local] Hint Resolve evolves_refl evolves_set_status evolves_set_startedAt
  evolves_set_completedAt evolves_on_file evolves_begin evolves_settle : evolve.

Lemma heap_evolves_refl st : heap_evolves st st.
Proof.
  split; [done|]. intros r b b' H1 H2. rewrite H1 in H2.
  injection H2 as <-. apply evolves_refl.
Qed.

Lemma heap_evolves_trans st1 st2 st3 :
  heap_evolves st1 st2 → heap_evolves st2 st3 → heap_evolves st1 st3.
Proof.
  intros [L12 E12] [L23 E23]. split; [congruence|].
  intros r b b' H1 H3.
  destruct (heap st2 !! r) as [b2|] eqn:H2.
  - eapply evolves_trans; eauto.
  - apply lookup_ge_None in H2. apply lookup_lt_Some in H1. lia.
Qed.

Lemma heap_evolves_mutate r g st :
  (∀ b, evolves b (g b)) → heap_evolves st (mutate r g st).
Proof.
  intros Hg. split; [apply length_alter|].
  intros r0 b b' H1. rewrite mutate_lookup, H1.
  case_decide; simpl; intros [= <-]; [apply Hg | apply evolves_refl].
Qed.

Lemma heap_evolves_same st st' : heap st' = heap st → heap_evolves st st'.
Proof.
  intros E. split; [by rewrite E|]. intros r b b'. rewrite E.
  intros H1 H2. rewrite H1 in H2. injection H2 as <-. apply evolves_refl.
Qed.

Lemma heap_evolves_set_task tid t st : heap_evolves st (set_task tid t st).
Proof. by apply heap_evolves_same. Qed.

Lemma heap_evolves_begin batchId r i file now st :
  heap_evolves st (processTranscript_begin batchId r i file now st).1.1.
Proof.
  unfold processTranscript_begin.
  destruct (jobs_get st batchId) as [[r' batch]|]; [|apply heap_evolves_refl].
  destruct (jobConfig batch); [|apply heap_evolves_refl]. simpl.
  eapply heap_evolves_trans; apply heap_evolves_mutate; auto with evolve.
Qed.

Lemma heap_evolves_settle r i r' r0 r1 r2 now st :
  heap_evolves st (processTranscript_settle r i r' r0 r1 r2 now st).
Proof.
  unfold processTranscript_settle.
  eapply heap_evolves_trans; apply heap_evolves_mutate; auto with evolve.
Qed.

Lemma heap_evolves_loop_head tid t now st :
  heap_evolves st (loop_head tid t now st).
Proof.
  unfold loop_head. destruct (heap st !! task_batch t) as [batch|];
    [|apply heap_evolves_set_task].
  destruct (files batch !! task_i t) as [file|].
  - pose proof (heap_evolves_begin (task_batchId t) (task_batch t) (task_i t)
                  file (at_calls now) st) as H.
    destruct (processTranscript_begin _ _ _ _ _ _) as [[st' ph] c]. simpl in H.
    eapply heap_evolves_trans; [exact H | apply heap_evolves_set_task].
  - eapply heap_evolves_trans; [|apply heap_evolves_set_task].
    apply heap_evolves_mutate. intros b.
    apply (evolves_trans _ (set_status Completed b)); auto with evolve.
Qed.

Lemma heap_evolves_startProcessing batchId now clock st :
  heap_evolves st (startProcessing batchId now clock st).2.
Proof.
  unfold startProcessing.
  destruct (jobs_get st batchId) as [[r batch]|]; [|apply heap_evolves_refl].
  destruct (jobConfig batch); [|apply heap_evolves_refl]. simpl.
  eapply heap_evolves_trans; [|apply heap_evolves_loop_head].
  eapply heap_evolves_trans;
    [apply (heap_evolves_mutate r
              (λ b, set_startedAt now (set_status Processing b)))|].
  - intros b.
    apply (evolves_trans _ (set_status Processing b)); auto with evolve.
  - by apply heap_evolves_same.
Qed.

Lemma heap_evolves_settle_task tid o c g now st :
  heap_evolves st (settle tid o c g now st).
Proof.
  unfold settle. destruct (tasks st !! tid) as [t|]; [|apply heap_evolves_refl].
  destruct (task_phase t); try apply heap_evolves_refl.
  eapply heap_evolves_trans; [apply heap_evolves_settle|apply heap_evolves_set_task].
Qed.

Lemma heap_evolves_resume tid now st : heap_evolves st (resume tid now st).
Proof.
  unfold resume. destruct (tasks st !! tid) as [t|]; [|apply heap_evolves_refl].
  destruct (task_phase t); try apply heap_evolves_refl.
  - destruct (heap st !! task_batch t); [|apply heap_evolves_refl].
    case_bool_decide; [apply heap_evolves_set_task|apply heap_evolves_loop_head].
  - apply heap_evolves_loop_head.
Qed.

Lemma heap_evolves_cancelBatch batchId st :
  heap_evolves st (cancelBatch batchId st).2.
Proof.
  unfold cancelBatch.
  destruct (jobs_get st batchId) as [[r batch]|]; [|apply heap_evolves_refl].
  destruct (_ || _); [apply heap_evolves_refl|].
  apply heap_evolves_mutate. auto with evolve.
Qed.

Lemma heap_evolves_deleteBatch batchId st :
  heap_evolves st (deleteBatch batchId st).2.
Proof.
  unfold deleteBatch.
  destruct (jobs_get st batchId) as [[r batch]|]; [|apply heap_evolves_refl].
  destruct (bool_decide _); [apply heap_evolves_refl|].
  by apply heap_evolves_same.
Qed.

(** Every transition but the creation of a batch keeps the objects of the
    heap and lets each of them evolve. *)
Lemma heap_evolves_step l st :
  (∀ ups cfg batchId now, l ≠ LCreate ups cfg batchId now) →
  heap_evolves st (step l st).
Proof.
  intros Hl. destruct l; simpl.
  - by destruct (Hl ups cfg batchId now).
  - apply heap_evolves_startProcessing.
  - apply heap_evolves_settle_task.
  - apply heap_evolves_resume.
  - apply heap_evolves_cancelBatch.
  - apply heap_evolves_deleteBatch.
Qed.

(** A transition keeps every object and lets it evolve; the only object it
    may add is a new batch. *)
Lemma step_object l st r b' :
  heap (step l st) !! r = Some b' →
  (∃ b, heap st !! r = Some b ∧ evolves b b')
  ∨ (heap st !! r = None ∧
     ∃ ups cfg batchId now, l = LCreate ups cfg batchId now
                            ∧ b' = new_batch batchId ups cfg now).
Proof.
  intros H'. destruct l as [ups cfg batchId now| | | | |].
  { simpl in H'. apply lookup_app_Some in H' as [H'|[Hlen H']].
    - left. exists b'. split; [done|apply evolves_refl].
    - right. split; [by apply lookup_ge_None|].
      exists ups, cfg, batchId, now. split; [done|].
      apply list_lookup_singleton_Some in H' as [_ <-]. done. }
  all: left.
  all: lazymatch type of H' with
       | heap (step ?l _) !! _ = _ =>
           destruct (heap_evolves_step l st) as [Hlen Hev]; [done|]
       end.
  all: destruct (heap st !! r) as [b|] eqn:Hb;
       [exists b; split; [done|]; by eapply Hev
       |apply lookup_ge_None in Hb; apply lookup_lt_Some in H'; lia].
Qed.

Lemma step_object_forward l st r b :
  heap st !! r = Some b →
  ∃ b', heap (step l st) !! r = Some b' ∧ evolves b b'.
Proof.
  intros Hb.
  assert (length (heap st) ≤ length (heap (step l st)))%nat as Hlen.
  { destruct l as [ups cfg batchId now| | | | |];
      [simpl; rewrite length_app; lia|..].
    all: lazymatch goal with
         | |- (_ ≤ length (heap (step ?l _)))%nat =>
             destruct (heap_evolves_step l st) as [-> _]; done
         end. }
  destruct (heap (step l st) !! r) as [b'|] eqn:Hb'.
  - exists b'. split; [done|].
    apply step_object in Hb' as [(b0 & Hb0 & Hev)|[Hn _]]; congruence.
  - apply lookup_ge_None in Hb'. apply lookup_lt_Some in Hb. lia.
Qed.

Lemma run_snoc ls l st : run (ls ++ [l]) st = step l (run ls st).
Proof. unfold run. by rewrite foldl_snoc. Qed.

Lemma run_cons l ls st : run (l :: ls) st = run ls (step l st).
Proof. reflexivity. Qed.

Lemma run_app ls1 ls2 st : run (ls1 ++ ls2) st = run ls2 (run ls1 st).
Proof. unfold run. by rewrite foldl_app. Qed.

Lemma run_object_forward ls st r b :
  heap st !! r = Some b →
  ∃ b', heap (run ls st) !! r = Some b' ∧ evolves b b'.
Proof.
  revert st b. induction ls as [|l ls IH]; intros st b Hb.
  - exists b. split; [done|apply evolves_refl].
  - rewrite run_cons.
    destruct (step_object_forward l st r b Hb) as (b1 & Hb1 & Hev1).
    destruct (IH _ _ Hb1) as (b' & Hb' & Hev').
    exists b'. split; [done|]. by eapply evolves_trans.
Qed.

Lemma new_batch_balanced batchId ups cfg now :
  balanced (new_batch batchId ups cfg now)
  ∧ total (metrics (new_batch batchId ups cfg now))
    = Z.of_nat (length (files (new_batch batchId ups cfg now))).
Proof. unfold balanced, metrics_sum. simpl. lia. Qed.

Lemma reachable_balanced ls r b :
  heap (run ls initial) !! r = Some b →
  balanced b ∧ total (metrics b) = Z.of_nat (length (files b)).
Proof.
  revert r b. induction ls as [|l ls IH] using rev_ind; intros r b Hb.
  - done.
  - rewrite run_snoc in Hb.
    apply step_object in Hb
      as [(b0 & Hb0 & Hev)|(_ & ups & cfg & batchId & now & _ & ->)].
    + destruct (IH _ _ Hb0) as [Hbal Htot]. destruct Hev.
      unfold balanced in *. split; congruence.
    + apply new_batch_balanced.
Qed.

(** ** The counters of a batch *)

(** C2. In every state the tracker can reach (after any sequence of
    transitions, that is at any instant between two uninterrupted segments),
    every batch object has [pending + processing + completed + failed =
    total], with [total] the number of its files; a progress query reports
    such metrics; and whatever happens afterwards, the object is still
    there with the same [total]. *)
Theorem metrics_balanced (ls : list Label) :
  let st := run ls initial in
  (∀ r b, heap st !! r = Some b →
     pending (metrics b) + processing (metrics b) + completed (metrics b)
       + failed (metrics b) = total (metrics b)
     ∧ total (metrics b) = Z.of_nat (length (files b)))
  ∧ (∀ batchId p, getBatchProgress batchId st = Some p →
     pending (bp_metrics p) + processing (bp_metrics p)
       + completed (bp_metrics p) + failed (bp_metrics p)
     = total (bp_metrics p))
  ∧ (∀ ls' r b, heap st !! r = Some b →
     ∃ b', heap (run ls' st) !! r = Some b'
           ∧ total (metrics b') = total (metrics b)
           ∧ length (files b') = length (files b)).
Proof.
  simpl. split_and!.
  - intros r b Hb. by apply reachable_balanced in Hb.
  - intros batchId p. unfold getBatchProgress.
    destruct (jobs_get _ batchId) as [[r b]|] eqn:Hget; [|done].
    intros [= <-]. simpl. apply jobs_get_Some in Hget as [_ Hb].
    by apply reachable_balanced in Hb as [Hbal _].
  - intros ls' r b Hb.
    destruct (run_object_forward ls' _ r b Hb) as (b' & Hb' & []).
    by exists b'.
Qed.

(** ** One invocation of startProcessing, uninterrupted *)

Lemma updated_trans st1 st2 st3 r b2 b3 tid t2 t3 :
  updated st1 st2 r b2 tid t2 → updated st2 st3 r b3 tid t3 →
  updated st1 st3 r b3 tid t3.
Proof.
  intros (J1 & _ & H1 & _ & T1) (J2 & Hb & H2 & Ht & T2).
  split_and!; try done.
  - congruence.
  - intros r0 Hr0. rewrite H2, H1; done.
  - intros tid0 Htid0. rewrite T2, T1; done.
Qed.

Lemma updated_mutate_task st r g b tid t t' :
  heap st !! r = Some b → tasks st !! tid = Some t →
  updated st (set_task tid t' (mutate r g st)) r (g b) tid t'.
Proof.
  intros Hb Ht. split_and!; simpl; try done.
  - by rewrite list_lookup_alter, decide_True, Hb.
  - intros r0 Hr0. by rewrite list_lookup_alter, decide_False.
  - apply list_lookup_insert_eq. by eapply lookup_lt_Some.
  - intros tid0 Htid0. by apply list_lookup_insert_ne.
Qed.

Lemma updated_task st r b tid t t' :
  heap st !! r = Some b → tasks st !! tid = Some t →
  updated st (set_task tid t' st) r b tid t'.
Proof.
  intros Hb Ht. split_and!; simpl; try done.
  - apply list_lookup_insert_eq. by eapply lookup_lt_Some.
  - intros tid0 Htid0. by apply list_lookup_insert_ne.
Qed.

Lemma spawn_updated st r g b t :
  heap st !! r = Some b →
  updated st (spawn t (mutate r g st)) r (g b) (length (tasks st)) t.
Proof.
  intros Hb. split_and!; simpl.
  - done.
  - by rewrite list_lookup_alter, decide_True, Hb.
  - intros r0 Hr0. by rewrite list_lookup_alter, decide_False.
  - apply list_lookup_middle. done.
  - intros tid0 Htid0.
    destruct (decide (tid0 < length (tasks st))%nat).
    + by apply lookup_app_l.
    + rewrite !(proj2 (lookup_ge_None _ _)); [done|lia|].
      rewrite length_app. simpl. lia.
Qed.

Lemma mutate_mutate r g1 g2 st :
  mutate r g2 (mutate r g1 st) = mutate r (g2 ∘ g1) st.
Proof. unfold mutate; simpl. f_equal. apply list_alter_alter_eq. Qed.

Lemma settle_updated st batchId r i ms name t0 b tid x :
  heap st !! r = Some b →
  tasks st !! tid = Some (Build_Task batchId r i (AwaitSettled r ms name t0)) →
  updated st
    (settle tid (reply_openai x) (reply_claude x) (reply_gemini x)
       (settled_at x) st)
    r (after_settle ms name t0 x i b)
    tid (Build_Task batchId r i AwaitTranscript).
Proof.
  intros Hb Ht. unfold settle. rewrite Ht. cbn [task_phase task_batch task_i].
  unfold processTranscript_settle. rewrite mutate_mutate.
  exact (updated_mutate_task st r _ b tid _ _ Hb Ht).
Qed.

Lemma resume_delay_updated st batchId r i b tid now :
  heap st !! r = Some b →
  tasks st !! tid = Some (Build_Task batchId r i AwaitTranscript) →
  (S i < length (files b))%nat →
  updated st (resume tid now st) r b tid (Build_Task batchId r i AwaitDelay).
Proof.
  intros Hb Ht Hi. unfold resume. rewrite Ht. cbn [task_phase task_batch task_i].
  rewrite Hb, bool_decide_true by lia. by eapply updated_task.
Qed.

Lemma loop_head_done_updated st batchId r i ph b tid t now :
  heap st !! r = Some b → tasks st !! tid = Some t →
  (length (files b) ≤ i)%nat →
  updated st (loop_head tid (Build_Task batchId r i ph) now st)
    r (set_completedAt (at_end now) (set_status Completed b))
    tid (Build_Task batchId r i Returned).
Proof.
  intros Hb Ht Hi. unfold loop_head. cbn [task_phase task_batch task_i].
  rewrite Hb. rewrite (proj2 (lookup_ge_None _ _)) by done.
  exact (updated_mutate_task st r
           (λ b, set_completedAt (at_end now) (set_status Completed b)) b tid t
           _ Hb Ht).
Qed.

Lemma loop_head_begin_updated st batchId r i ph b cfg file tid t now :
  jobs st !! batchId = Some r →
  heap st !! r = Some b → jobConfig b = Some cfg →
  tasks st !! tid = Some t →
  files b !! i = Some file →
  updated st (loop_head tid (Build_Task batchId r i ph) now st)
    r (after_begin i b)
    tid (Build_Task batchId r i
           (AwaitSettled r (models cfg) (originalname (originalFile file))
              (at_calls now))).
Proof.
  intros Hj Hb Hcfg Ht Hfile. unfold loop_head.
  cbn [task_phase task_batch task_i task_batchId].
  rewrite Hb, Hfile. unfold processTranscript_begin.
  rewrite (proj2 (jobs_get_Some st batchId r b)) by done.
  rewrite Hcfg, mutate_mutate.
  exact (updated_mutate_task st r _ b tid _ _ Hb Ht).
Qed.

Lemma resume_last_updated st batchId r i b tid now :
  heap st !! r = Some b →
  tasks st !! tid = Some (Build_Task batchId r i AwaitTranscript) →
  (length (files b) ≤ S i)%nat →
  updated st (resume tid now st)
    r (set_completedAt (at_end now) (set_status Completed b))
    tid (Build_Task batchId r (S i) Returned).
Proof.
  intros Hb Ht Hi. unfold resume. rewrite Ht. cbn [task_phase task_batch task_i].
  rewrite Hb, bool_decide_false by lia.
  by eapply loop_head_done_updated.
Qed.

Lemma resume_next_updated st batchId r i b cfg file tid now :
  jobs st !! batchId = Some r →
  heap st !! r = Some b → jobConfig b = Some cfg →
  tasks st !! tid = Some (Build_Task batchId r i AwaitDelay) →
  files b !! S i = Some file →
  updated st (resume tid now st)
    r (after_begin (S i) b)
    tid (Build_Task batchId r (S i)
           (AwaitSettled r (models cfg) (originalname (originalFile file))
              (at_calls now))).
Proof.
  intros Hj Hb Hcfg Ht Hfile. unfold resume. rewrite Ht.
  cbn [task_phase task_batch task_i].
  by eapply loop_head_begin_updated.
Qed.

Lemma success_agree ms name t0 x :
  bool_decide (0 < successCount (settled_openai ms name t0 x)
                     (settled_claude ms name t0 x)
                     (settled_gemini ms name t0 x))%nat
  = any_success x.
Proof.
  unfold any_success, successes, successCount, settled_openai, settled_claude,
    settled_gemini.
  destruct (reply_openai x), (reply_claude x), (reply_gemini x); reflexivity.
Qed.

Lemma fulfilled_settled {R} (finish : R → Z → Z → TranscriptAnalysis)
    (r : Reply R) :
  fulfilled (settled finish r) = responded r.
Proof. by destruct r. Qed.

Lemma settle_file_status r0 r1 r2 now f :
  file_status (settle_file r0 r1 r2 now f)
  = (if bool_decide (0 < successCount r0 r1 r2)%nat
     then FileCompleted else FileFailed)
  ∧ (bool_decide (0 < successCount r0 r1 r2)%nat = false →
     error (settle_file r0 r1 r2 now f)
     = Some "All models failed to process the transcript").
Proof.
  unfold settle_file. destruct (bool_decide _); simpl; split; done.
Qed.

(** The state of a batch object whose invocation is suspended at
    [Promise.allSettled] for file [i], once the replies [rs] for the files
    from [i] on have all come. *)
Lemma drive_spec batchId r tid rs :
  ∀ i st b cfg ms name t0,
  rs ≠ [] →
  jobs st !! batchId = Some r → heap st !! r = Some b →
  jobConfig b = Some cfg →
  length (files b) = (i + length rs)%nat →
  tasks st !! tid = Some (Build_Task batchId r i (AwaitSettled r ms name t0)) →
  ∃ b' i',
    updated st (run (drive tid rs) st) r b' tid (Build_Task batchId r i' Returned)
    ∧ status b' = Completed
    ∧ pending (metrics b') = pending (metrics b) - Z.of_nat (length rs) + 1
    ∧ processing (metrics b') = processing (metrics b) - 1
    ∧ completed (metrics b') = completed (metrics b) + tally any_success rs
    ∧ failed (metrics b')
      = failed (metrics b) + tally (λ x, negb (any_success x)) rs
    ∧ openaiComplete (metrics b')
      = openaiComplete (metrics b) + tally (λ x, responded (reply_openai x)) rs
    ∧ claudeComplete (metrics b')
      = claudeComplete (metrics b) + tally (λ x, responded (reply_claude x)) rs
    ∧ geminiComplete (metrics b')
      = geminiComplete (metrics b) + tally (λ x, responded (reply_gemini x)) rs
    ∧ total (metrics b') = total (metrics b)
    ∧ (∀ (j : nat) x, rs !! j = Some x →
         ∃ f', files b' !! (i + j)%nat = Some f'
               ∧ file_status f' = file_outcome x
               ∧ (any_success x = false →
                  error f' = Some "All models failed to process the transcript"))
    ∧ (∀ k : nat, (k < i)%nat → files b' !! k = files b !! k).
Proof.
  induction rs as [|x rs IH]; [done|].
  intros i st b cfg ms name t0 _ Hj Hb Hcfg Hlen Ht.
  pose proof (settle_updated st batchId r i ms name t0 b tid x Hb Ht) as U1.
  set (st1 := settle tid (reply_openai x) (reply_claude x) (reply_gemini x)
                (settled_at x) st) in *.
  set (b1 := after_settle ms name t0 x i b) in *.
  destruct U1 as (J1 & Hb1 & F1 & Ht1 & T1).
  assert (Hlen1 : length (files b1) = length (files b)).
  { unfold b1, after_settle. simpl. apply length_alter. }
  destruct (files b !! i) as [f|] eqn:Hf;
    [|apply lookup_ge_None in Hf; simpl in Hlen; lia].
  assert (Hf1 : ∃ f1, files b1 !! i = Some f1
                      ∧ file_status f1 = file_outcome x
                      ∧ (any_success x = false →
                         error f1
                         = Some "All models failed to process the transcript")).
  { eexists. split.
    - unfold b1, after_settle. simpl.
      rewrite list_lookup_alter, decide_True, Hf by done. reflexivity.
    - unfold file_outcome. rewrite <- (success_agree ms name t0 x).
      apply settle_file_status. }
  assert (Hk1 : ∀ k : nat, k ≠ i → files b1 !! k = files b !! k).
  { intros k Hk. unfold b1, after_settle. simpl.
    by rewrite list_lookup_alter, decide_False. }
  destruct rs as [|y rs'].
  - (* the last file *)
    pose proof (resume_last_updated st1 batchId r i b1 tid (resumed_at x)
                  Hb1 Ht1) as U2.
    exists (set_completedAt (at_end (resumed_at x)) (set_status Completed b1)),
      (S i).
    split.
    { eapply updated_trans; [split_and!; eassumption|].
      apply U2. rewrite Hlen1. simpl in Hlen. lia. }
    split_and!; try done;
      try (unfold b1, after_settle; simpl; rewrite ?success_agree;
           unfold settled_openai, settled_claude, settled_gemini;
           rewrite ?fulfilled_settled; lia).
    + intros j x0 Hx0. destruct j; [|done]. injection Hx0 as <-.
      rewrite Nat.add_0_r. exact Hf1.
    + intros k Hk. apply Hk1. lia.
  - (* a file follows *)
    simpl in Hlen.
    pose proof (resume_delay_updated st1 batchId r i b1 tid (resumed_at x)
                  Hb1 Ht1) as U2.
    set (st2 := resume tid (resumed_at x) st1) in *.
    destruct U2 as (J2 & Hb2 & F2 & Ht2 & T2); [lia|].
    destruct (files b1 !! S i) as [file|] eqn:Hfile;
      [|apply lookup_ge_None in Hfile; lia].
    pose proof (resume_next_updated st2 batchId r i b1 cfg file tid
                  (delayed_at x)) as U3.
    set (st3 := resume tid (delayed_at x) st2) in *.
    destruct U3 as (J3 & Hb3 & F3 & Ht3 & T3); try done; [congruence|].
    set (b3 := after_begin (S i) b1) in *.
    destruct (IH (S i) st3 b3 cfg (models cfg)
                (originalname (originalFile file)) (at_calls (delayed_at x)))
      as (b' & i' & U4 & Hst & Hpe & Hpr & Hco & Hfa & Hop & Hcl & Hge & Hto
          & Hfi & Hfr); try done.
    { congruence. }
    { transitivity (length (files b1)); [|rewrite Hlen1, Hlen; simpl; lia].
      exact (length_alter _ (files b1) (S i)). }
    exists b', i'. split.
    { change (run (drive tid (x :: y :: rs')) st)
        with (run (drive tid (y :: rs')) st3).
      eapply updated_trans; [|exact U4].
      eapply updated_trans; [|split_and!; eassumption].
      eapply updated_trans; split_and!; eassumption. }
    unfold b3, after_begin, b1, after_settle in Hpe, Hpr, Hco, Hfa, Hop, Hcl,
      Hge, Hto.
    cbn [metrics on_metrics set_metrics on_file set_files begin_metrics
           settle_metrics pending processing completed failed openaiComplete
           claudeComplete geminiComplete total length]
      in Hpe, Hpr, Hco, Hfa, Hop, Hcl, Hge, Hto.
    rewrite success_agree in Hco, Hfa.
    unfold settled_openai in Hop. unfold settled_claude in Hcl.
    unfold settled_gemini in Hge.
    rewrite fulfilled_settled in Hop. rewrite fulfilled_settled in Hcl.
    rewrite fulfilled_settled in Hge.
    assert (Hk3 : ∀ k : nat, k ≠ S i → files b3 !! k = files b1 !! k).
    { intros k Hk. unfold b3, after_begin. simpl.
      by rewrite list_lookup_alter, decide_False. }
    change (tally ?f (x :: ?l)) with (b2z (f x) + tally f l).
    cbn [length].
    split_and!; try done; try lia.
    + intros j x0 Hx0. destruct j as [|j].
      * injection Hx0 as <-. rewrite Nat.add_0_r.
        rewrite Hfr, Hk3 by lia. exact Hf1.
      * replace (i + S j)%nat with (S i + j)%nat by lia. by apply Hfi.
    + intros k Hk. rewrite Hfr, Hk3, Hk1 by lia. done.
Qed.

(** An invocation that nothing interleaves with: whatever the state and the
    status of the batch, the call is accepted, the loop goes through every
    file and the batch ends [Completed]. *)
Lemma startProcessing_solo batchId now clock st r b cfg rs :
  jobs_get st batchId = Some (r, b) → jobConfig b = Some cfg →
  length rs = length (files b) →
  (startProcessing batchId now clock st).1 = Spawned (length (tasks st))
  ∧ ∃ b' i',
      updated st
        (run (LStart batchId now clock :: drive (length (tasks st)) rs) st)
        r b' (length (tasks st)) (Build_Task batchId r i' Returned)
      ∧ processed rs b b'.
Proof.
  intros Hget Hcfg Hlen.
  pose proof Hget as Hget'. apply jobs_get_Some in Hget' as [Hj Hb].
  rewrite run_cons. unfold step. unfold startProcessing.
  rewrite Hget, Hcfg. split; [done|]. cbn [snd].
  set (tid := length (tasks st)).
  set (t := Build_Task batchId r 0 AwaitTranscript).
  set (b0 := set_startedAt now (set_status Processing b)).
  set (st2 := spawn t (mutate r (λ b, set_startedAt now
                                        (set_status Processing b)) st)).
  assert (U0 : updated st st2 r b0 tid t).
  { exact (spawn_updated st r
             (λ b, set_startedAt now (set_status Processing b)) b t Hb). }
  pose proof U0 as (J0 & Hb0 & F0 & Ht0 & T0).
  destruct rs as [|x rs].
  - (* no file: the call returns before any await *)
    pose proof (loop_head_done_updated st2 batchId r 0 AwaitTranscript b0 tid t
                  clock Hb0 Ht0) as U1.
    exists (set_completedAt (at_end clock) (set_status Completed b0)), 0%nat.
    split.
    + eapply updated_trans; [exact U0|apply U1].
      unfold b0. simpl. simpl in Hlen. lia.
    + split; simpl; try done; lia.
  - destruct (files b) as [|file fs] eqn:Hfiles; [done|].
    pose proof (loop_head_begin_updated st2 batchId r 0 AwaitTranscript b0 cfg
                  file tid t clock) as U1.
    set (st3 := loop_head tid t clock st2) in *.
    destruct U1 as (J1 & Hb1 & F1 & Ht1 & T1); try done.
    { unfold b0. simpl. by rewrite Hfiles. }
    set (b1 := after_begin 0 b0) in *.
    destruct (drive_spec batchId r tid (x :: rs) 0 st3 b1 cfg (models cfg)
                (originalname (originalFile file)) (at_calls clock))
      as (b' & i' & U2 & Hst & Hpe & Hpr & Hco & Hfa & Hop & Hcl & Hge & Hto
          & Hfi & _); try done.
    { replace (jobs st3) with (jobs st2) by (symmetry; exact J1).
      rewrite J0. done. }
    { transitivity (length (files b)); [|rewrite Hfiles, <- Hlen; done].
      exact (length_alter _ (files b) 0). }
    exists b', i'. split.
    + eapply updated_trans; [|exact U2].
      eapply updated_trans; [exact U0|]. split_and!; eassumption.
    + unfold b1, after_begin, b0 in Hpe, Hpr, Hco, Hfa, Hop, Hcl, Hge, Hto.
      cbn [metrics on_metrics set_metrics on_file set_files begin_metrics
             set_startedAt set_status pending processing completed failed
             openaiComplete claudeComplete geminiComplete total]
        in Hpe, Hpr, Hco, Hfa, Hop, Hcl, Hge, Hto.
      split; try done; lia.
Qed.

(** ** The outcome of a file and of the batch *)

(** C1. When the three calls for a file have settled -- under any
    interleaving with other transitions before -- the file is [FileCompleted]
    and the [completed] counter of the batch is one higher if at least one
    provider answered; otherwise the file is [FileFailed] with the error
    "All models failed to process the transcript" and the [failed] counter
    is one higher.  When the loop has gone past the last file it sets the
    batch [Completed].  And an invocation left to run reaches that point:
    after the replies for all its files the batch is [Completed], with
    [completed] and [failed] raised by the number of files that had, or had
    not, an answering provider -- also when every file failed. *)
Theorem processTranscript_outcome :
  (∀ st tid t r' ms name t0 b file bm o c g now,
     tasks st !! tid = Some t →
     task_phase t = AwaitSettled r' ms name t0 →
     heap st !! task_batch t = Some b → files b !! task_i t = Some file →
     heap st !! r' = Some bm →
     let ok := responded o || responded c || responded g in
     ∃ b' file' bm',
       heap (settle tid o c g now st) !! task_batch t = Some b'
       ∧ files b' !! task_i t = Some file'
       ∧ heap (settle tid o c g now st) !! r' = Some bm'
       ∧ file_status file' = (if ok then FileCompleted else FileFailed)
       ∧ (ok = false →
          error file' = Some "All models failed to process the transcript")
       ∧ completed (metrics bm') = completed (metrics bm) + b2z ok
       ∧ failed (metrics bm') = failed (metrics bm) + b2z (negb ok)
       ∧ processing (metrics bm') = processing (metrics bm) - 1)
  ∧ (∀ st tid t b now,
       tasks st !! tid = Some t → task_phase t = AwaitTranscript →
       heap st !! task_batch t = Some b →
       (length (files b) ≤ S (task_i t))%nat →
       ∃ b', heap (resume tid now st) !! task_batch t = Some b'
             ∧ status b' = Completed)
  ∧ (∀ batchId now clock st r b cfg rs,
       jobs_get st batchId = Some (r, b) → jobConfig b = Some cfg →
       length rs = length (files b) →
       ∃ b', heap (run (LStart batchId now clock
                        :: drive (length (tasks st)) rs) st)
               !! r = Some b'
             ∧ processed rs b b').
Proof.
  split_and!.
  - intros st tid t r' ms name t0 b file bm o c g now Ht Hph Hb Hfile Hbm ok.
    unfold settle. rewrite Ht, Hph. unfold processTranscript_settle.
    set (r0 := settled (openai_result (models_openai ms) name
                          (start_openai t0)) o).
    set (r1 := settled (claude_result (models_claude ms) name
                          (start_claude t0)) c).
    set (r2 := settled (gemini_result (models_gemini ms) name
                          (start_gemini t0)) g).
    assert (Hok : bool_decide (0 < successCount r0 r1 r2)%nat = ok).
    { unfold ok, r0, r1, r2. destruct o, c, g; reflexivity. }
    change (heap (set_task ?i ?x ?s)) with (heap s).
    rewrite !mutate_lookup.
    destruct (settle_file_status r0 r1 r2 now file) as [Hs He].
    rewrite Hok in Hs, He.
    assert (Hf : ∀ b0, files b0 !! task_i t = Some file →
              files (on_file (task_i t) (settle_file r0 r1 r2 now) b0)
                !! task_i t = Some (settle_file r0 r1 r2 now file)).
    { intros b0 Hb0. simpl.
      by rewrite list_lookup_alter, decide_True, Hb0. }
    destruct (decide (r' = task_batch t)) as [E|NE].
    + rewrite E in *. assert (bm = b) as -> by congruence.
      rewrite !decide_True, Hb by done. cbn [fmap option_fmap option_map].
      eexists _, _, _. split; [done|]. split; [by apply Hf|].
      split; [done|]. simpl. rewrite Hok. clear. clearbody ok.
      by destruct ok.
    + rewrite !decide_True by done.
      rewrite (decide_False (P := task_batch t = r')) by done.
      rewrite Hb, Hbm. cbn [fmap option_fmap option_map].
      eexists _, _, _. split; [done|]. split; [by apply Hf|].
      split; [done|]. simpl. rewrite Hok. clear. clearbody ok.
      by destruct ok.
  - intros st tid t b now Ht Hph Hb Hlen.
    destruct t as [batchId r i ph]. simpl in Hph, Hb, Hlen. subst ph.
    destruct (resume_last_updated st batchId r i b tid now Hb Ht Hlen)
      as (_ & Hb' & _).
    eexists. split; [exact Hb'|done].
  - intros batchId now clock st r b cfg rs Hget Hcfg Hlen.
    destruct (startProcessing_solo batchId now clock st r b cfg rs Hget Hcfg Hlen)
      as (_ & b' & i' & (_ & Hb' & _) & Hpr).
    by exists b'.
Qed.

Lemma processTranscript_outcome_witness :
  ∃ b', heap (run (LStart "b1" 11 (clock_at 12) :: drive 0 [unanswered])
                demo_created)
          !! 0%nat = Some b'
        ∧ status b' = Completed
        ∧ failed (metrics b') = 1
        ∧ ∃ f', files b' !! 0%nat = Some f' ∧ file_status f' = FileFailed.
Proof.
  destruct processTranscript_outcome as (_ & _ & H).
  destruct (H "b1" 11 (clock_at 12) demo_created 0%nat
              (new_batch "b1" [demo_upload "a.txt"] demo_config 10)
              demo_config [unanswered])
    as (b' & Hb' & Hpr);
    [vm_compute; reflexivity | reflexivity | reflexivity |].
  exists b'. split; [exact Hb'|].
  destruct Hpr as [Hs _ _ _ Hf _ _ _ _ Hfiles].
  split; [exact Hs|]. split; [rewrite Hf; vm_compute; reflexivity|].
  destruct (Hfiles 0%nat unanswered eq_refl) as (f' & Hf' & Hst & _).
  exists f'. split; [exact Hf'|exact Hst].
Defined.

(** ** startProcessing has no precondition on the status *)

Lemma startProcessing_unfold batchId now clock st r b cfg :
  jobs_get st batchId = Some (r, b) → jobConfig b = Some cfg →
  startProcessing batchId now clock st =
    (Spawned (length (tasks st)),
     loop_head (length (tasks st)) (Build_Task batchId r 0 AwaitTranscript) clock
       (spawn (Build_Task batchId r 0 AwaitTranscript)
          (mutate r (λ b, set_startedAt now (set_status Processing b)) st))).
Proof. intros Hget Hcfg. unfold startProcessing. by rewrite Hget, Hcfg. Qed.

(** C10. For a registered batch with a job configuration the call is
    accepted whatever the status of the batch, [Completed], [Failed] and
    [Cancelled] included.  If the batch has a file, the call leaves the
    batch [Processing] with the first file begun ([pending] one lower,
    [processing] one higher); left to run, the invocation goes through every
    file again: [pending] drops by the number of files and the provider
    counters rise by the number of answers, so that [pending] is negative
    as soon as it was below the file count before the call. *)
Theorem startProcessing_unguarded
    (batchId : string) (now : Z) (clock : Clock) (st : State) (r : nat)
    (b : BatchJob) (cfg : JobConfig) :
  jobs_get st batchId = Some (r, b) → jobConfig b = Some cfg →
  (startProcessing batchId now clock st).1 = Spawned (length (tasks st))
  ∧ (∀ file, files b !! 0%nat = Some file →
       ∃ b1, heap (startProcessing batchId now clock st).2 !! r = Some b1
             ∧ status b1 = Processing ∧ startedAt b1 = Some now
             ∧ pending (metrics b1) = pending (metrics b) - 1
             ∧ processing (metrics b1) = processing (metrics b) + 1
             ∧ tasks (startProcessing batchId now clock st).2 !! length (tasks st)
               = Some (Build_Task batchId r 0
                         (AwaitSettled r (models cfg)
                            (originalname (originalFile file))
                            (at_calls clock))))
  ∧ (∀ rs, length rs = length (files b) →
       ∃ b', heap (run (LStart batchId now clock
                        :: drive (length (tasks st)) rs) st)
               !! r = Some b'
             ∧ processed rs b b'
             ∧ (pending (metrics b) < Z.of_nat (length (files b)) →
                pending (metrics b') < 0)).
Proof.
  intros Hget Hcfg. pose proof Hget as Hget'.
  apply jobs_get_Some in Hget' as [Hj Hb].
  rewrite (startProcessing_unfold batchId now clock st r b cfg Hget Hcfg).
  split_and!; [done| |].
  - intros file Hfile. cbn [snd].
    set (t := Build_Task batchId r 0 AwaitTranscript).
    pose proof (spawn_updated st r
                  (λ b, set_startedAt now (set_status Processing b)) b t Hb)
      as (J0 & Hb0 & _ & Ht0 & _).
    destruct (loop_head_begin_updated _ batchId r 0 AwaitTranscript _ cfg file
                (length (tasks st)) t clock ltac:(by rewrite J0) Hb0 Hcfg Ht0
                Hfile) as (_ & Hb1 & _ & Ht1 & _).
    eexists. split; [exact Hb1|]. split_and!; try done.
  - intros rs Hlen.
    destruct (startProcessing_solo batchId now clock st r b cfg rs Hget Hcfg Hlen)
      as (_ & b' & i' & (_ & Hb' & _) & Hpr).
    exists b'. split_and!; try done.
    destruct Hpr. lia.
Qed.

Lemma startProcessing_unguarded_witness :
  ∃ b, jobs_get demo_completed "b1" = Some (0%nat, b)
       ∧ status b = Completed
       ∧ (startProcessing "b1" 40 (clock_at 41) demo_completed).1 = Spawned 1
       ∧ ∃ b', heap (run (LStart "b1" 40 (clock_at 41) :: drive 1 [answered])
                       demo_completed)
                 !! 0%nat = Some b'
               ∧ pending (metrics b') < 0.
Proof.
  eexists. split; [vm_compute; reflexivity|]. split; [reflexivity|].
  edestruct (startProcessing_unguarded "b1" 40 (clock_at 41) demo_completed 0)
    as (H1 & _ & H3); [vm_compute; reflexivity | reflexivity |].
  split; [exact H1|].
  destruct (H3 [answered] eq_refl) as (b' & Hb' & _ & Hneg).
  exists b'. split; [exact Hb'|]. apply Hneg. vm_compute. reflexivity.
Defined.

(** ** Disciplined use: the invariant *)

Lemma Inv_initial : Inv initial.
Proof. split; intros *; simpl; try done. Qed.

Lemma status_move_refl s : status_move s s.
Proof. by left. Qed.

(** A transition of the invocation [tid], the only live one on the batch
    object [r], keeps the invariant when the new object and the new
    suspension point fit together. *)
Lemma Inv_updated st st' r b b' tid t' :
  Inv st → updated st st' r b' tid t' → heap st !! r = Some b →
  batch_id b' = batch_id b → batch_ok b' →
  task_batch t' = r →
  (live t' →
     batch_id b' = task_batchId t' ∧ status b' ≠ Created
     ∧ status b' ≠ Completed ∧ phase_ok (task_phase t') r (task_i t') b') →
  (∀ tid0 t0, tasks st !! tid0 = Some t0 → tid0 ≠ tid → live t0 →
     task_batch t0 ≠ r) →
  status_move (status b) (status b') →
  Inv st' ∧ moves st st'.
Proof.
  intros [IB IT IO II IJ] (J & Hb' & Hframe & Ht' & Tframe) Hb Hid Hok Hr Hlive
    Hothers Hmove.
  assert (Hheap : ∀ r0 b0', heap st' !! r0 = Some b0' →
            ∃ b0, heap st !! r0 = Some b0 ∧ batch_id b0' = batch_id b0
                  ∧ (r0 = r → b0' = b' ∧ b0 = b)
                  ∧ (r0 ≠ r → b0' = b0)).
  { intros r0 b0' H0. destruct (decide (r0 = r)) as [->|Hne].
    - exists b. rewrite Hb' in H0. injection H0 as <-. done.
    - rewrite Hframe in H0 by done. exists b0'. done. }
  split; [split|].
  - intros r0 b0' H0. destruct (Hheap _ _ H0) as (b0 & H0' & _ & Heq & Hne).
    destruct (decide (r0 = r)) as [E|NE].
    + by destruct (Heq E) as [-> _].
    + rewrite (Hne NE). by eapply IB.
  - intros tid0 t0 H0. destruct (decide (tid0 = tid)) as [->|Hne].
    + rewrite Ht' in H0. injection H0 as <-. intros Hl.
      exists b'. rewrite Hr. split; [done|]. by apply Hlive.
    + rewrite Tframe in H0 by done. intros Hl.
      destruct (IT _ _ H0 Hl) as (b0 & Hb0 & Hrest).
      exists b0. split; [|done].
      rewrite Hframe; [done|]. by eapply Hothers.
  - intros tid1 tid2 t1 t2 H1 H2 L1 L2 E.
    destruct (decide (tid1 = tid)) as [->|N1];
      destruct (decide (tid2 = tid)) as [->|N2]; try done.
    + rewrite Ht' in H1. injection H1 as <-.
      rewrite Tframe in H2 by done.
      destruct (Hothers _ _ H2 N2 L2). congruence.
    + rewrite Ht' in H2. injection H2 as <-.
      rewrite Tframe in H1 by done.
      destruct (Hothers _ _ H1 N1 L1). congruence.
    + rewrite Tframe in H1, H2 by done. by eapply IO.
  - intros r1 r2 b1 b2 H1 H2 E.
    destruct (Hheap _ _ H1) as (b1' & H1' & E1 & _).
    destruct (Hheap _ _ H2) as (b2' & H2' & E2 & _).
    eapply II; [exact H1'|exact H2'|congruence].
  - intros batchId r0 Hj. rewrite J in Hj.
    destruct (IJ _ _ Hj) as (b0 & Hb0 & Hid0).
    destruct (decide (r0 = r)) as [->|Hne].
    + exists b'. split; [done|]. congruence.
    + exists b0. by rewrite Hframe.
  - intros r0 b0 b0' H0 H0'.
    destruct (Hheap _ _ H0') as (b1 & H1 & _ & Heq & Hne).
    assert (b1 = b0) as -> by congruence.
    destruct (decide (r0 = r)) as [E|NE].
    + destruct (Heq E) as [-> ->]. done.
    + rewrite (Hne NE). apply status_move_refl.
Qed.

Lemma Inv_others st tid t :
  Inv st → tasks st !! tid = Some t → live t →
  ∀ tid0 t0, tasks st !! tid0 = Some t0 → tid0 ≠ tid → live t0 →
    task_batch t0 ≠ task_batch t.
Proof.
  intros HI Ht Hl tid0 t0 H0 Hne Hl0 E.
  apply Hne. by eapply (inv_owner st HI).
Qed.

Lemma fulfilled_le_success r0 r1 r2 :
  b2z (fulfilled r0) ≤ b2z (bool_decide (0 < successCount r0 r1 r2)%nat)
  ∧ b2z (fulfilled r1) ≤ b2z (bool_decide (0 < successCount r0 r1 r2)%nat)
  ∧ b2z (fulfilled r2) ≤ b2z (bool_decide (0 < successCount r0 r1 r2)%nat).
Proof. destruct r0, r1, r2; vm_compute; split_and!; congruence. Qed.

Lemma batch_ok_settle r0 r1 r2 now i b :
  batch_ok b → status b ≠ Created → processing (metrics b) = 1 →
  batch_ok (on_metrics (settle_metrics r0 r1 r2)
              (on_file i (settle_file r0 r1 r2 now) b)).
Proof.
  intros (Htot & Hbal & Hpe & Hpr & Hfa & Hop & Hcl & Hge & Hcr) Hs Hp.
  unfold batch_ok, balanced, metrics_sum in *. simpl.
  rewrite length_alter.
  pose proof (fulfilled_le_success r0 r1 r2) as (L0 & L1 & L2).
  pose proof (b2z_nonneg (fulfilled r0)). pose proof (b2z_nonneg (fulfilled r1)).
  pose proof (b2z_nonneg (fulfilled r2)).
  pose proof (b2z_negb (bool_decide (0 < successCount r0 r1 r2)%nat)).
  pose proof (b2z_nonneg (negb (bool_decide (0 < successCount r0 r1 r2)%nat))).
  split_and!; try lia. done.
Qed.

Lemma batch_ok_begin i b :
  batch_ok b → 1 ≤ pending (metrics b) → status b ≠ Created →
  batch_ok (after_begin i b).
Proof.
  intros (Htot & Hbal & Hpe & Hpr & Hfa & Hop & Hcl & Hge & Hcr) Hp Hs.
  unfold batch_ok, balanced, metrics_sum in *. simpl.
  rewrite length_alter. split_and!; try lia. done.
Qed.

Lemma batch_ok_status s b :
  batch_ok b → s ≠ Created → batch_ok (set_status s b).
Proof.
  intros (Htot & Hbal & Hpe & Hpr & Hfa & Hop & Hcl & Hge & Hcr) Hs.
  unfold batch_ok, balanced, metrics_sum in *. simpl.
  split_and!; try lia. done.
Qed.

Lemma batch_ok_completedAt now b : batch_ok b → batch_ok (set_completedAt now b).
Proof. done. Qed.

Lemma batch_ok_startedAt now b : batch_ok b → batch_ok (set_startedAt now b).
Proof. done. Qed.

Lemma moves_same st st' : heap st' = heap st → moves st st'.
Proof.
  intros E r b b' H1 H2. rewrite E in H2.
  assert (b' = b) as -> by congruence. apply status_move_refl.
Qed.

Lemma loop_head_skip_updated st batchId r i ph b file tid t now :
  heap st !! r = Some b → tasks st !! tid = Some t →
  files b !! i = Some file →
  (jobs_get st batchId = None
   ∨ ∃ r' b', jobs_get st batchId = Some (r', b') ∧ jobConfig b' = None) →
  updated st (loop_head tid (Build_Task batchId r i ph) now st)
    r b tid (Build_Task batchId r i AwaitTranscript).
Proof.
  intros Hb Ht Hfile Hskip. unfold loop_head.
  cbn [task_phase task_batch task_i task_batchId].
  rewrite Hb, Hfile. unfold processTranscript_begin.
  destruct Hskip as [->|(r' & b' & -> & ->)]; by eapply updated_task.
Qed.

Lemma Inv_settle st tid o c g now :
  Inv st → Inv (settle tid o c g now st) ∧ moves st (settle tid o c g now st).
Proof.
  intros HI.
  destruct (tasks st !! tid) as [t|] eqn:Ht;
    [|unfold settle; rewrite Ht; split; [done|by apply moves_same]].
  destruct t as [batchId r i ph].
  destruct ph as [r' ms name t0| | |];
    try (unfold settle; rewrite Ht; split; [done|by apply moves_same]).
  destruct (inv_task st HI _ _ Ht) as (b & Hb & Hid & Hs1 & Hs2 & Hph);
    [done|].
  simpl in Hb, Hid, Hph. destruct Hph as (-> & Hi & Hpr & Hpe).
  pose proof (settle_updated st batchId r i ms name t0 b tid
                {| reply_openai := o; reply_claude := c; reply_gemini := g;
                   settled_at := now; resumed_at := clock_at 0;
                     delayed_at := clock_at 0 |} Hb Ht) as U.
  cbn [reply_openai reply_claude reply_gemini settled_at] in U.
  eapply (Inv_updated st _ r b _ tid _ HI U Hb); try done.
  - apply batch_ok_settle; [by eapply (inv_batch st HI)|done|done].
  - intros _. split_and!; try done. simpl. rewrite length_alter.
    split_and!; [done|lia|done].
  - apply (Inv_others st tid _ HI Ht). done.
  - apply status_move_refl.
Qed.

Lemma updated_refl st r b tid t :
  heap st !! r = Some b → tasks st !! tid = Some t → updated st st r b tid t.
Proof. intros. split_and!; done. Qed.

(** The three ways the head of the loop goes on. *)
Lemma loop_head_cases st batchId r i ph b tid t now :
  heap st !! r = Some b → tasks st !! tid = Some t →
  (∀ r' b', jobs_get st batchId = Some (r', b') → r' = r) →
  ((length (files b) ≤ i)%nat
   ∧ updated st (loop_head tid (Build_Task batchId r i ph) now st)
       r (set_completedAt (at_end now) (set_status Completed b))
       tid (Build_Task batchId r i Returned))
  ∨ ((i < length (files b))%nat
     ∧ updated st (loop_head tid (Build_Task batchId r i ph) now st)
         r b tid (Build_Task batchId r i AwaitTranscript))
  ∨ (∃ cfg file,
       (i < length (files b))%nat
       ∧ updated st (loop_head tid (Build_Task batchId r i ph) now st)
           r (after_begin i b)
           tid (Build_Task batchId r i
                  (AwaitSettled r (models cfg)
                     (originalname (originalFile file)) (at_calls now)))).
Proof.
  intros Hb Ht Hsame.
  destruct (files b !! i) as [file|] eqn:Hfile.
  - pose proof (lookup_lt_Some _ _ _ Hfile) as Hi. right.
    destruct (jobs_get st batchId) as [[r' b']|] eqn:Hget.
    + pose proof (Hsame _ _ eq_refl) as ->.
      pose proof Hget as Hget'. apply jobs_get_Some in Hget' as [Hj Hb'].
      assert (b' = b) as -> by congruence.
      destruct (jobConfig b) as [cfg|] eqn:Hcfg.
      * right. exists cfg, file. split; [done|].
        by eapply loop_head_begin_updated.
      * left. split; [done|].
        eapply loop_head_skip_updated; try done. right. by exists r, b.
    + left. split; [done|].
      eapply loop_head_skip_updated; try done. by left.
  - apply lookup_ge_None in Hfile. left. split; [done|].
    by eapply loop_head_done_updated.
Qed.

Lemma Inv_loop_head st0 st batchId r i ph b0 b tid t now :
  Inv st0 → heap st0 !! r = Some b0 → updated st0 st r b tid t →
  (∀ tid0 t0, tasks st0 !! tid0 = Some t0 → tid0 ≠ tid → live t0 →
     task_batch t0 ≠ r) →
  batch_id b = batch_id b0 → batch_id b = batchId →
  batch_ok b → status b ≠ Created → status b ≠ Completed →
  status b0 ≠ Completed →
  processing (metrics b) = 0 →
  Z.of_nat (length (files b)) - Z.of_nat i ≤ pending (metrics b) →
  status_move (status b0) (status b) →
  Inv (loop_head tid (Build_Task batchId r i ph) now st)
  ∧ moves st0 (loop_head tid (Build_Task batchId r i ph) now st).
Proof.
  intros HI Hb0 U0 Hothers Hid0 Hid Hok Hs1 Hs2 Hs0 Hpr Hpe Hmove.
  pose proof U0 as (J0 & Hb & _ & Ht & _).
  assert (Hsame : ∀ r' b', jobs_get st batchId = Some (r', b') → r' = r).
  { intros r' b' Hget. apply jobs_get_Some in Hget as [Hj Hb'].
    rewrite J0 in Hj. destruct (inv_jobs st0 HI _ _ Hj) as (b1 & Hb1 & Hid1).
    eapply (inv_ids st0 HI); [exact Hb1|exact Hb0|congruence]. }
  destruct (loop_head_cases st batchId r i ph b tid t now Hb Ht Hsame)
    as [[Hi U]|[[Hi U]|(cfg & file & Hi & U)]].
  - eapply (Inv_updated st0 _ r b0 _ tid _ HI (updated_trans _ _ _ _ _ _ _ _ _
              U0 U) Hb0); try done.
    + apply batch_ok_completedAt, batch_ok_status; done.
    + destruct (decide (status b0 = Created)) as [E|NE].
      * right; left. split; [done|]. by right.
      * right; right; right. done.
  - eapply (Inv_updated st0 _ r b0 _ tid _ HI (updated_trans _ _ _ _ _ _ _ _ _
              U0 U) Hb0); try done.
    intros _. split_and!; try done. simpl. split_and!; [done|done|lia].
  - eapply (Inv_updated st0 _ r b0 _ tid _ HI (updated_trans _ _ _ _ _ _ _ _ _
              U0 U) Hb0); try done.
    + apply batch_ok_begin; [done|lia|done].
    + intros _. split_and!; try done. simpl. rewrite length_alter.
      split_and!; [done|done|lia|lia].
Qed.

Lemma Inv_resume st tid now :
  Inv st → Inv (resume tid now st) ∧ moves st (resume tid now st).
Proof.
  intros HI.
  destruct (tasks st !! tid) as [t|] eqn:Ht;
    [|unfold resume; rewrite Ht; split; [done|by apply moves_same]].
  destruct t as [batchId r i ph].
  destruct ph as [r' ms name t0| | |];
    try (unfold resume; rewrite Ht; split; [done|by apply moves_same]).
  - (* after [processTranscript] *)
    destruct (inv_task st HI _ _ Ht) as (b & Hb & Hid & Hs1 & Hs2 & Hph);
      [done|].
    simpl in Hb, Hid, Hph. destruct Hph as (Hi & Hpr & Hpe).
    pose proof (Inv_others st tid _ HI Ht ltac:(done)) as Hothers.
    unfold resume. rewrite Ht. cbn [task_phase task_batch task_i]. rewrite Hb.
    case_bool_decide as Hlast.
    + eapply (Inv_updated st _ r b b tid _ HI
                (updated_task st r b tid _ _ Hb Ht) Hb); try done.
      * by eapply (inv_batch st HI).
      * intros _. split_and!; try done. simpl. split_and!; [lia|done|done].
      * apply status_move_refl.
    + eapply (Inv_loop_head st st batchId r (S i) AwaitTranscript b b tid _ now
                HI Hb (updated_refl st r b tid _ Hb Ht)); try done.
      * by eapply (inv_batch st HI).
      * lia.
      * apply status_move_refl.
  - (* after the timer *)
    destruct (inv_task st HI _ _ Ht) as (b & Hb & Hid & Hs1 & Hs2 & Hph);
      [done|].
    simpl in Hb, Hid, Hph. destruct Hph as (Hi & Hpr & Hpe).
    pose proof (Inv_others st tid _ HI Ht ltac:(done)) as Hothers.
    unfold resume. rewrite Ht. cbn [task_phase task_batch task_i].
    eapply (Inv_loop_head st st batchId r (S i) AwaitDelay b b tid _ now
              HI Hb (updated_refl st r b tid _ Hb Ht)); try done.
    + by eapply (inv_batch st HI).
    + lia.
    + apply status_move_refl.
Qed.

Lemma Inv_start st batchId now clock :
  Inv st → permitted (LStart batchId now clock) st = true →
  Inv (startProcessing batchId now clock st).2
  ∧ moves st (startProcessing batchId now clock st).2.
Proof.
  intros HI Hperm. unfold permitted in Hperm.
  destruct (jobs_get st batchId) as [[r b]|] eqn:Hget;
    [|unfold startProcessing; rewrite Hget; split; [done|by apply moves_same]].
  apply bool_decide_eq_true in Hperm.
  destruct (jobConfig b) as [cfg|] eqn:Hcfg;
    [|unfold startProcessing; rewrite Hget, Hcfg;
      split; [done|by apply moves_same]].
  rewrite (startProcessing_unfold batchId now clock st r b cfg Hget Hcfg).
  cbn [snd].
  apply jobs_get_Some in Hget as [Hj Hb].
  destruct (inv_batch st HI _ _ Hb)
    as (Htot & Hbal & Hpe & Hpr & Hfa & Hop & Hcl & Hge & Hcr).
  destruct (Hcr Hperm) as [Hpe' Hpr'].
  destruct (inv_jobs st HI _ _ Hj) as (b1 & Hb1 & Hid1).
  assert (b1 = b) as -> by congruence.
  eapply (Inv_loop_head st _ batchId r 0 AwaitTranscript b
            (set_startedAt now (set_status Processing b))
            (length (tasks st)) _ clock HI Hb
            (spawn_updated st r
               (λ b, set_startedAt now (set_status Processing b)) b _ Hb));
    try done.
  - intros tid0 t0 Ht0 _ Hl0 E.
    destruct (inv_task st HI _ _ Ht0 Hl0) as (b0 & Hb0 & _ & Hs & _).
    rewrite E in Hb0. congruence.
  - congruence.
  - simpl. lia.
  - right; left. split; [done|]. by left.
Qed.

Lemma Inv_cancel st batchId :
  Inv st → Inv (cancelBatch batchId st).2 ∧ moves st (cancelBatch batchId st).2.
Proof.
  intros HI. unfold cancelBatch.
  destruct (jobs_get st batchId) as [[r b]|] eqn:Hget;
    [|split; [done|by apply moves_same]].
  destruct (bool_decide (status b = Completed)) eqn:H1;
    [split; [done|by apply moves_same]|].
  destruct (bool_decide (status b = Cancelled)) eqn:H2;
    [split; [done|by apply moves_same]|].
  apply bool_decide_eq_false in H1, H2. cbn [orb snd].
  apply jobs_get_Some in Hget as [Hj Hb].
  destruct HI as [IB IT IO II IJ].
  assert (Hheap : ∀ r0 b0', heap (mutate r (set_status Cancelled) st) !! r0
                              = Some b0' →
            ∃ b0, heap st !! r0 = Some b0
                  ∧ (b0' = b0 ∨ (r0 = r ∧ b0' = set_status Cancelled b0))).
  { intros r0 b0'. rewrite mutate_lookup. case_decide as E.
    - subst r0. rewrite Hb. simpl. intros [= <-]. exists b. split; [done|].
      by right.
    - intros H0. exists b0'. split; [done|]. by left. }
  split; [split|].
  - intros r0 b0' H0. destruct (Hheap _ _ H0) as (b0 & Hb0 & [->|[-> ->]]).
    + by eapply IB.
    + apply batch_ok_status; [by eapply IB|done].
  - intros tid t Ht Hl. destruct (IT _ _ Ht Hl) as (b0 & Hb0 & Hid & Hs1 & Hs2 & Hph).
    cbn [heap mutate]. rewrite list_lookup_alter. case_decide as E.
    + rewrite E, Hb0. exists (set_status Cancelled b0). done.
    + exists b0. done.
  - exact IO.
  - intros r1 r2 b1' b2' H1' H2' E.
    destruct (Hheap _ _ H1') as (b1 & Hb1 & Hc1).
    destruct (Hheap _ _ H2') as (b2 & Hb2 & Hc2).
    eapply II; [exact Hb1|exact Hb2|].
    destruct Hc1 as [->|[_ ->]], Hc2 as [->|[_ ->]]; exact E.
  - intros id r0 Hj0. destruct (IJ _ _ Hj0) as (b0 & Hb0 & Hid).
    cbn [heap mutate]. rewrite list_lookup_alter. case_decide as E.
    + rewrite E, Hb0. exists (set_status Cancelled b0). done.
    + exists b0. done.
  - intros r0 b0 b0' H0 H0'.
    destruct (Hheap _ _ H0') as (b1 & Hb1 & Hc).
    assert (b1 = b0) as -> by congruence.
    destruct Hc as [->|[-> ->]]; [apply status_move_refl|].
    assert (b0 = b) as -> by congruence.
    right; right; left. done.
Qed.

Lemma Inv_delete st batchId :
  Inv st → Inv (deleteBatch batchId st).2 ∧ moves st (deleteBatch batchId st).2.
Proof.
  intros HI. unfold deleteBatch.
  destruct (jobs_get st batchId) as [[r b]|] eqn:Hget;
    [|split; [done|by apply moves_same]].
  destruct (bool_decide (status b = Processing));
    [split; [done|by apply moves_same]|].
  cbn [snd]. split; [|by apply moves_same].
  destruct HI as [IB IT IO II IJ]. split; try done.
  intros id r0. simpl. intros Hj. apply lookup_delete_Some in Hj as [_ Hj].
  by eapply IJ.
Qed.

Lemma batch_ok_new batchId ups cfg now : batch_ok (new_batch batchId ups cfg now).
Proof.
  unfold batch_ok, balanced, metrics_sum. simpl. split_and!; try lia; done.
Qed.

Lemma Inv_create st ups cfg batchId now :
  Inv st → permitted (LCreate ups cfg batchId now) st = true →
  Inv (createBatch ups cfg batchId now st).2
  ∧ moves st (createBatch ups cfg batchId now st).2.
Proof.
  intros [IB IT IO II IJ] Hperm. apply bool_decide_eq_true in Hperm.
  rewrite Forall_forall in Hperm.
  unfold createBatch. cbn [snd]. split; [split|]; cbn [heap jobs tasks].
  - intros r b Hb. apply lookup_app_Some in Hb as [Hb|[_ Hb]].
    + by eapply IB.
    + apply list_lookup_singleton_Some in Hb as [_ <-]. apply batch_ok_new.
  - intros tid t Ht Hl. destruct (IT _ _ Ht Hl) as (b0 & Hb0 & Hrest).
    exists b0. split; [|done]. apply lookup_app_l_Some. done.
  - exact IO.
  - intros r1 r2 b1 b2 H1 H2 E.
    apply lookup_app_Some in H1 as [H1|[L1 H1]];
      apply lookup_app_Some in H2 as [H2|[L2 H2]].
    + by eapply II.
    + apply list_lookup_singleton_Some in H2 as [_ <-]. simpl in E.
      apply list_elem_of_lookup_2 in H1. by destruct (Hperm _ H1).
    + apply list_lookup_singleton_Some in H1 as [_ <-]. simpl in E.
      apply list_elem_of_lookup_2 in H2. by destruct (Hperm _ H2).
    + apply list_lookup_singleton_Some in H1 as [H1 _].
      apply list_lookup_singleton_Some in H2 as [H2 _]. lia.
  - intros id r Hj. destruct (decide (batchId = id)) as [->|Hne].
    + rewrite lookup_insert_eq in Hj. injection Hj as <-.
      exists (new_batch id ups cfg now). split; [|done].
      apply list_lookup_middle. done.
    + rewrite lookup_insert_ne in Hj by done.
      destruct (IJ _ _ Hj) as (b & Hb & Hid). exists b. split; [|done].
      by apply lookup_app_l_Some.
  - intros r b b' H1 H2. cbn [heap] in H2.
    rewrite (lookup_app_l_Some _ _ _ _ H1) in H2.
    assert (b' = b) as -> by congruence. apply status_move_refl.
Qed.

(** Every permitted transition keeps the invariant and moves the status of
    every batch in one of the ways of [status_move]. *)
Lemma Inv_step l st :
  Inv st → permitted l st = true → Inv (step l st) ∧ moves st (step l st).
Proof.
  intros HI Hperm. destruct l; simpl.
  - by apply Inv_create.
  - by apply Inv_start.
  - by apply Inv_settle.
  - by apply Inv_resume.
  - by apply Inv_cancel.
  - by apply Inv_delete.
Qed.

Lemma disciplined_snoc ls l st :
  disciplined (ls ++ [l]) st = disciplined ls st && permitted l (run ls st).
Proof.
  revert st. induction ls as [|l0 ls IH]; intros st; simpl.
  - by rewrite andb_true_r.
  - rewrite IH. by rewrite andb_assoc.
Qed.

Lemma Inv_run ls : disciplined ls initial = true → Inv (run ls initial).
Proof.
  induction ls as [|l ls IH] using rev_ind; intros Hd.
  - apply Inv_initial.
  - rewrite disciplined_snoc in Hd. apply andb_true_iff in Hd as [Hd Hp].
    rewrite run_snoc. by apply Inv_step; [apply IH|].
Qed.

(** ** The status of a batch over time *)

(** C3, as stated, fails: a batch cancelled while its loop is running is
    [Cancelled], a terminal status, and becomes [Completed] when the loop
    ends; and a [Completed] batch that is started again is [Processing] a
    second time. *)
Lemma terminal_status_overwritten :
  let before_end :=
    run [LSettle 0 (reply_openai answered) (reply_claude answered)
           (reply_gemini answered) 23] demo_cancelled in
  status <$> heap before_end !! 0%nat = Some Cancelled
  ∧ terminal Cancelled = true
  ∧ status <$> heap (step (LResume 0 (clock_at 24)) before_end) !! 0%nat = Some Completed
  ∧ status <$> heap demo_completed !! 0%nat = Some Completed
  ∧ status <$> heap (step (LStart "b1" 40 (clock_at 41)) demo_completed) !! 0%nat
    = Some Processing.
Proof. vm_compute. done. Qed.

(** C3, amended.  When [startProcessing] is only invoked on batches that are
    still [Created] and batch ids are never reused, then in every reachable
    state and for every transition: a batch becomes [Processing] only from
    [Created], and no batch ever becomes [Created] again, so it is set
    [Processing] at most once; a [Completed] batch keeps its status for
    good; and a [Cancelled] batch either stays [Cancelled] or becomes
    [Completed], which happens when its loop, still running, ends. *)
Theorem status_transitions_disciplined
    (ls : list Label) (l : Label) (r : nat) (b b' : BatchJob) :
  disciplined (ls ++ [l]) initial = true →
  heap (run ls initial) !! r = Some b →
  heap (run (ls ++ [l]) initial) !! r = Some b' →
  (status b' = Processing → status b = Processing ∨ status b = Created)
  ∧ (status b' = Created → status b = Created)
  ∧ (status b = Completed → status b' = Completed)
  ∧ (status b = Cancelled → status b' = Cancelled ∨ status b' = Completed).
Proof.
  intros Hd Hb Hb'. rewrite disciplined_snoc in Hd.
  apply andb_true_iff in Hd as [Hd Hp]. rewrite run_snoc in Hb'.
  destruct (Inv_step l _ (Inv_run ls Hd) Hp) as [_ Hmoves].
  specialize (Hmoves r b b' Hb Hb').
  destruct Hmoves as [E|[[E [E'|E']]|[(N1 & N2 & E')|(N1 & N2 & E')]]];
    rewrite ?E, ?E'; split_and!; intros; try congruence; auto.
Qed.

Lemma status_transitions_disciplined_witness :
  let ls := [LCreate [demo_upload "a.txt"] demo_config "b1" 10; LStart "b1" 11 (clock_at 12);
             LCancel "b1";
             LSettle 0 (reply_openai answered) (reply_claude answered)
               (reply_gemini answered) 23] in
  ∃ b b', heap (run ls initial) !! 0%nat = Some b
          ∧ heap (run (ls ++ [LResume 0 (clock_at 24)]) initial) !! 0%nat = Some b'
          ∧ status b = Cancelled
          ∧ (status b' = Cancelled ∨ status b' = Completed).
Proof.
  intros ls. eexists _, _.
  split; [vm_compute; reflexivity|]. split; [vm_compute; reflexivity|].
  split; [reflexivity|].
  eapply (status_transitions_disciplined ls (LResume 0 (clock_at 24)) 0%nat);
    [vm_compute; reflexivity | vm_compute; reflexivity
    | vm_compute; reflexivity | reflexivity].
Defined.

(** ** The provider counters *)

(** C4, as stated, fails: after a second invocation of [startProcessing] on
    the one-file batch of the scenario the OpenAI counter is 2, above the
    total of 1. *)
Lemma provider_counter_exceeds_total :
  (λ b, (openaiComplete (metrics b), total (metrics b)))
    <$> heap (run (LStart "b1" 40 (clock_at 41) :: drive 1 [answered]) demo_completed) !! 0%nat
  = Some (2, 1).
Proof. vm_compute. reflexivity. Qed.

(** C4, amended.  No transition, from any state, decreases a provider
    counter of any batch.  And when [startProcessing] is only invoked on
    batches that are still [Created] and batch ids are never reused, every
    provider counter stays between 0 and the [completed] counter, hence at
    most [total]. *)
Theorem provider_counters_disciplined :
  (∀ l st r b, heap st !! r = Some b →
     ∃ b', heap (step l st) !! r = Some b'
           ∧ openaiComplete (metrics b) ≤ openaiComplete (metrics b')
           ∧ claudeComplete (metrics b) ≤ claudeComplete (metrics b')
           ∧ geminiComplete (metrics b) ≤ geminiComplete (metrics b'))
  ∧ (∀ ls r b, disciplined ls initial = true →
       heap (run ls initial) !! r = Some b →
       0 ≤ openaiComplete (metrics b) ≤ completed (metrics b)
       ∧ 0 ≤ claudeComplete (metrics b) ≤ completed (metrics b)
       ∧ 0 ≤ geminiComplete (metrics b) ≤ completed (metrics b)
       ∧ completed (metrics b) ≤ total (metrics b)).
Proof.
  split.
  - intros l st r b Hb.
    destruct (step_object_forward l st r b Hb) as (b' & Hb' & []).
    exists b'. done.
  - intros ls r b Hd Hb.
    destruct (inv_batch _ (Inv_run ls Hd) _ _ Hb)
      as (Htot & Hbal & Hpe & Hpr & Hfa & Hop & Hcl & Hge & _).
    unfold balanced, metrics_sum in Hbal. split_and!; lia.
Qed.

Lemma provider_counters_disciplined_witness :
  ∃ b, heap demo_completed !! 0%nat = Some b
       ∧ 0 ≤ openaiComplete (metrics b) ≤ completed (metrics b)
       ∧ completed (metrics b) ≤ total (metrics b).
Proof.
  eexists. split; [vm_compute; reflexivity|].
  destruct provider_counters_disciplined as [_ H].
  destruct (H ([LCreate [demo_upload "a.txt"] demo_config "b1" 10;
                LStart "b1" 11 (clock_at 12)] ++ drive 0 [answered])%list 0%nat
              _ ltac:(vm_compute; reflexivity) ltac:(vm_compute; reflexivity))
    as (H1 & _ & _ & H2).
  split; [exact H1|exact H2].
Defined.

(** ** Provider calls and the job description *)

Lemma redescribe_lookup f st r :
  heap (redescribe f st) !! r = redescribe_batch f <$> heap st !! r.
Proof. apply list_lookup_fmap. Qed.

Lemma redescribe_jobs_get f st batchId :
  jobs_get (redescribe f st) batchId
  = (λ p, (p.1, redescribe_batch f p.2)) <$> jobs_get st batchId.
Proof.
  unfold jobs_get. cbn [jobs redescribe].
  destruct (jobs st !! batchId) as [r|]; [|done]. cbn [mbind option_bind].
  rewrite redescribe_lookup. by destruct (heap st !! r).
Qed.

Lemma redescribe_mutate f r g st :
  (∀ b, redescribe_batch f (g b) = g (redescribe_batch f b)) →
  mutate r g (redescribe f st) = redescribe f (mutate r g st).
Proof.
  intros Hg. unfold mutate, redescribe. cbn [heap jobs tasks]. f_equal.
  symmetry. apply list_fmap_alter. apply Forall_forall. intros b _. apply Hg.
Qed.

Lemma redescribe_fan_out f cfg file :
  fan_out (redescribe_config f cfg) file = fan_out cfg file.
Proof. reflexivity. Qed.

Lemma redescribe_begin f batchId r i file now st :
  processTranscript_begin batchId r i file now (redescribe f st)
  = (redescribe f (processTranscript_begin batchId r i file now st).1.1,
     (processTranscript_begin batchId r i file now st).1.2,
     (processTranscript_begin batchId r i file now st).2).
Proof.
  unfold processTranscript_begin. rewrite redescribe_jobs_get.
  destruct (jobs_get st batchId) as [[r' b]|]; [|done].
  cbn [fmap option_fmap option_map fst snd redescribe_batch jobConfig].
  destruct (jobConfig b) as [cfg|]; [|done].
  cbn [fmap option_fmap option_map fst snd].
  rewrite !redescribe_mutate by done. done.
Qed.

Lemma redescribe_loop_head f tid t now st :
  loop_head tid t now (redescribe f st) = redescribe f (loop_head tid t now st).
Proof.
  unfold loop_head. rewrite redescribe_lookup.
  destruct (heap st !! task_batch t) as [b|]; [|done].
  cbn [fmap option_fmap option_map redescribe_batch files].
  destruct (files b !! task_i t) as [file|].
  - rewrite redescribe_begin.
    by destruct (processTranscript_begin _ _ _ _ _ st) as [[st' ph] c].
  - by rewrite redescribe_mutate.
Qed.

Lemma redescribe_step f l st :
  step (redescribe_label f l) (redescribe f st) = redescribe f (step l st).
Proof.
  destruct l as [ups cfg batchId now|batchId now clock|tid o c g now|tid now
                 |batchId|batchId]; cbn [step redescribe_label].
  - unfold createBatch, redescribe. cbn [snd heap jobs tasks].
    rewrite fmap_app, length_fmap. done.
  - unfold startProcessing. rewrite redescribe_jobs_get.
    destruct (jobs_get st batchId) as [[r b]|]; [|done].
    cbn [fmap option_fmap option_map fst snd redescribe_batch jobConfig].
    destruct (jobConfig b) as [cfg|]; [|done].
    cbn [fmap option_fmap option_map snd].
    rewrite redescribe_mutate by done.
    change (spawn ?t (redescribe f ?s)) with (redescribe f (spawn t s)).
    change (tasks (redescribe f st)) with (tasks st).
    apply redescribe_loop_head.
  - unfold settle. cbn [tasks redescribe].
    destruct (tasks st !! tid) as [t|]; [|done].
    destruct (task_phase t); try done.
    unfold processTranscript_settle.
    change {| heap := redescribe_batch f <$> heap st; jobs := jobs st;
              tasks := tasks st |} with (redescribe f st).
    rewrite !redescribe_mutate by done. done.
  - unfold resume. cbn [tasks redescribe].
    change {| heap := redescribe_batch f <$> heap st; jobs := jobs st;
              tasks := tasks st |} with (redescribe f st).
    destruct (tasks st !! tid) as [t|]; [|done].
    destruct (task_phase t); try done.
    + rewrite redescribe_lookup.
      destruct (heap st !! task_batch t) as [b|]; [|done].
      cbn [fmap option_fmap option_map redescribe_batch files].
      case_bool_decide; [done|apply redescribe_loop_head].
    + apply redescribe_loop_head.
  - unfold cancelBatch. rewrite redescribe_jobs_get.
    destruct (jobs_get st batchId) as [[r b]|]; [|done].
    cbn [fmap option_fmap option_map fst snd redescribe_batch status].
    destruct (_ || _); [done|]. cbn [snd]. by rewrite redescribe_mutate.
  - unfold deleteBatch. rewrite redescribe_jobs_get.
    destruct (jobs_get st batchId) as [[r b]|]; [|done].
    cbn [fmap option_fmap option_map fst snd redescribe_batch status].
    by destruct (bool_decide _).
Qed.

Lemma redescribe_run f ls st :
  run (redescribe_label f <$> ls) (redescribe f st) = redescribe f (run ls st).
Proof.
  revert st. induction ls as [|l ls IH]; intros st; [done|].
  rewrite fmap_cons, !run_cons, redescribe_step. apply IH.
Qed.

(** C8. The job description reaches no provider.  The request of each
    adapter is the same for any two job descriptions, and the texts sent
    are built from the prompt and the transcript content alone.  Hence two
    configurations that differ in [jobDescription] only make
    [processTranscript] issue the same three calls for a file; and this
    holds along whole runs: replacing every job description (in the
    batches of a state and in the configurations submitted later) changes
    nothing in the run but the stored job descriptions, and in the state
    reached [processTranscript] issues the same calls. *)
Theorem jobDescription_not_forwarded
    (cfg : JobConfig) (file : TranscriptFile)
    (content jd1 jd2 prompt model filename : string) :
  openai_request content jd1 prompt model filename
    = openai_request content jd2 prompt model filename
  ∧ claude_request content jd1 prompt model filename
    = claude_request content jd2 prompt model filename
  ∧ gemini_request content jd1 prompt model filename
    = gemini_request content jd2 prompt model filename
  ∧ fan_out (with_jobDescription jd1 cfg) file
    = fan_out (with_jobDescription jd2 cfg) file
  ∧ msg_content <$> oa_messages (openai_request content jd1 prompt model filename)
    = [prompt; analyze_this content]
  ∧ msg_content <$> cl_messages (claude_request content jd1 prompt model filename)
    = [prompt ++ nl ++ nl ++ analyze_this content]
  ∧ ge_parts (gemini_request content jd1 prompt model filename)
    = [prompt; nl ++ nl ++ analyze_this content]
  ∧ (∀ f ls st batchId r i file' now,
       run (redescribe_label f <$> ls) (redescribe f st)
         = redescribe f (run ls st)
       ∧ (processTranscript_begin batchId r i file' now
            (run (redescribe_label f <$> ls) (redescribe f st))).2
         = (processTranscript_begin batchId r i file' now (run ls st)).2).
Proof.
  split_and!; try reflexivity.
  intros f ls st batchId r i file' now.
  rewrite redescribe_run. split; [done|].
  by rewrite redescribe_begin.
Qed.

(** * Further properties of the tracker *)

(** ** Relations every transition maintains *)

Section Preserved.
Variable R : BatchJob → BatchJob → Prop.
Hypothesis R_refl : ∀ b, R b b.
Hypothesis R_trans : ∀ b1 b2 b3, R b1 b2 → R b2 b3 → R b1 b3.
Hypothesis R_status : ∀ s b, R b (set_status s b).
Hypothesis R_startedAt : ∀ t b, R b (set_startedAt t b).
Hypothesis R_completedAt : ∀ t b, R b (set_completedAt t b).
Hypothesis R_file_status : ∀ i s b, R b (on_file i (set_file_status s) b).
Hypothesis R_settle_file :
  ∀ i r0 r1 r2 now b, R b (on_file i (settle_file r0 r1 r2 now) b).
Hypothesis R_metrics : ∀ g b, R b (on_metrics g b).

Lemma heap_related_refl st : heap_related R st st.
Proof. intros r b Hb. by exists b. Qed.

Lemma heap_related_trans st1 st2 st3 :
  heap_related R st1 st2 → heap_related R st2 st3 → heap_related R st1 st3.
Proof.
  intros H12 H23 r b Hb. destruct (H12 _ _ Hb) as (b2 & Hb2 & R2).
  destruct (H23 _ _ Hb2) as (b3 & Hb3 & R3). exists b3. eauto.
Qed.

Lemma heap_related_same st st' : heap st' = heap st → heap_related R st st'.
Proof. intros E r b Hb. exists b. by rewrite E. Qed.

Lemma heap_related_mutate r g st :
  (∀ b, R b (g b)) → heap_related R st (mutate r g st).
Proof.
  intros Hg r0 b Hb. rewrite mutate_lookup, Hb.
  case_decide; simpl; eauto.
Qed.

Lemma heap_related_begin batchId r i file now st :
  heap_related R st (processTranscript_begin batchId r i file now st).1.1.
Proof.
  unfold processTranscript_begin.
  destruct (jobs_get st batchId) as [[r' batch]|]; [|apply heap_related_refl].
  destruct (jobConfig batch); [|apply heap_related_refl]. simpl.
  eapply heap_related_trans; apply heap_related_mutate; auto.
Qed.

Lemma heap_related_loop_head tid t now st :
  heap_related R st (loop_head tid t now st).
Proof.
  unfold loop_head. destruct (heap st !! task_batch t) as [batch|];
    [|by apply heap_related_same].
  destruct (files batch !! task_i t) as [file|].
  - pose proof (heap_related_begin (task_batchId t) (task_batch t) (task_i t)
                  file (at_calls now) st) as H.
    destruct (processTranscript_begin _ _ _ _ _ _) as [[st' ph] c].
    simpl in H.
    eapply heap_related_trans; [exact H | by apply heap_related_same].
  - eapply heap_related_trans; [|by apply heap_related_same].
    apply heap_related_mutate. intros b.
    apply (R_trans _ (set_status Completed b)); auto.
Qed.

Lemma heap_related_step l st : heap_related R st (step l st).
Proof.
  destruct l as [ups cfg batchId now|batchId now clock|tid o c g now|tid now
                 |batchId|batchId]; cbn [step].
  - intros r b Hb. exists b. split; [|done].
    unfold createBatch. cbn [snd heap]. by apply lookup_app_l_Some.
  - unfold startProcessing.
    destruct (jobs_get st batchId) as [[r batch]|]; [|apply heap_related_refl].
    destruct (jobConfig batch); [|apply heap_related_refl]. cbn [snd].
    eapply heap_related_trans; [|apply heap_related_loop_head].
    eapply heap_related_trans; [|by apply heap_related_same].
    apply heap_related_mutate. intros b.
    apply (R_trans _ (set_status Processing b)); auto.
  - unfold settle.
    destruct (tasks st !! tid) as [t|]; [|apply heap_related_refl].
    destruct (task_phase t); try apply heap_related_refl.
    eapply heap_related_trans; [|by apply heap_related_same].
    unfold processTranscript_settle.
    eapply heap_related_trans; apply heap_related_mutate; auto.
  - unfold resume.
    destruct (tasks st !! tid) as [t|]; [|apply heap_related_refl].
    destruct (task_phase t); try apply heap_related_refl.
    + destruct (heap st !! task_batch t); [|apply heap_related_refl].
      case_bool_decide; [by apply heap_related_same
                        |apply heap_related_loop_head].
    + apply heap_related_loop_head.
  - unfold cancelBatch.
    destruct (jobs_get st batchId) as [[r batch]|]; [|apply heap_related_refl].
    destruct (_ || _); [apply heap_related_refl|].
    apply heap_related_mutate. auto.
  - unfold deleteBatch.
    destruct (jobs_get st batchId) as [[r batch]|]; [|apply heap_related_refl].
    destruct (bool_decide _); [apply heap_related_refl|].
    by apply heap_related_same.
Qed.

Lemma heap_related_run ls st : heap_related R st (run ls st).
Proof.
  revert st. induction ls as [|l ls IH]; intros st.
  - apply heap_related_refl.
  - rewrite run_cons. eapply heap_related_trans; [apply heap_related_step|].
    apply IH.
Qed.
End Preserved.

(** ** What a batch object keeps for good *)

Lemma Forall2_alter_same {A} (P : A → A → Prop) (g : A → A) (i : nat) (l : list A) :
  (∀ x, P x x) → (∀ x, P x (g x)) → Forall2 P l (alter g i l).
Proof.
  intros Hrefl Hg. revert i. induction l as [|x l IH]; intros [|i]; simpl.
  - constructor.
  - constructor.
  - constructor; [apply Hg|]. apply Forall_Forall2_diag, Forall_forall. auto.
  - constructor; [apply Hrefl|apply IH].
Qed.

Lemma same_identity_refl f : same_identity f f.
Proof. by repeat split. Qed.

Lemma results_kept_refl f : results_kept f f.
Proof. by repeat split. Qed.

Lemma keeps_refl b : keeps b b.
Proof.
  split; try done. apply Forall_Forall2_diag, Forall_forall. intros f _.
  split; [apply same_identity_refl|apply results_kept_refl].
Qed.

Lemma keeps_trans b1 b2 b3 : keeps b1 b2 → keeps b2 b3 → keeps b1 b3.
Proof.
  intros [I1 C1 T1 F1] [I2 C2 T2 F2]. split; try congruence.
  eapply Forall2_trans; [|exact F1|exact F2].
  intros f1 f2 f3 [(A1 & A2 & A3 & A4 & A5) (K1 & K2 & K3)]
    [(B1 & B2 & B3 & B4 & B5) (L1 & L2 & L3)].
  split; [repeat split; congruence|].
  repeat split; auto.
Qed.

Lemma keeps_same_files b b' :
  batch_id b' = batch_id b → jobConfig b' = jobConfig b →
  createdAt b' = createdAt b → files b' = files b → keeps b b'.
Proof.
  intros ? ? ? E. split; try done. rewrite E.
  apply Forall_Forall2_diag, Forall_forall. intros f _.
  split; [apply same_identity_refl|apply results_kept_refl].
Qed.

Lemma keeps_on_file i g b :
  (∀ f, same_identity f (g f) ∧ results_kept f (g f)) → keeps b (on_file i g b).
Proof.
  intros Hg. split; try done. simpl. apply Forall2_alter_same; [|done].
  intros f. split; [apply same_identity_refl|apply results_kept_refl].
Qed.

Lemma keeps_settle_file i r0 r1 r2 now b :
  keeps b (on_file i (settle_file r0 r1 r2 now) b).
Proof.
  apply keeps_on_file. intros f. unfold settle_file.
  destruct (bool_decide _); (split; [by repeat split|]);
    repeat split; simpl; intros [v Hv]; rewrite Hv;
    by destruct r0, r1, r2.
Qed.

(** X1.  Whatever happens to the tracker, a batch object stays in place with
    the id, the job configuration and the creation time it was created
    with; it keeps its files, each with its id, its uploaded file, its
    content and its start time; and a provider result that a file has is
    never taken away again. *)
Theorem objects_keep (ls : list Label) (st : State) (r : nat) (b : BatchJob) :
  heap st !! r = Some b →
  ∃ b', heap (run ls st) !! r = Some b' ∧ keeps b b'.
Proof.
  intros Hb.
  apply (heap_related_run keeps keeps_refl keeps_trans); try done.
  - intros s b0. by apply keeps_same_files.
  - intros t b0. by apply keeps_same_files.
  - intros t b0. by apply keeps_same_files.
  - intros i s b0. apply keeps_on_file. intros f. by repeat split.
  - apply keeps_settle_file.
  - intros g b0. by apply keeps_same_files.
Qed.

Lemma objects_keep_witness :
  ∃ b', heap (run (LStart "b1" 40 (clock_at 41) :: drive 1 [unanswered]) demo_completed)
          !! 0%nat = Some b'
        ∧ ∃ f', files b' !! 0%nat = Some f'
                ∧ is_Some (openai (results f'))
                ∧ file_status f' = FileFailed.
Proof.
  destruct (objects_keep (LStart "b1" 40 (clock_at 41) :: drive 1 [unanswered])
              demo_completed 0%nat _ ltac:(vm_compute; reflexivity))
    as (b' & Hb' & K).
  exists b'. split; [exact Hb'|].
  destruct K as [_ _ _ KF].
  revert Hb' KF. vm_compute. intros [= <-] KF.
  eexists. split; [reflexivity|]. split; [by eexists|reflexivity].
Defined.

(** ** The registry *)

Lemma jobs_loop_head tid t now st : jobs (loop_head tid t now st) = jobs st.
Proof.
  unfold loop_head. destruct (heap st !! task_batch t) as [b|]; [|done].
  destruct (files b !! task_i t) as [file|]; [|done].
  unfold processTranscript_begin.
  destruct (jobs_get st (task_batchId t)) as [[r' b']|]; [|done].
  by destruct (jobConfig b').
Qed.

(** Only [createBatch] and [deleteBatch] change the registry. *)
Lemma jobs_step l st :
  jobs (step l st) =
    match l with
    | LCreate _ _ batchId _ => <[batchId := length (heap st)]> (jobs st)
    | LDelete batchId => (deleteBatch batchId st).2.(jobs)
    | _ => jobs st
    end.
Proof.
  destruct l as [ups cfg batchId now|batchId now clock|tid o c g now|tid now
                 |batchId|batchId]; cbn [step]; try done.
  - unfold startProcessing.
    destruct (jobs_get st batchId) as [[r b]|]; [|done].
    destruct (jobConfig b); [|done]. cbn [snd]. by rewrite jobs_loop_head.
  - unfold settle. destruct (tasks st !! tid) as [t|]; [|done].
    by destruct (task_phase t).
  - unfold resume. destruct (tasks st !! tid) as [t|]; [|done].
    destruct (task_phase t); try done.
    + destruct (heap st !! task_batch t); [|done].
      case_bool_decide; [done|apply jobs_loop_head].
    + apply jobs_loop_head.
  - unfold cancelBatch. destruct (jobs_get st batchId) as [[r b]|]; [|done].
    by destruct (_ || _).
Qed.

Lemma heap_length_step l st : (length (heap st) ≤ length (heap (step l st)))%nat.
Proof.
  destruct (decide (length (heap st) ≤ length (heap (step l st)))%nat) as [|N];
    [done|].
  destruct (heap st !! length (heap (step l st))) as [b|] eqn:Hb.
  - destruct (step_object_forward l st _ b Hb) as (b' & Hb' & _).
    apply lookup_lt_Some in Hb'. lia.
  - apply lookup_ge_None in Hb. lia.
Qed.

(** In every reachable state the registry refers to objects of the heap. *)
Lemma registry_wf ls batchId r :
  jobs (run ls initial) !! batchId = Some r →
  (r < length (heap (run ls initial)))%nat.
Proof.
  revert batchId r. induction ls as [|l ls IH] using rev_ind; intros batchId r.
  - done.
  - rewrite run_snoc, jobs_step.
    pose proof (heap_length_step l (run ls initial)) as Hlen.
    destruct l as [ups cfg id now| | | |id|id]; intros Hj;
      try (apply IH in Hj; lia).
    + destruct (decide (id = batchId)) as [->|Hne].
      * rewrite lookup_insert_eq in Hj. injection Hj as <-.
        cbn [step createBatch snd heap]. rewrite length_app. simpl. lia.
      * rewrite lookup_insert_ne in Hj by done. apply IH in Hj. lia.
    + unfold deleteBatch in Hj.
      destruct (jobs_get (run ls initial) id) as [[r0 b0]|];
        [|apply IH in Hj; lia].
      destruct (bool_decide _); [apply IH in Hj; lia|].
      cbn [snd jobs] in Hj. apply lookup_delete_Some in Hj as [_ Hj].
      apply IH in Hj. lia.
Qed.

Lemma createBatch_get ups cfg batchId now st :
  jobs_get (createBatch ups cfg batchId now st).2 batchId
  = Some (length (heap st), new_batch batchId ups cfg now).
Proof.
  apply jobs_get_Some. unfold createBatch. cbn [snd jobs heap].
  split; [apply lookup_insert_eq|by apply list_lookup_middle].
Qed.

(** X2.  [createBatch] returns the id it registered; under that id the
    registry then holds a batch in status [Created] whose files are the
    uploads in order, each [FilePending] with its content and without
    results, with [total = pending] the number of files and every other
    counter 0.  A progress query reports it with no file in progress, a
    result query lists the file names with no result, and the archive of
    the batch is empty.  In a reachable state no other id is affected. *)
Theorem createBatch_registers
    (ups : list Upload) (cfg : JobConfig) (batchId : string) (now : Z)
    (st : State) (basename : string → string → string) :
  let st' := (createBatch ups cfg batchId now st).2 in
  (createBatch ups cfg batchId now st).1 = batchId
  ∧ jobs_get st' batchId
    = Some (length (heap st), new_batch batchId ups cfg now)
  ∧ getBatchProgress batchId st'
    = Some {| bp_batchId := batchId; bp_status := Created;
              bp_metrics := metrics (new_batch batchId ups cfg now);
              bp_processing := [] |}
  ∧ (mr_files <$> getMultiModelResults batchId st')
    = Some ((λ u, {| rf_filename := originalname (up_file u);
                     rf_openai := None; rf_claude := None;
                     rf_gemini := None |}) <$> ups)
  ∧ downloadResults basename batchId st' = Some []
  ∧ total (metrics (new_batch batchId ups cfg now)) = Z.of_nat (length ups)
  ∧ pending (metrics (new_batch batchId ups cfg now)) = Z.of_nat (length ups)
  ∧ (∀ ls batchId', st = run ls initial → batchId' ≠ batchId →
       jobs_get st' batchId' = jobs_get st batchId').
Proof.
  intros st'.
  pose proof (createBatch_get ups cfg batchId now st) as Hget.
  fold st' in Hget.
  assert (Hnone : filter (λ f, file_status f = FileProcessing)
                    (new_file <$> ups) = []).
  { clear. induction ups as [|u ups IH]; [done|]. rewrite fmap_cons.
    rewrite filter_cons_False by done. done. }
  assert (Hres : (λ file, {| rf_filename := originalname (originalFile file);
                             rf_openai := openai (results file);
                             rf_claude := claude (results file);
                             rf_gemini := gemini (results file) |})
                   <$> (new_file <$> ups)
                 = (λ u, {| rf_filename := originalname (up_file u);
                            rf_openai := None; rf_claude := None;
                            rf_gemini := None |}) <$> ups).
  { rewrite <- list_fmap_compose. done. }
  split_and!; try done.
  - unfold getBatchProgress. rewrite Hget. cbn [new_batch files]. rewrite Hnone.
    done.
  - unfold getMultiModelResults. rewrite Hget. cbn [new_batch files fmap
      option_fmap option_map mr_files]. by rewrite Hres.
  - unfold downloadResults, getMultiModelResults. rewrite Hget.
    cbn [new_batch files fmap option_fmap option_map]. rewrite Hres.
    f_equal. unfold archive_of. cbn [mr_files]. rewrite foldl_add_results.
    rewrite app_nil_l.
    clear. induction ups as [|u ups IH]; [done|].
    rewrite fmap_cons, bind_cons, IH. done.
  - simpl. by rewrite length_fmap.
  - simpl. by rewrite length_fmap.
  - intros ls batchId' -> Hne. unfold jobs_get, st', createBatch.
    cbn [snd jobs heap]. rewrite lookup_insert_ne by done.
    destruct (jobs (run ls initial) !! batchId') as [r|] eqn:Hj; [|done].
    cbn [mbind option_bind]. apply registry_wf in Hj.
    by rewrite lookup_app_l.
Qed.

(** X3.  Creating a batch under an id that is not registered and deleting it
    at once succeeds and gives the registry back as it was. *)
Theorem create_then_delete
    (ups : list Upload) (cfg : JobConfig) (batchId : string) (now : Z)
    (st : State) :
  jobs st !! batchId = None →
  (deleteBatch batchId (createBatch ups cfg batchId now st).2).1 = true
  ∧ jobs (deleteBatch batchId (createBatch ups cfg batchId now st).2).2
    = jobs st
  ∧ tasks (deleteBatch batchId (createBatch ups cfg batchId now st).2).2
    = tasks st.
Proof.
  intros Hnone. unfold deleteBatch.
  rewrite createBatch_get. cbn [new_batch status]. rewrite bool_decide_false by done.
  cbn [fst snd jobs tasks createBatch]. split_and!; try done.
  rewrite delete_insert_eq. by apply delete_id.
Qed.

Lemma create_then_delete_witness :
  (deleteBatch "b2" (createBatch [demo_upload "c.txt"] demo_config "b2" 50
                       demo_completed).2).1 = true
  ∧ jobs (deleteBatch "b2" (createBatch [demo_upload "c.txt"] demo_config "b2"
                              50 demo_completed).2).2
    = jobs demo_completed.
Proof.
  destruct (create_then_delete [demo_upload "c.txt"] demo_config "b2" 50
              demo_completed ltac:(vm_compute; reflexivity)) as (H1 & H2 & _).
  split; [exact H1|exact H2].
Defined.

(** X4.  Once [deleteBatch] has succeeded the id is unknown to every
    operation: the progress and result queries and the download answer
    not-found, [cancelBatch] and [deleteBatch] answer [false] and
    [startProcessing] throws "Batch <id> not found", all without changing
    the state; the batches under other ids are as before. *)
Theorem deleted_is_unknown
    (batchId : string) (st : State) (now : Z) (clock : Clock)
    (basename : string → string → string) :
  (deleteBatch batchId st).1 = true →
  let st' := (deleteBatch batchId st).2 in
  getBatchProgress batchId st' = None
  ∧ getMultiModelResults batchId st' = None
  ∧ downloadResults basename batchId st' = None
  ∧ cancelBatch batchId st' = (false, st')
  ∧ deleteBatch batchId st' = (false, st')
  ∧ startProcessing batchId now clock st'
    = (Threw ("Batch " ++ batchId ++ " not found"), st')
  ∧ heap st' = heap st ∧ tasks st' = tasks st
  ∧ (∀ batchId', batchId' ≠ batchId →
       jobs_get st' batchId' = jobs_get st batchId').
Proof.
  unfold deleteBatch at 1 2.
  destruct (jobs_get st batchId) as [[r b]|] eqn:Hget; [|done].
  destruct (bool_decide (status b = Processing)); [done|].
  intros _. cbn [snd].
  set (st' := {| heap := heap st; jobs := delete batchId (jobs st);
                 tasks := tasks st |}).
  assert (Hnone : jobs_get st' batchId = None).
  { unfold jobs_get, st'. cbn [jobs]. by rewrite lookup_delete_eq. }
  unfold getBatchProgress, downloadResults, getMultiModelResults, cancelBatch,
    deleteBatch, startProcessing.
  rewrite Hnone. split_and!; try done.
  intros batchId' Hne. unfold jobs_get, st'. cbn [jobs heap].
  by rewrite lookup_delete_ne.
Qed.

Lemma deleted_is_unknown_witness :
  (deleteBatch "b1" demo_completed).1 = true
  ∧ getBatchProgress "b1" (deleteBatch "b1" demo_completed).2 = None
  ∧ startProcessing "b1" 60 (clock_at 61) (deleteBatch "b1" demo_completed).2
    = (Threw "Batch b1 not found", (deleteBatch "b1" demo_completed).2).
Proof.
  assert (H : (deleteBatch "b1" demo_completed).1 = true)
    by (vm_compute; reflexivity).
  destruct (deleted_is_unknown "b1" demo_completed 60 (clock_at 61) (λ s _, s) H)
    as (H1 & _ & _ & _ & _ & H2 & _).
  split; [exact H|]. split; [exact H1|exact H2].
Defined.

(** X5.  [cancelBatch] and [deleteBatch] do their work once: called again
    on the state they left, each answers [false] and changes nothing. *)
Theorem cancel_delete_once (batchId : string) (st : State) :
  cancelBatch batchId (cancelBatch batchId st).2
    = (false, (cancelBatch batchId st).2)
  ∧ deleteBatch batchId (deleteBatch batchId st).2
    = (false, (deleteBatch batchId st).2).
Proof.
  split.
  - unfold cancelBatch at 2 3.
    destruct (jobs_get st batchId) as [[r b]|] eqn:Hget;
      [|cbn [snd]; unfold cancelBatch; by rewrite Hget].
    destruct (bool_decide (status b = Completed)
              || bool_decide (status b = Cancelled)) eqn:Hs;
      [cbn [snd]; unfold cancelBatch; by rewrite Hget, Hs|].
    cbn [snd]. unfold cancelBatch. rewrite mutate_jobs_get, Hget.
    cbn [fmap option_fmap option_map fst snd]. rewrite decide_True by done.
    cbn [set_status status]. rewrite (bool_decide_true (Cancelled = Cancelled))
      by done. by rewrite orb_true_r.
  - unfold deleteBatch at 2 3.
    destruct (jobs_get st batchId) as [[r b]|] eqn:Hget;
      [|cbn [snd]; unfold deleteBatch; by rewrite Hget].
    destruct (bool_decide (status b = Processing)) eqn:Hs;
      [cbn [snd]; unfold deleteBatch; by rewrite Hget, Hs|].
    cbn [snd]. unfold deleteBatch, jobs_get. cbn [jobs].
    by rewrite lookup_delete_eq.
Qed.

(** X6.  [startProcessing] on a batch without files never reaches an
    [await]: when the call returns the batch is already [Completed], its
    [startedAt] the reading of the clock at line 105 and its [completedAt]
    the later reading at line 125, its metrics untouched, and the
    invocation is over, so that no later settlement or resumption concerns
    it. *)
Theorem startProcessing_no_files
    (batchId : string) (now : Z) (clock : Clock) (st : State) (r : nat)
    (b : BatchJob) (cfg : JobConfig) :
  jobs_get st batchId = Some (r, b) → jobConfig b = Some cfg → files b = [] →
  let st' := (startProcessing batchId now clock st).2 in
  ∃ b', heap st' !! r = Some b'
        ∧ status b' = Completed
        ∧ startedAt b' = Some now ∧ completedAt b' = Some (at_end clock)
        ∧ metrics b' = metrics b
        ∧ tasks st' !! length (tasks st) = Some (Build_Task batchId r 0 Returned)
        ∧ jobs st' = jobs st
        ∧ (∀ o c g t, settle (length (tasks st)) o c g t st' = st')
        ∧ (∀ t, resume (length (tasks st)) t st' = st').
Proof.
  intros Hget Hcfg Hfiles st'. unfold st'.
  rewrite (startProcessing_unfold batchId now clock st r b cfg Hget Hcfg).
  cbn [snd].
  apply jobs_get_Some in Hget as [Hj Hb].
  pose proof (spawn_updated st r
                (λ b, set_startedAt now (set_status Processing b)) b
                (Build_Task batchId r 0 AwaitTranscript) Hb)
    as U0.
  pose proof U0 as (J0 & Hb0 & _ & Ht0 & _).
  pose proof (loop_head_done_updated _ batchId r 0 AwaitTranscript _
                (length (tasks st)) _ clock Hb0 Ht0) as U1.
  destruct U1 as (J1 & Hb1 & _ & Ht1 & _).
  { simpl. rewrite Hfiles. simpl. lia. }
  eexists. split; [exact Hb1|]. split_and!; try done.
  - intros o c g t0. unfold settle. by rewrite Ht1.
  - intros t0. unfold resume. by rewrite Ht1.
Qed.

Lemma startProcessing_no_files_witness :
  let st := (createBatch [] demo_config "b3" 70 demo_completed).2 in
  ∃ b', heap (startProcessing "b3" 71 (clock_at 72) st).2 !! 1%nat = Some b'
        ∧ status b' = Completed
        ∧ startedAt b' = Some 71 ∧ completedAt b' = Some 72.
Proof.
  intros st.
  destruct (startProcessing_no_files "b3" 71 (clock_at 72) st 1%nat
              (new_batch "b3" [] demo_config 70) demo_config
              ltac:(vm_compute; reflexivity) eq_refl eq_refl)
    as (b' & Hb' & Hs & Hst & Hc & _).
  exists b'. split; [exact Hb'|]. split; [exact Hs|]. split; [exact Hst|exact Hc].
Defined.

(** ** The shape of the transitions of an invocation *)

Lemma loop_head_move st batchId r i ph b tid t now :
  heap st !! r = Some b → tasks st !! tid = Some t →
  (∀ r' b', jobs_get st batchId = Some (r', b') → r' = r) →
  ∃ b' t',
    updated st (loop_head tid (Build_Task batchId r i ph) now st) r b' tid t'
    ∧ loop_move r batchId i b b' t'.
Proof.
  intros Hb Ht Hsame.
  destruct (files b !! i) as [file|] eqn:Hfile.
  - pose proof (lookup_lt_Some _ _ _ Hfile) as Hi.
    destruct (jobs_get st batchId) as [[r' b']|] eqn:Hget.
    + pose proof (Hsame _ _ eq_refl) as ->.
      pose proof Hget as Hget'. apply jobs_get_Some in Hget' as [Hj Hb'].
      assert (b' = b) as -> by congruence.
      destruct (jobConfig b) as [cfg|] eqn:Hcfg.
      * eexists _, _. split; [by eapply loop_head_begin_updated|].
        by econstructor.
      * eexists _, _. split; [|by apply LM_skip].
        eapply loop_head_skip_updated; try done. right. by exists r, b.
    + eexists _, _. split; [|by apply LM_skip].
      eapply loop_head_skip_updated; try done. by left.
  - apply lookup_ge_None in Hfile. eexists _, _.
    split; [by eapply loop_head_done_updated|]. by constructor.
Qed.

Lemma Inv_same_ref st batchId r b :
  Inv st → heap st !! r = Some b → batch_id b = batchId →
  ∀ r' b', jobs_get st batchId = Some (r', b') → r' = r.
Proof.
  intros HI Hb Hid r' b' Hget. apply jobs_get_Some in Hget as [Hj Hb'].
  destruct (inv_jobs st HI _ _ Hj) as (b1 & Hb1 & Hid1).
  eapply (inv_ids st HI); [exact Hb1|exact Hb|congruence].
Qed.

(** A settlement or a resumption either changes nothing or is a move of a
    live invocation on the batch object it holds. *)
Lemma task_step_shape l st :
  Inv st →
  (∃ tid o c g now, l = LSettle tid o c g now) ∨ (∃ tid now, l = LResume tid now) →
  step l st = st
  ∨ ∃ r b b' tid t t',
      heap st !! r = Some b ∧ tasks st !! tid = Some t ∧ live t
      ∧ task_batch t = r
      ∧ updated st (step l st) r b' tid t'
      ∧ task_move r t b b' t'.
Proof.
  intros HI [(tid & o & c & g & now & ->)|(tid & now & ->)]; cbn [step].
  - destruct (tasks st !! tid) as [t|] eqn:Ht;
      [|left; unfold settle; by rewrite Ht].
    destruct t as [batchId r i ph].
    destruct ph as [r' ms name t0| | |];
      try (left; unfold settle; by rewrite Ht).
    destruct (inv_task st HI _ _ Ht) as (b & Hb & Hid & Hs1 & Hs2 & Hph);
      [done|].
    simpl in Hb, Hid, Hph. destruct Hph as (-> & Hi & Hpr & Hpe).
    pose proof (settle_updated st batchId r i ms name t0 b tid
                  {| reply_openai := o; reply_claude := c; reply_gemini := g;
                     settled_at := now; resumed_at := clock_at 0;
                     delayed_at := clock_at 0 |} Hb Ht) as U.
    cbn [reply_openai reply_claude reply_gemini settled_at] in U.
    right. eexists r, b, _, tid, _, _. split_and!; try done. constructor.
  - destruct (tasks st !! tid) as [t|] eqn:Ht;
      [|left; unfold resume; by rewrite Ht].
    destruct t as [batchId r i ph].
    destruct ph as [r' ms name t0| | |];
      try (left; unfold resume; by rewrite Ht).
    + destruct (inv_task st HI _ _ Ht) as (b & Hb & Hid & Hs1 & Hs2 & Hph);
        [done|].
      simpl in Hb, Hid, Hph. destruct Hph as (Hi & Hpr & Hpe).
      unfold resume. rewrite Ht. cbn [task_phase task_batch task_i]. rewrite Hb.
      right. case_bool_decide as Hlast.
      * eexists r, b, _, tid, _, _. split_and!; try done.
        -- by eapply updated_task.
        -- constructor. lia.
      * destruct (loop_head_move st batchId r (S i) AwaitTranscript b tid _ now
                    Hb Ht (Inv_same_ref st batchId r b HI Hb Hid))
          as (b' & t' & U & M).
        eexists r, b, b', tid, _, t'. split_and!; try done.
        apply TM_last; [lia|done].
    + destruct (inv_task st HI _ _ Ht) as (b & Hb & Hid & Hs1 & Hs2 & Hph);
        [done|].
      simpl in Hb, Hid, Hph.
      unfold resume. rewrite Ht. cbn [task_phase task_batch task_i].
      destruct (loop_head_move st batchId r (S i) AwaitDelay b tid _ now
                  Hb Ht (Inv_same_ref st batchId r b HI Hb Hid))
        as (b' & t' & U & M).
      right. eexists r, b, b', tid, _, t'. split_and!; try done.
      by apply TM_next.
Qed.

(** A permitted start either throws or enters the loop on the batch, which
    was [Created]. *)
Lemma start_shape batchId now clock st :
  Inv st → permitted (LStart batchId now clock) st = true →
  (startProcessing batchId now clock st).2 = st
  ∨ ∃ r b b' t',
      jobs_get st batchId = Some (r, b) ∧ status b = Created
      ∧ updated st (startProcessing batchId now clock st).2 r b'
          (length (tasks st)) t'
      ∧ loop_move r batchId 0
          (set_startedAt now (set_status Processing b)) b' t'.
Proof.
  intros HI Hperm. unfold permitted in Hperm.
  destruct (jobs_get st batchId) as [[r b]|] eqn:Hget;
    [|left; unfold startProcessing; by rewrite Hget].
  apply bool_decide_eq_true in Hperm.
  destruct (jobConfig b) as [cfg|] eqn:Hcfg;
    [|left; unfold startProcessing; by rewrite Hget, Hcfg].
  rewrite (startProcessing_unfold batchId now clock st r b cfg Hget Hcfg).
  cbn [snd].
  pose proof Hget as Hget'. apply jobs_get_Some in Hget' as [Hj Hb].
  destruct (inv_jobs st HI _ _ Hj) as (b1 & Hb1 & Hid1).
  assert (b1 = b) as -> by congruence.
  pose proof (spawn_updated st r
                (λ b, set_startedAt now (set_status Processing b)) b
                (Build_Task batchId r 0 AwaitTranscript) Hb) as U0.
  pose proof U0 as (J0 & Hb0 & _ & Ht0 & _).
  destruct (loop_head_move _ batchId r 0 AwaitTranscript _ (length (tasks st))
              _ clock Hb0 Ht0) as (b' & t' & U & M).
  { intros r' b' Hget'. apply jobs_get_Some in Hget' as [Hj' _].
    rewrite J0 in Hj'. congruence. }
  right. exists r, b, b', t'. split_and!; try done.
  eapply updated_trans; [exact U0|exact U].
Qed.

(** ** Counting files *)

Lemma count_files_nonneg P fs : 0 ≤ count_files P fs.
Proof.
  induction fs as [|f fs IH]; simpl; [done|].
  pose proof (b2z_nonneg (P f)). lia.
Qed.

Lemma count_files_alter P g (i : nat) fs f :
  fs !! i = Some f →
  count_files P (alter g i fs) = count_files P fs - b2z (P f) + b2z (P (g f)).
Proof.
  revert i. induction fs as [|f0 fs IH]; intros [|i] Hf; try done.
  - injection Hf as ->.
    change (b2z (P (g f)) + count_files P fs
            = b2z (P f) + count_files P fs - b2z (P f) + b2z (P (g f))). lia.
  - change (b2z (P f0) + count_files P (alter g i fs)
            = b2z (P f0) + count_files P fs - b2z (P f) + b2z (P (g f))).
    rewrite (IH i Hf). lia.
Qed.

Lemma count_files_zero P fs (j : nat) f :
  count_files P fs = 0 → fs !! j = Some f → P f = false.
Proof.
  revert j. induction fs as [|f0 fs IH]; intros [|j] Hc Hf; simpl in *;
    try done.
  - injection Hf as ->. pose proof (count_files_nonneg P fs).
    destruct (P f); simpl in Hc; [lia|done].
  - pose proof (count_files_nonneg P fs). pose proof (b2z_nonneg (P f0)).
    eapply IH; [lia|done].
Qed.

Lemma count_files_unique P fs (j k : nat) f g :
  count_files P fs ≤ 1 → fs !! j = Some f → fs !! k = Some g →
  P f = true → P g = true → j = k.
Proof.
  revert j k. induction fs as [|f0 fs IH]; intros [|j] [|k] Hc Hf Hg Pf Pg;
    simpl in *; try done.
  - injection Hf as ->. rewrite Pf in Hc. simpl in Hc.
    assert (count_files P fs = 0) as Hz
      by (pose proof (count_files_nonneg P fs); lia).
    rewrite (count_files_zero P fs k g Hz Hg) in Pg. done.
  - injection Hg as ->. rewrite Pg in Hc. simpl in Hc.
    assert (count_files P fs = 0) as Hz
      by (pose proof (count_files_nonneg P fs); lia).
    rewrite (count_files_zero P fs j f Hz Hf) in Pf. done.
  - f_equal. pose proof (b2z_nonneg (P f0)). eapply IH; try done. lia.
Qed.

Lemma count_files_le_length P fs : count_files P fs ≤ Z.of_nat (length fs).
Proof.
  induction fs as [|f fs IH]; simpl; [done|]. destruct (P f); simpl; lia.
Qed.

Lemma count_files_filter (s : FileStatus) fs :
  count_files (has_status s) fs
  = Z.of_nat (length (filter (λ f, file_status f = s) fs)).
Proof.
  induction fs as [|f fs IH]; [done|]. simpl. unfold has_status at 1.
  destruct (decide (file_status f = s)) as [E|NE].
  - rewrite bool_decide_true, filter_cons_True by done. simpl. lia.
  - rewrite bool_decide_false, filter_cons_False by done. simpl. lia.
Qed.

Lemma count_files_new P ups :
  (∀ u, P (new_file u) = false) → count_files P (new_file <$> ups) = 0.
Proof.
  intros HP. induction ups as [|u ups IH]; [done|].
  rewrite fmap_cons. simpl. rewrite HP, IH. done.
Qed.

Lemma count_files_new_pending ups :
  count_files (has_status FilePending) (new_file <$> ups)
  = Z.of_nat (length (new_file <$> ups)).
Proof.
  induction ups as [|u ups IH]; [done|]. rewrite fmap_cons. simpl.
  rewrite IH. unfold has_status. simpl. lia.
Qed.

(** ** Disciplined use: counters and files *)

Lemma batch_ok2_same b b' :
  batch_ok2 b → files b' = files b → metrics b' = metrics b →
  (status b' = Created → status b = Created) → batch_ok2 b'.
Proof.
  intros (Hc & Hp & Hcr & Hpr) Ef Em Hs.
  unfold batch_ok2, counted, later_fresh in *. rewrite Ef, Em.
  destruct Hc as (? & ? & ? & ? & ? & ? & ?).
  split_and!; try done. intros Hs'. by apply Hcr, Hs.
Qed.

Lemma batch_ok2_new batchId ups cfg now :
  batch_ok2 (new_batch batchId ups cfg now).
Proof.
  assert (Hfresh : ∀ (j : nat) f, (new_file <$> ups) !! j = Some f →
            fresh_file f).
  { intros j f Hf. rewrite list_lookup_fmap in Hf.
    destruct (ups !! j); [|done]. injection Hf as <-. by repeat split. }
  unfold batch_ok2, counted. cbn [new_batch metrics files pending processing
    completed failed openaiComplete claudeComplete geminiComplete].
  rewrite count_files_new_pending.
  rewrite !count_files_new by done.
  split_and!; try done.
  intros j f Hf Hs. destruct (Hfresh _ _ Hf) as [E _]. congruence.
Qed.

Lemma batch_ok2_begin (i : nat) b f r ms name t0 :
  batch_ok2 b → status b ≠ Created → processing (metrics b) = 0 →
  files b !! i = Some f → fresh_file f → later_fresh i b →
  batch_ok2 (after_begin i b)
  ∧ position_ok (AwaitSettled r ms name t0) i (after_begin i b).
Proof.
  intros ((C1 & C2 & C3 & C4 & C5 & C6 & C7) & Hp & Hcr & Hpr) Hs Hz Hf
    (F1 & F2 & F3 & F4) Hlater.
  assert (Hlook : ∀ j : nat, files (after_begin i b) !! j
            = if decide (i = j) then Some (set_file_status FileProcessing f)
              else files b !! j).
  { intros j. cbn [after_begin on_metrics set_metrics on_file set_files files].
    rewrite list_lookup_alter. case_decide; [subst; by rewrite Hf|done]. }
  assert (Hlater' : later_fresh i (after_begin i b)).
  { intros j f' Hf' Hj. rewrite Hlook, decide_False in Hf' by lia.
    by eapply Hlater. }
  split; [|split; [|done]].
  - unfold batch_ok2, counted.
    cbn [after_begin on_metrics set_metrics on_file set_files files metrics
           begin_metrics pending processing completed failed openaiComplete
           claudeComplete geminiComplete status].
    rewrite !(count_files_alter _ _ _ _ _ Hf).
    unfold has_status, has_openai, has_claude, has_gemini in *.
    cbn [set_file_status file_status results]. rewrite F1, F2, F3, F4.
    rewrite !(bool_decide_false (is_Some None)) by (by intros [? ?]).
    simpl. split_and!; try lia; try done.
    intros j f' Hf' Hs'.
    change (files (on_metrics begin_metrics
                     (on_file i (set_file_status FileProcessing) b)))
      with (files (after_begin i b)) in Hf'.
    rewrite Hlook in Hf'. case_decide as E.
    + subst j. exact Hlater'.
    + rewrite C2 in Hz.
      pose proof (count_files_zero _ _ _ _ Hz Hf') as Hno.
      cbv beta in Hno. by rewrite bool_decide_true in Hno.
  - exists (set_file_status FileProcessing f). rewrite Hlook, decide_True by done.
    done.
Qed.

Lemma store_none r : is_Some (store r None) ↔ fulfilled r = true.
Proof.
  destruct r; simpl; split; try done; try (by eexists); by intros [? ?].
Qed.

Lemma batch_ok2_settle ms name t0 x (i : nat) b f :
  batch_ok2 b → status b ≠ Created →
  files b !! i = Some f → file_status f = FileProcessing →
  openai (results f) = None → claude (results f) = None →
  gemini (results f) = None → later_fresh i b →
  batch_ok2 (after_settle ms name t0 x i b)
  ∧ later_fresh i (after_settle ms name t0 x i b).
Proof.
  intros ((C1 & C2 & C3 & C4 & C5 & C6 & C7) & Hp & Hcr & Hpr) Hs Hf F1 F2 F3
    F4 Hlater.
  set (r0 := settled_openai ms name t0 x).
  set (r1 := settled_claude ms name t0 x).
  set (r2 := settled_gemini ms name t0 x).
  assert (Hlook : ∀ j : nat, files (after_settle ms name t0 x i b) !! j
            = if decide (i = j)
              then Some (settle_file r0 r1 r2 (settled_at x) f)
              else files b !! j).
  { intros j. cbn [after_settle on_metrics set_metrics on_file set_files files].
    rewrite list_lookup_alter. case_decide; [subst; by rewrite Hf|done]. }
  assert (Hlater' : later_fresh i (after_settle ms name t0 x i b)).
  { intros j f' Hf' Hj. rewrite Hlook, decide_False in Hf' by lia.
    by eapply Hlater. }
  split; [|done].
  pose proof (count_files_nonneg (has_status FileProcessing) (files b)).
  destruct (settle_file_status r0 r1 r2 (settled_at x) f) as [Hst _].
  unfold batch_ok2, counted.
  cbn [after_settle on_metrics set_metrics on_file set_files files metrics
         settle_metrics pending processing completed failed openaiComplete
         claudeComplete geminiComplete status].
  fold r0 r1 r2.
  rewrite !(count_files_alter _ _ _ _ _ Hf).
  unfold has_status, has_openai, has_claude, has_gemini in *.
  rewrite Hst, F1, F2, F3, F4.
  assert (Hr : results (settle_file r0 r1 r2 (settled_at x) f)
               = {| openai := store r0 None; claude := store r1 None;
                    gemini := store r2 None |}).
  { unfold settle_file. rewrite F2, F3, F4. by destruct (bool_decide _). }
  rewrite Hr. cbn [openai claude gemini].
  rewrite !(bool_decide_false (is_Some None)) by (by intros [? ?]).
  rewrite !(bool_decide_ext _ _ (store_none _)).
  assert (Hb : ∀ y : bool, bool_decide (y = true) = y) by (by intros []).
  rewrite !Hb.
  split_and!.
  - destruct (bool_decide (0 < successCount r0 r1 r2)%nat); simpl; lia.
  - destruct (bool_decide (0 < successCount r0 r1 r2)%nat); simpl; lia.
  - destruct (bool_decide (0 < successCount r0 r1 r2)%nat); simpl; lia.
  - destruct (bool_decide (0 < successCount r0 r1 r2)%nat); simpl; lia.
  - simpl. lia.
  - simpl. lia.
  - simpl. lia.
  - lia.
  - done.
  - intros j f' Hf' Hs'.
    change (files (on_metrics (settle_metrics r0 r1 r2)
                     (on_file i (settle_file r0 r1 r2 (settled_at x)) b)))
      with (files (after_settle ms name t0 x i b)) in Hf'.
    rewrite Hlook in Hf'. case_decide as E.
    + injection Hf' as <-. rewrite Hst in Hs'.
      by destruct (bool_decide (0 < successCount r0 r1 r2)%nat).
    + assert (j = i) as ->; [|done].
      rewrite C2 in Hp.
      eapply (count_files_unique _ _ _ _ _ _ Hp Hf' Hf);
        cbv beta; by rewrite bool_decide_true.
Qed.

Lemma Inv2_initial : Inv2 initial.
Proof. split; intros *; simpl; done. Qed.

Lemma Inv2_updated st st' r b' tid t' :
  Inv2 st → updated st st' r b' tid t' →
  batch_ok2 b' → task_batch t' = r →
  (live t' → position_ok (task_phase t') (task_i t') b') →
  (∀ tid0 t0, tasks st !! tid0 = Some t0 → tid0 ≠ tid → live t0 →
     task_batch t0 ≠ r) →
  Inv2 st'.
Proof.
  intros [IB IT] (J & Hb' & Hframe & Ht' & Tframe) Hok Hr Hpos Hothers.
  split.
  - intros r0 b0 H0. destruct (decide (r0 = r)) as [->|Hne].
    + rewrite Hb' in H0. by injection H0 as <-.
    + rewrite Hframe in H0 by done. by eapply IB.
  - intros tid0 t0 H0 Hl. destruct (decide (tid0 = tid)) as [->|Hne].
    + rewrite Ht' in H0. injection H0 as <-. exists b'. rewrite Hr.
      split; [done|]. by apply Hpos.
    + rewrite Tframe in H0 by done.
      destruct (IT _ _ H0 Hl) as (b0 & Hb0 & Hp0).
      exists b0. split; [|done]. rewrite Hframe; [done|]. by eapply Hothers.
Qed.

Lemma later_fresh_mono (i j : nat) b :
  (i ≤ j)%nat → later_fresh i b → later_fresh j b.
Proof. intros Hij H k f Hf Hk. eapply H; [done|lia]. Qed.

(** The obligations of a move of the loop head: the object it starts from
    has no file in progress and only fresh files from [i] on. *)
Lemma Inv2_loop_move r batchId (i : nat) b0 b' t' :
  loop_move r batchId i b0 b' t' →
  batch_ok2 b0 → status b0 ≠ Created → processing (metrics b0) = 0 →
  (∀ (j : nat) f, files b0 !! j = Some f → (i ≤ j)%nat → fresh_file f) →
  batch_ok2 b' ∧ task_batch t' = r
  ∧ (live t' → position_ok (task_phase t') (task_i t') b').
Proof.
  intros M Hok Hs Hz Hfresh.
  assert (Hlater : later_fresh i b0).
  { intros j f Hf Hj. eapply Hfresh; [done|lia]. }
  destruct M as [now Hi|Hi|cfg file now Hcfg Hfile].
  - split_and!; [|done|by intros []].
    apply (batch_ok2_same b0); done.
  - split_and!; done.
  - destruct (batch_ok2_begin i b0 file r (models cfg)
                (originalname (originalFile file)) now Hok Hs Hz Hfile)
      as [H1 H2];
      [by eapply Hfresh|done|].
    split_and!; done.
Qed.

Lemma Inv2_task_step l st :
  Inv st → Inv2 st →
  (∃ tid o c g now, l = LSettle tid o c g now) ∨ (∃ tid now, l = LResume tid now) →
  Inv2 (step l st).
Proof.
  intros HI HI2 Hl.
  destruct (task_step_shape l st HI Hl)
    as [->|(r & b & b' & tid & t & t' & Hb & Ht & Hl' & Hr & U & M)]; [done|].
  destruct (inv_task st HI _ _ Ht Hl') as (b1 & Hb1 & Hid & Hs1 & Hs2 & Hph).
  rewrite Hr in Hb1. assert (b1 = b) as -> by congruence.
  destruct (inv2_task st HI2 _ _ Ht Hl') as (b1 & Hb1' & Hpos).
  rewrite Hr in Hb1'. assert (b1 = b) as -> by congruence.
  pose proof (inv2_batch st HI2 _ _ Hb) as Hok.
  pose proof (Inv_others st tid t HI Ht Hl') as Hothers. rewrite Hr in Hothers.
  destruct M as [batchId i ms name t0 x b|batchId i b Hi
                |batchId i b b' t' Hi M|batchId i b b' t' M];
    cbn [task_phase task_i task_batch] in *.
  - destruct Hpos as [(f & Hf & F1 & F2 & F3 & F4) Hlater].
    destruct (batch_ok2_settle ms name t0 x i b f Hok Hs1 Hf F1 F2 F3 F4 Hlater)
      as [H1 H2].
    by eapply (Inv2_updated st _ r _ tid _ HI2 U).
  - by eapply (Inv2_updated st _ r _ tid _ HI2 U).
  - destruct Hph as (_ & Hz & _).
    destruct (Inv2_loop_move r batchId (S i) b b' t' M Hok Hs1 Hz)
      as (H1 & H2 & H3).
    { intros j f Hf Hj. eapply Hpos; [done|lia]. }
    by eapply (Inv2_updated st _ r _ tid _ HI2 U).
  - destruct Hph as (_ & Hz & _).
    destruct (Inv2_loop_move r batchId (S i) b b' t' M Hok Hs1 Hz)
      as (H1 & H2 & H3).
    { intros j f Hf Hj. eapply Hpos; [done|lia]. }
    by eapply (Inv2_updated st _ r _ tid _ HI2 U).
Qed.

Lemma Inv2_start st batchId now clock :
  Inv st → Inv2 st → permitted (LStart batchId now clock) st = true →
  Inv2 (startProcessing batchId now clock st).2.
Proof.
  intros HI HI2 Hperm.
  destruct (start_shape batchId now clock st HI Hperm)
    as [->|(r & b & b' & t' & Hget & Hs & U & M)]; [done|].
  apply jobs_get_Some in Hget as [Hj Hb].
  destruct (inv2_batch st HI2 _ _ Hb) as (Hc & Hp & Hcr & Hpr).
  destruct (inv_batch st HI _ _ Hb) as (_ & _ & _ & _ & _ & _ & _ & _ & Hcr').
  destruct (Hcr' Hs) as [_ Hz].
  assert (Hok0 : batch_ok2 (set_startedAt now (set_status Processing b))).
  { apply (batch_ok2_same b); done. }
  assert (Hfresh : ∀ (j : nat) f,
            files (set_startedAt now (set_status Processing b)) !! j = Some f →
            (0 ≤ j)%nat → fresh_file f).
  { intros j f Hf _. by eapply Hcr. }
  destruct (Inv2_loop_move r batchId 0 _ b' t' M Hok0 ltac:(done) Hz Hfresh)
    as (H1 & H2 & H3).
  eapply (Inv2_updated st _ r _ _ _ HI2 U); try done.
  intros tid0 t0 Ht0 _ Hl0 E.
  destruct (inv_task st HI _ _ Ht0 Hl0) as (b0 & Hb0 & _ & Hs0 & _).
  rewrite E in Hb0. congruence.
Qed.

Lemma position_ok_files ph i b b' :
  files b' = files b → position_ok ph i b → position_ok ph i b'.
Proof.
  intros E. unfold position_ok, later_fresh. rewrite E. done.
Qed.

Lemma Inv2_step l st :
  Inv st → Inv2 st → permitted l st = true → Inv2 (step l st).
Proof.
  intros HI HI2 Hperm.
  destruct l as [ups cfg batchId now|batchId now clock|tid o c g now|tid now
                 |batchId|batchId].
  - destruct HI2 as [IB IT]. split; cbn [step createBatch snd heap tasks].
    + intros r b Hb. apply lookup_app_Some in Hb as [Hb|[_ Hb]].
      * by eapply IB.
      * apply list_lookup_singleton_Some in Hb as [_ <-]. apply batch_ok2_new.
    + intros tid t Ht Hl. destruct (IT _ _ Ht Hl) as (b & Hb & Hp).
      exists b. split; [|done]. by apply lookup_app_l_Some.
  - by apply Inv2_start.
  - apply Inv2_task_step; try done. left. by exists tid, o, c, g, now.
  - apply Inv2_task_step; try done. right. by exists tid, now.
  - cbn [step]. unfold cancelBatch.
    destruct (jobs_get st batchId) as [[r b]|] eqn:Hget; [|done].
    destruct (bool_decide (status b = Completed)
              || bool_decide (status b = Cancelled)); [done|].
    cbn [snd]. destruct HI2 as [IB IT]. split.
    + intros r0 b0. rewrite mutate_lookup. case_decide as E.
      * destruct (heap st !! r0) as [b1|] eqn:Hb1; [|done]. intros [= <-].
        apply (batch_ok2_same b1); try done. by eapply IB.
      * by apply IB.
    + intros tid t Ht Hl. destruct (IT _ _ Ht Hl) as (b0 & Hb0 & Hp).
      rewrite mutate_lookup, Hb0. case_decide.
      * eexists. split; [done|]. by eapply position_ok_files.
      * by exists b0.
  - cbn [step]. unfold deleteBatch.
    destruct (jobs_get st batchId) as [[r b]|]; [|done].
    destruct (bool_decide _); [done|]. cbn [snd].
    destruct HI2 as [IB IT]. by split.
Qed.

Lemma Inv2_run ls : disciplined ls initial = true → Inv2 (run ls initial).
Proof.
  induction ls as [|l ls IH] using rev_ind; intros Hd.
  - apply Inv2_initial.
  - rewrite disciplined_snoc in Hd. apply andb_true_iff in Hd as [Hd Hp].
    rewrite run_snoc. apply Inv2_step; [by apply Inv_run|by apply IH|done].
Qed.

Lemma count_files_decide (Q : TranscriptFile → Prop) `{!∀ f, Decision (Q f)} fs :
  count_files (λ f, bool_decide (Q f)) fs = Z.of_nat (length (filter Q fs)).
Proof.
  induction fs as [|f fs IH]; [done|].
  change (b2z (bool_decide (Q f)) + count_files (λ f, bool_decide (Q f)) fs
          = Z.of_nat (length (filter Q (f :: fs)))).
  rewrite IH. destruct (decide (Q f)) as [E|NE].
  - rewrite bool_decide_true, filter_cons_True by done. simpl. lia.
  - rewrite bool_decide_false, filter_cons_False by done. simpl. lia.
Qed.

(** X7.  Under disciplined use (a fresh id for every batch, one
    [startProcessing] per batch) the counters of a batch are, in every
    reachable state, the numbers of its files they stand for: [pending],
    [processing], [completed] and [failed] count the files in that status,
    and each provider counter counts the files that hold a result of that
    provider. *)
Theorem counters_count_files (ls : list Label) (r : nat) (b : BatchJob) :
  disciplined ls initial = true →
  heap (run ls initial) !! r = Some b →
  pending (metrics b)
    = Z.of_nat (length (filter (λ f, file_status f = FilePending) (files b)))
  ∧ processing (metrics b)
    = Z.of_nat (length (filter (λ f, file_status f = FileProcessing) (files b)))
  ∧ completed (metrics b)
    = Z.of_nat (length (filter (λ f, file_status f = FileCompleted) (files b)))
  ∧ failed (metrics b)
    = Z.of_nat (length (filter (λ f, file_status f = FileFailed) (files b)))
  ∧ openaiComplete (metrics b)
    = Z.of_nat (length (filter (λ f, is_Some (openai (results f))) (files b)))
  ∧ claudeComplete (metrics b)
    = Z.of_nat (length (filter (λ f, is_Some (claude (results f))) (files b)))
  ∧ geminiComplete (metrics b)
    = Z.of_nat (length (filter (λ f, is_Some (gemini (results f))) (files b))).
Proof.
  intros Hd Hb.
  destruct (inv2_batch _ (Inv2_run ls Hd) _ _ Hb)
    as ((C1 & C2 & C3 & C4 & C5 & C6 & C7) & _).
  unfold has_status, has_openai, has_claude, has_gemini in *.
  rewrite count_files_decide in C1, C2, C3, C4, C5, C6, C7.
  done.
Qed.

Lemma counters_count_files_witness :
  ∃ b, heap demo_completed !! 0%nat = Some b
       ∧ completed (metrics b)
         = Z.of_nat (length (filter (λ f, file_status f = FileCompleted)
                               (files b)))
       ∧ geminiComplete (metrics b)
         = Z.of_nat (length (filter (λ f, is_Some (gemini (results f)))
                               (files b))).
Proof.
  eexists. split; [vm_compute; reflexivity|].
  destruct (counters_count_files
              ([LCreate [demo_upload "a.txt"] demo_config "b1" 10;
                LStart "b1" 11 (clock_at 12)] ++ drive 0 [answered])%list 0%nat _
              ltac:(vm_compute; reflexivity) ltac:(vm_compute; reflexivity))
    as (_ & _ & H3 & _ & _ & _ & H7).
  split; [exact H3|exact H7].
Defined.

(** X8.  Under disciplined use the files of a batch are processed one at a
    time and in order: at most one file of a batch is [FileProcessing] (a
    progress query names at most one), and while a file is in progress
    every later file is still [FilePending] and has no result. *)
Theorem one_file_at_a_time (ls : list Label) :
  disciplined ls initial = true →
  (∀ batchId p, getBatchProgress batchId (run ls initial) = Some p →
     (length (bp_processing p) ≤ 1)%nat)
  ∧ (∀ r b (j k : nat) f g,
       heap (run ls initial) !! r = Some b →
       files b !! j = Some f → file_status f = FileProcessing →
       files b !! k = Some g →
       (file_status g = FileProcessing → k = j)
       ∧ ((j < k)%nat → fresh_file g)).
Proof.
  intros Hd. pose proof (Inv2_run ls Hd) as HI2. split.
  - intros batchId p. unfold getBatchProgress.
    destruct (jobs_get _ batchId) as [[r b]|] eqn:Hget; [|done].
    intros [= <-]. cbn [bp_processing]. rewrite length_fmap.
    apply jobs_get_Some in Hget as [_ Hb].
    destruct (inv2_batch _ HI2 _ _ Hb) as ((_ & C2 & _) & Hp & _).
    unfold has_status in C2. rewrite count_files_decide in C2. lia.
  - intros r b j k f g Hb Hf Hs Hg.
    destruct (inv2_batch _ HI2 _ _ Hb) as ((_ & C2 & _) & Hp & _ & Hpr).
    split.
    + intros Hs'. rewrite C2 in Hp.
      eapply (count_files_unique _ _ _ _ _ _ Hp Hg Hf);
        unfold has_status; by rewrite bool_decide_true.
    + intros Hjk. by eapply (Hpr j f Hf Hs).
Qed.

Lemma one_file_at_a_time_witness :
  ∃ p, getBatchProgress "b1" demo_started = Some p
       ∧ bp_processing p = ["a.txt"]
       ∧ (length (bp_processing p) ≤ 1)%nat.
Proof.
  eexists. split; [vm_compute; reflexivity|]. split; [reflexivity|].
  destruct (one_file_at_a_time
              [LCreate [demo_upload "a.txt"] demo_config "b1" 10;
               LStart "b1" 11 (clock_at 12)] ltac:(vm_compute; reflexivity)) as [H _].
  eapply (H "b1"). vm_compute. reflexivity.
Defined.

Lemma archive_length_files basename fs :
  Z.of_nat (length (foldl (add_results basename) []
     ((λ file, {| rf_filename := originalname (originalFile file);
                  rf_openai := openai (results file);
                  rf_claude := claude (results file);
                  rf_gemini := gemini (results file) |}) <$> fs)))
  = count_files has_openai fs + count_files has_claude fs
    + count_files has_gemini fs.
Proof.
  rewrite foldl_add_results, app_nil_l.
  induction fs as [|f fs IH]; [done|].
  rewrite fmap_cons, bind_cons, length_app, Nat2Z.inj_add, IH.
  change (count_files ?P (f :: fs)) with (b2z (P f) + count_files P fs).
  unfold has_openai, has_claude, has_gemini.
  destruct f as [? ? ? ? ? [[?|] [?|] [?|]] ? ?]; simpl;
    rewrite ?bool_decide_true by (by eexists);
    rewrite ?(bool_decide_false (is_Some None)) by (by intros [? ?]);
    simpl; lia.
Qed.

(** X9.  Under disciplined use the archive of a batch holds as many entries
    as its three provider counters add up to: what a progress query
    reports as done is what a download delivers, at any moment. *)
Theorem archive_size_is_provider_counters
    (ls : list Label) (batchId : string) (p : BatchProgress)
    (entries : list Entry) (basename : string → string → string) :
  disciplined ls initial = true →
  getBatchProgress batchId (run ls initial) = Some p →
  downloadResults basename batchId (run ls initial) = Some entries →
  Z.of_nat (length entries)
  = openaiComplete (bp_metrics p) + claudeComplete (bp_metrics p)
    + geminiComplete (bp_metrics p).
Proof.
  intros Hd. unfold getBatchProgress, downloadResults, getMultiModelResults.
  destruct (jobs_get _ batchId) as [[r b]|] eqn:Hget; [|done].
  intros [= <-] [= <-]. cbn [bp_metrics]. unfold archive_of. cbn [mr_files].
  apply jobs_get_Some in Hget as [_ Hb].
  destruct (inv2_batch _ (Inv2_run ls Hd) _ _ Hb)
    as ((_ & _ & _ & _ & C5 & C6 & C7) & _).
  rewrite archive_length_files. lia.
Qed.

Lemma archive_size_is_provider_counters_witness :
  ∃ p entries,
    getBatchProgress "b1" demo_completed = Some p
    ∧ downloadResults (λ s _, s) "b1" demo_completed = Some entries
    ∧ Z.of_nat (length entries) = 3.
Proof.
  eexists _, _. split; [vm_compute; reflexivity|].
  split; [vm_compute; reflexivity|].
  rewrite (archive_size_is_provider_counters
             ([LCreate [demo_upload "a.txt"] demo_config "b1" 10;
               LStart "b1" 11 (clock_at 12)] ++ drive 0 [answered])%list "b1" _ _ (λ s _, s)
             ltac:(vm_compute; reflexivity) ltac:(vm_compute; reflexivity)
             ltac:(vm_compute; reflexivity)).
  reflexivity.
Defined.

(** ** A batch deleted while its loop is running *)

Lemma resume_returned st tid batchId r i ts :
  tasks st !! tid = Some (Build_Task batchId r i Returned) →
  run (LResume tid <$> ts) st = st.
Proof.
  intros Ht. induction ts as [|t ts IH]; [done|].
  rewrite fmap_cons, run_cons. cbn [step]. unfold resume at 1. rewrite Ht.
  cbn [task_phase]. exact IH.
Qed.

Lemma skipped_from_transcript batchId r tid b (k : nat) :
  ∀ (i : nat) st ts,
  (length (files b) - i ≤ k)%nat →
  tasks st !! tid = Some (Build_Task batchId r i AwaitTranscript) →
  heap st !! r = Some b → jobs st !! batchId = None →
  (2 * k + 1 ≤ length ts)%nat →
  ∃ t i',
    t ∈ ts
    ∧ updated st (run (LResume tid <$> ts) st) r
        (set_completedAt (at_end t) (set_status Completed b))
        tid (Build_Task batchId r i' Returned).
Proof.
  induction k as [|k IH]; intros i st ts Hk Ht Hb Hj Hlen.
  - destruct ts as [|t1 ts]; [simpl in Hlen; lia|].
    pose proof (resume_last_updated st batchId r i b tid t1 Hb Ht ltac:(lia))
      as U.
    exists t1, (S i). split; [by left|].
    rewrite fmap_cons, run_cons. cbn [step].
    destruct U as (J & Hb' & F & Ht' & T).
    rewrite (resume_returned _ tid batchId r (S i) ts Ht').
    split_and!; done.
  - destruct (decide (S i < length (files b))%nat) as [Hi|Hi].
    + destruct ts as [|t1 [|t2 ts]]; [simpl in Hlen; lia..|].
      pose proof (resume_delay_updated st batchId r i b tid t1 Hb Ht Hi) as U1.
      set (st1 := resume tid t1 st) in *.
      pose proof U1 as (J1 & Hb1 & F1 & Ht1 & T1).
      destruct (files b !! S i) as [file|] eqn:Hfile;
        [|apply lookup_ge_None in Hfile; lia].
      assert (U2 : updated st1 (resume tid t2 st1)
                     r b tid (Build_Task batchId r (S i) AwaitTranscript)).
      { unfold resume. rewrite Ht1. cbn [task_phase task_batch task_i].
        eapply loop_head_skip_updated; try done. left.
        unfold jobs_get. by rewrite J1, Hj. }
      pose proof U2 as (J2 & Hb2 & F2 & Ht2 & T2).
      destruct (IH (S i) _ ts ltac:(lia) Ht2 Hb2 ltac:(by rewrite J2, J1)
                  ltac:(simpl in Hlen; lia)) as (t & i' & Hin & U3).
      exists t, i'. split; [by do 2 right|].
      rewrite !fmap_cons, !run_cons. cbn [step].
      eapply updated_trans; [|exact U3].
      eapply updated_trans; [exact U1|exact U2].
    + destruct ts as [|t1 ts]; [simpl in Hlen; lia|].
      pose proof (resume_last_updated st batchId r i b tid t1 Hb Ht ltac:(lia))
        as U.
      exists t1, (S i). split; [by left|].
      rewrite fmap_cons, run_cons. cbn [step].
      destruct U as (J & Hb' & F & Ht' & T).
      rewrite (resume_returned _ tid batchId r (S i) ts Ht').
      split_and!; done.
Qed.

(** X10.  When the id of a batch is no longer registered while its loop is
    suspended after a file, the loop goes on to its end without doing
    anything: after at most two resumptions per remaining file the
    invocation is over and the batch object is [Completed], with its files
    and its metrics exactly as they were -- the remaining files are never
    sent to a provider and stay as they are. *)
Theorem deleted_batch_is_skipped
    (st : State) (tid : nat) (batchId : string) (r i : nat) (b : BatchJob)
    (ts : list Clock) :
  tasks st !! tid = Some (Build_Task batchId r i AwaitTranscript) →
  heap st !! r = Some b → jobs st !! batchId = None →
  (2 * (length (files b) - i) + 1 ≤ length ts)%nat →
  ∃ t b' i',
    t ∈ ts
    ∧ heap (run (LResume tid <$> ts) st) !! r = Some b'
    ∧ status b' = Completed ∧ completedAt b' = Some (at_end t)
    ∧ files b' = files b ∧ metrics b' = metrics b
    ∧ tasks (run (LResume tid <$> ts) st) !! tid
      = Some (Build_Task batchId r i' Returned)
    ∧ jobs (run (LResume tid <$> ts) st) = jobs st
    ∧ (∀ r0, r0 ≠ r → heap (run (LResume tid <$> ts) st) !! r0 = heap st !! r0).
Proof.
  intros Ht Hb Hj Hlen.
  destruct (skipped_from_transcript batchId r tid b (length (files b) - i) i st
              ts ltac:(lia) Ht Hb Hj Hlen)
    as (t & i' & Hin & (J & Hb' & F & Ht' & _)).
  exists t, (set_completedAt (at_end t) (set_status Completed b)), i'.
  split; [done|]. split; [exact Hb'|]. split_and!; done.
Qed.

Lemma deleted_batch_is_skipped_witness :
  ∃ b', heap (run (LResume 0 <$> (clock_at <$> [24; 2024; 2025; 2026; 2027]))
                demo_deleted)
          !! 0%nat
        = Some b'
        ∧ status b' = Completed
        ∧ pending (metrics b') = 1
        ∧ file_status <$> files b' = [FileCompleted; FilePending].
Proof.
  edestruct (deleted_batch_is_skipped demo_deleted 0 "b1" 0 0)
    as (t & b' & i' & _ & Hb' & Hs & _ & Hf & Hm & _);
    [vm_compute; reflexivity | vm_compute; reflexivity
    | vm_compute; reflexivity | |].
  2: { exists b'. split; [exact Hb'|]. split; [exact Hs|].
       rewrite Hm, Hf. split; vm_compute; reflexivity. }
  vm_compute. lia.
Defined.

(** ** Ids and the registry under disciplined use *)

Lemma disciplined_app ls1 ls2 st :
  disciplined (ls1 ++ ls2) st
  = disciplined ls1 st && disciplined ls2 (run ls1 st).
Proof.
  revert st. induction ls1 as [|l ls1 IH]; intros st; [done|].
  simpl. rewrite IH. by rewrite andb_assoc.
Qed.

(** X11.  A registration changes only by [createBatch] and [deleteBatch]
    under that very id.  Starting, cancelling, the settlements and
    resumptions of the loops -- the completion of a batch included -- and
    every request under another id leave it as it is: a batch that is
    done or cancelled stays registered, with the same object, until it is
    deleted, and an unknown id stays unknown until it is created. *)
Theorem registered_until_deleted
    (ls : list Label) (st : State) (batchId : string) :
  forallb (keeps_registration batchId) ls = true →
  jobs (run ls st) !! batchId = jobs st !! batchId.
Proof.
  revert st. induction ls as [|l ls IH]; intros st Hls; [done|].
  cbn [forallb] in Hls. apply andb_true_iff in Hls as [Hl Hls].
  rewrite run_cons, (IH _ Hls), jobs_step.
  destruct l as [ups cfg id now| | | |id|id]; try done;
    cbn [keeps_registration] in Hl; apply bool_decide_eq_true in Hl.
  - by rewrite lookup_insert_ne.
  - unfold deleteBatch. destruct (jobs_get st id) as [[r0 b0]|]; [|done].
    destruct (bool_decide _); [done|]. cbn [snd jobs].
    by rewrite lookup_delete_ne.
Qed.

Lemma registered_until_deleted_witness :
  jobs (run (LCancel "b1" :: drive 0 [answered] ++ [LDelete "b2"])
          demo_started) !! "b1" = Some 0%nat.
Proof.
  rewrite (registered_until_deleted _ demo_started "b1");
    vm_compute; reflexivity.
Defined.

(** ** The controller's use of the tracker *)

(** A continuation leaves every batch that is still [Created] alone. *)
Lemma continuation_frame l st r b :
  Inv st → is_continuation l = true →
  heap st !! r = Some b → status b = Created →
  heap (step l st) !! r = Some b ∧ jobs (step l st) = jobs st.
Proof.
  intros HI Hl Hb Hs.
  assert (Hl' : (∃ tid o c g now, l = LSettle tid o c g now)
                ∨ (∃ tid now, l = LResume tid now)).
  { destruct l; try done; [left|right]; eauto 10. }
  destruct (task_step_shape l st HI Hl')
    as [->|(r0 & b0 & b' & tid & t & t' & Hb0 & Ht & Hlive & Hr & U & _)];
    [done|].
  destruct U as (J & _ & F & _).
  split; [|done]. rewrite F; [done|]. intros ->.
  destruct (inv_task st HI _ _ Ht Hlive) as (b1 & Hb1 & _ & Hs1 & _).
  rewrite Hr in Hb1. congruence.
Qed.

(** Nor does any other permitted transition that is no start, cancellation
    or deletion of that batch. *)
Lemma leaves_alone_frame l st batchId r b :
  Inv st → permitted l st = true → leaves_alone batchId l = true →
  jobs st !! batchId = Some r → heap st !! r = Some b → status b = Created →
  heap (step l st) !! r = Some b ∧ jobs (step l st) !! batchId = Some r.
Proof.
  intros HI Hp Hl Hj Hb Hs.
  destruct (inv_jobs st HI _ _ Hj) as (b1 & Hb1 & Hid).
  assert (b1 = b) as -> by congruence.
  assert (Hother : ∀ id r0, jobs st !! id = Some r0 → id ≠ batchId → r0 ≠ r).
  { intros id r0 Hj0 Hne ->.
    destruct (inv_jobs st HI _ _ Hj0) as (b2 & Hb2 & Hid2). congruence. }
  destruct l as [ups cfg id now|id now clock|tid o c g now|tid now|id|id].
  - cbn [step createBatch snd heap jobs]. split.
    + by apply lookup_app_l_Some.
    + rewrite lookup_insert_ne; [done|]. intros ->.
      cbn [permitted] in Hp. apply bool_decide_eq_true in Hp.
      by apply (Forall_lookup_1 _ _ _ _ Hp Hb).
  - cbn [leaves_alone] in Hl. apply bool_decide_eq_true in Hl. cbn [step].
    destruct (start_shape id now clock st HI Hp)
      as [->|(r0 & b0 & b' & t' & Hget & Hs0 & U & _)]; [done|].
    destruct U as (J & _ & F & _). rewrite J. split; [|done].
    rewrite F; [done|]. apply jobs_get_Some in Hget as [Hj0 _].
    intros ->. by eapply Hother.
  - destruct (continuation_frame (LSettle tid o c g now) st r b HI eq_refl Hb Hs)
      as [H1 H2].
    split; [done|by rewrite H2].
  - destruct (continuation_frame (LResume tid now) st r b HI eq_refl Hb Hs)
      as [H1 H2].
    split; [done|by rewrite H2].
  - cbn [leaves_alone] in Hl. apply bool_decide_eq_true in Hl.
    cbn [step]. unfold cancelBatch.
    destruct (jobs_get st id) as [[r0 b0]|] eqn:Hget; [|done].
    destruct (_ || _); [done|]. cbn [snd mutate heap jobs]. split; [|done].
    apply jobs_get_Some in Hget as [Hj0 _].
    rewrite list_lookup_alter_ne; [done|]. by eapply Hother.
  - cbn [leaves_alone] in Hl. apply bool_decide_eq_true in Hl.
    cbn [step]. unfold deleteBatch.
    destruct (jobs_get st id) as [[r0 b0]|] eqn:Hget; [|done].
    destruct (bool_decide _); [done|]. cbn [snd heap jobs]. split; [done|].
    by rewrite lookup_delete_ne.
Qed.

Lemma leaves_alone_run mid st batchId r b :
  Inv st → disciplined mid st = true →
  forallb (leaves_alone batchId) mid = true →
  jobs st !! batchId = Some r → heap st !! r = Some b → status b = Created →
  Inv (run mid st)
  ∧ heap (run mid st) !! r = Some b ∧ jobs (run mid st) !! batchId = Some r.
Proof.
  revert st. induction mid as [|l mid IH]; intros st HI Hd Hmid Hj Hb Hs;
    [done|].
  cbn [forallb] in Hmid. apply andb_true_iff in Hmid as [Hl Hmid].
  cbn [disciplined] in Hd. apply andb_true_iff in Hd as [Hp Hd].
  destruct (leaves_alone_frame l st batchId r b HI Hp Hl Hj Hb Hs) as [Hb1 Hj1].
  destruct (Inv_step l st HI Hp) as [HI1 _].
  rewrite run_cons. by apply IH.
Qed.

(** A batch created under a fresh id and started once the call of
    [createBatch] has returned, whatever else runs in between. *)
Lemma create_then_start st mid ups cfg batchId now now' clock :
  Inv st → permitted (LCreate ups cfg batchId now) st = true →
  forallb (leaves_alone batchId) mid = true →
  disciplined mid (step (LCreate ups cfg batchId now) st) = true →
  disciplined
    (LCreate ups cfg batchId now :: mid ++ [LStart batchId now' clock]) st
  = true
  ∧ ∃ r, jobs_get
           (run (LCreate ups cfg batchId now
                 :: mid ++ [LStart batchId now' clock]) st)
           batchId
         = Some (r, started_batch batchId ups cfg now now' clock).
Proof.
  intros HI Hfresh Hmid Hdm.
  destruct (Inv_step _ _ HI Hfresh) as [HI1 _].
  set (st1 := step (LCreate ups cfg batchId now) st) in *.
  pose proof (createBatch_get ups cfg batchId now st) as Hget.
  fold (step (LCreate ups cfg batchId now) st) in Hget.
  fold st1 in Hget. set (r := length (heap st)) in *.
  set (nb := new_batch batchId ups cfg now) in *.
  apply jobs_get_Some in Hget as [Hj Hb].
  destruct (leaves_alone_run mid st1 batchId r nb HI1 Hdm Hmid Hj Hb eq_refl)
    as (HIm & Hbm & Jm).
  set (st2 := run mid st1) in *.
  assert (Hget2 : jobs_get st2 batchId = Some (r, nb)).
  { by apply jobs_get_Some. }
  split.
  - cbn [disciplined]. rewrite Hfresh. cbn [andb]. fold st1.
    rewrite disciplined_app, Hdm. fold st2.
    cbn [andb disciplined permitted]. rewrite Hget2.
    by rewrite bool_decide_true.
  - rewrite run_cons. fold st1. rewrite run_app. fold st2.
    cbn [run foldl step].
    rewrite (startProcessing_unfold batchId now' clock st2 r nb cfg Hget2 eq_refl).
    cbn [snd].
    pose proof (spawn_updated st2 r
                  (λ b, set_startedAt now' (set_status Processing b)) nb
                  (Build_Task batchId r 0 AwaitTranscript) Hbm) as U0.
    pose proof U0 as (J0 & Hb0 & _ & Ht0 & _).
    exists r. unfold started_batch. fold nb.
    destruct ups as [|u ups].
    + destruct (loop_head_done_updated _ batchId r 0 AwaitTranscript _
                  (length (tasks st2)) _ clock Hb0 Ht0 ltac:(simpl; lia))
        as (J1 & Hb1 & _).
      apply jobs_get_Some. split; [|exact Hb1]. by rewrite J1, J0.
    + destruct (loop_head_begin_updated _ batchId r 0 AwaitTranscript _ cfg
                  (new_file u) (length (tasks st2)) _ clock
                  ltac:(by rewrite J0) Hb0 eq_refl Ht0 eq_refl)
        as (J1 & Hb1 & _).
      apply jobs_get_Some. split; [|exact Hb1]. by rewrite J1, J0.
Qed.

(** X12.  The controller creates a batch under a fresh id and calls
    [startProcessing] on it once [createBatch] has returned.  Whatever
    runs in between -- continuations of other invocations, requests on
    other batches -- as long as nothing starts, cancels or deletes the new
    batch, it is still [Created] when the call comes, so the whole run
    stays disciplined; after the call the batch is registered with [total]
    the number of uploads, [Processing] if it has a file and [Completed]
    if it has none. *)
Theorem controller_start_is_disciplined
    (ls mid : list Label) (ups : list Upload) (cfg : JobConfig)
    (batchId : string) (now now' : Z) (clock : Clock) :
  disciplined ls initial = true →
  permitted (LCreate ups cfg batchId now) (run ls initial) = true →
  forallb (leaves_alone batchId) mid = true →
  disciplined mid (run (ls ++ [LCreate ups cfg batchId now]) initial) = true →
  let ls' := (ls ++ LCreate ups cfg batchId now :: mid
                 ++ [LStart batchId now' clock])%list in
  disciplined ls' initial = true
  ∧ ∃ r b, jobs_get (run ls' initial) batchId = Some (r, b)
           ∧ status b = (if ups is [] then Completed else Processing)
           ∧ total (metrics b) = Z.of_nat (length ups)
           ∧ jobConfig b = Some cfg.
Proof.
  intros Hd Hfresh Hmid Hdm ls'. rewrite run_snoc in Hdm.
  destruct (create_then_start (run ls initial) mid ups cfg batchId now now' clock
              (Inv_run ls Hd) Hfresh Hmid Hdm) as (Hd' & r & Hget).
  unfold ls'. rewrite disciplined_app, Hd, run_app. split; [done|].
  eexists r, _. split; [exact Hget|].
  unfold started_batch. destruct ups as [|u ups]; [done|].
  split_and!; try done. simpl. by rewrite length_fmap.
Qed.

Lemma controller_start_is_disciplined_witness :
  disciplined
    ([LCreate [demo_upload "a.txt"] demo_config "b1" 10; LStart "b1" 11 (clock_at 12)]
     ++ LCreate [demo_upload "c.txt"] demo_config "b2" 20
        :: [LSettle 0 (reply_openai answered) (reply_claude answered)
              (reply_gemini answered) 23; LCancel "b1"]
     ++ [LStart "b2" 25 (clock_at 26)]) initial = true.
Proof.
  eapply (controller_start_is_disciplined
            [LCreate [demo_upload "a.txt"] demo_config "b1" 10; LStart "b1" 11 (clock_at 12)]
            [LSettle 0 (reply_openai answered) (reply_claude answered)
               (reply_gemini answered) 23; LCancel "b1"]);
    vm_compute; reflexivity.
Defined.

(** ** The upload route *)

Lemma filter_length_Exists {A} (P : A → Prop) `{!∀ x, Decision (P x)}
    (l : list A) :
  length (filter P l) ≠ 0%nat ↔ Exists P l.
Proof.
  induction l as [|x l IH].
  - split; [done|]. by intros ?%Exists_nil.
  - rewrite Exists_cons. destruct (decide (P x)) as [Hx|Hx].
    + rewrite filter_cons_True by done. simpl. split; [by left|done].
    + rewrite filter_cons_False by done. rewrite IH.
      split; [by right|by intros [?|?]].
Qed.

Lemma read_files_files read k files ups :
  read_files read k files = Some ups → up_file <$> ups = files.
Proof.
  revert k ups. induction files as [|file files IH]; intros k ups; simpl.
  - by intros [= <-].
  - destruct (read k) as [[[content id] now]|]; [|done].
    destruct (read_files read (S k) files) as [ups'|] eqn:Hr; [|done].
    simpl. intros [= <-]. rewrite fmap_cons. cbn [up_file].
    by rewrite (IH _ _ Hr).
Qed.

(** What an accepted request looks like, and what the handler does with
    it. *)
Lemma processTranscripts_200 js env req d :
  response (processTranscripts js env req) = Status200 d →
  ∃ fs jd p o c g ups,
    req_files req = Some fs
    ∧ req_jobDescription req = Text jd ∧ jd ≠ ""
    ∧ (20 ≤ js_length js (js_trim js jd))%nat
    ∧ req_prompt req = Text p ∧ p ≠ ""
    ∧ (20 ≤ js_length js (js_trim js p))%nat
    ∧ req_openaiModel req = Text o ∧ o ≠ ""
    ∧ req_claudeModel req = Text c ∧ c ≠ ""
    ∧ req_geminiModel req = Text g ∧ g ≠ ""
    ∧ length (filter (λ file,
                mimetype file = "text/plain"
                ∨ js_endsWith js (js_toLowerCase js (originalname file)) ".txt"
                  = true) fs) ≠ 0%nat
    ∧ read_files (env_read env) 0
        (filter (λ file,
                   mimetype file = "text/plain"
                   ∨ js_endsWith js (js_toLowerCase js (originalname file))
                       ".txt" = true) fs) = Some ups
    ∧ d = {| pd_batchId := env_batchId env;
             pd_totalFiles := length ups;
             pd_status := "processing";
             pd_message :=
               "Processing " ++ pretty (length ups)
               ++ " transcript file(s) with multiple AI models" |}
    ∧ calls (processTranscripts js env req)
      = [CallCreateBatch (up_file <$> ups)
           {| jobDescription := js_trim js jd; prompt := js_trim js p;
              models := {| models_openai := js_trim js o;
                           models_claude := js_trim js c;
                           models_gemini := js_trim js g |} |};
         CallStartProcessing (env_batchId env)]
    ∧ transitions (processTranscripts js env req)
      = [LCreate ups
           {| jobDescription := js_trim js jd; prompt := js_trim js p;
              models := {| models_openai := js_trim js o;
                           models_claude := js_trim js c;
                           models_gemini := js_trim js g |} |}
           (env_batchId env) (env_created env);
         LStart (env_batchId env) (env_started env) (env_clock env)].
Proof.
  unfold processTranscripts.
  destruct (req_files req) as [[|f0 fs]|]; [done| |done].
  case_bool_decide as Hlen; [done|].
  destruct (req_jobDescription req) as [|jd|]; cbn [falsy trim]; [done| |done].
  case_bool_decide as Hjd; [done|]. case_bool_decide as Hjdl; [done|].
  destruct (req_prompt req) as [|p|]; cbn [falsy trim]; [done| |done].
  case_bool_decide as Hp; [done|]. case_bool_decide as Hpl; [done|].
  destruct (req_openaiModel req) as [|o|]; cbn [falsy trim orb]; try done;
    destruct (req_claudeModel req) as [|c|]; cbn [falsy trim orb]; try done;
    destruct (req_geminiModel req) as [|g|]; cbn [falsy trim orb]; try done;
    repeat case_bool_decide; cbn [orb]; try done.
  destruct (read_files _ _ _) as [ups|] eqn:Hread; [|done].
  pose proof (read_files_files _ _ _ _ Hread) as Hfiles.
  cbn [response calls transitions]. intros [= <-].
  exists (f0 :: fs), jd, p, o, c, g, ups.
  split_and!; try done; try lia.
  - by rewrite <- Hfiles, length_fmap.
  - by rewrite Hfiles.
Qed.

(** X13.  The handler answers 200 exactly for the requests with at least
    one file that is a text file by its type or its name, a job
    description and a prompt that are strings of at least 20 characters
    once trimmed, three model names that are non-empty strings (they are
    not trimmed before the test), and files that can all be read.  It has
    then called [createBatch] on the text files, in their order and with
    the trimmed texts as configuration, and [startProcessing] on the id it
    got, which registers and starts one batch.  It answers 400 before any
    call on the processor.  It answers 500 either before any call (a field
    that is no string) or after a call of [createBatch] that rejected
    because a file could not be read; in both cases the tracker makes no
    transition: nothing is registered. *)
Theorem upload_accepted_iff (js : JsString) (env : UploadEnv) (req : UploadRequest) :
  ((∃ d, response (processTranscripts js env req) = Status200 d)
   ↔ acceptable js env req)
  ∧ match response (processTranscripts js env req) with
    | Status200 d =>
        ∃ fs ups cfg,
          req_files req = Some fs
          ∧ up_file <$> ups
            = filter (λ file,
                        mimetype file = "text/plain"
                        ∨ js_endsWith js (js_toLowerCase js (originalname file))
                            ".txt" = true) fs
          ∧ pd_totalFiles d = length ups
          ∧ trim js (req_jobDescription req) = Some (jobDescription cfg)
          ∧ trim js (req_prompt req) = Some (prompt cfg)
          ∧ trim js (req_openaiModel req) = Some (models_openai (models cfg))
          ∧ trim js (req_claudeModel req) = Some (models_claude (models cfg))
          ∧ trim js (req_geminiModel req) = Some (models_gemini (models cfg))
          ∧ calls (processTranscripts js env req)
            = [CallCreateBatch (up_file <$> ups) cfg;
               CallStartProcessing (pd_batchId d)]
          ∧ transitions (processTranscripts js env req)
            = [LCreate ups cfg (pd_batchId d) (env_created env);
               LStart (pd_batchId d) (env_started env) (env_clock env)]
    | Status400 _ =>
        calls (processTranscripts js env req) = []
        ∧ transitions (processTranscripts js env req) = []
    | Status500 _ =>
        transitions (processTranscripts js env req) = []
        ∧ (calls (processTranscripts js env req) = []
           ∨ ∃ fs cfg,
               calls (processTranscripts js env req) = [CallCreateBatch fs cfg]
               ∧ read_files (env_read env) 0 fs = None)
    end.
Proof.
  split; [split|].
  - intros [d Hd].
    destruct (processTranscripts_200 js env req d Hd)
      as (fs & jd & p & o & c & g & ups & Hf & Hjd & Hjd0 & Hjdl & Hp & Hp0
          & Hpl & Ho & Ho0 & Hc & Hc0 & Hg & Hg0 & Hlen & Hread & _).
    exists fs. rewrite Hread. split_and!; try done.
    + exact (proj1 (filter_length_Exists _ _) Hlen).
    + by exists jd.
    + by exists p.
    + by exists o.
    + by exists c.
    + by exists g.
  - intros (fs & Hf & Hex & (jd & Hjd & Hjd0 & Hjdl) & (p & Hp & Hp0 & Hpl)
            & (o & Ho & Ho0) & (c & Hc & Hc0) & (g & Hg & Hg0) & [ups Hread]).
    pose proof (proj2 (filter_length_Exists _ _) Hex) as Hlen.
    unfold processTranscripts. rewrite Hf.
    destruct fs as [|f0 fs]; [done|].
    rewrite (bool_decide_false _ Hlen).
    rewrite Hjd, Hp, Ho, Hc, Hg. cbn [falsy trim].
    rewrite !(bool_decide_false (_ = "")) by done. cbn [orb].
    rewrite !(bool_decide_false (_ < 20)%nat) by lia.
    rewrite Hread. by eexists.
  - destruct (response (processTranscripts js env req)) as [d|e|e] eqn:E.
    + destruct (processTranscripts_200 js env req d E)
        as (fs & jd & p & o & c & g & ups & Hf & Hjd & Hjd0 & Hjdl & Hp & Hp0
            & Hpl & Ho & Ho0 & Hc & Hc0 & Hg & Hg0 & Hlen & Hread & -> & Hcalls
            & Htrans).
      exists fs, ups,
        {| jobDescription := js_trim js jd; prompt := js_trim js p;
           models := {| models_openai := js_trim js o;
                        models_claude := js_trim js c;
                        models_gemini := js_trim js g |} |}.
      rewrite Hjd, Hp, Ho, Hc, Hg.
      split_and!; try done. by eapply read_files_files.
    + revert E. unfold processTranscripts.
      repeat (case_match; try done).
    + revert E. unfold processTranscripts.
      repeat (case_match; try done); intros _; (split; [done|]);
        first [by left | right; eexists _, _; split; [reflexivity|done]].
Qed.

Lemma upload_accepted_iff_witness : acceptable demo_js demo_env demo_request.
Proof.
  apply (upload_accepted_iff demo_js demo_env demo_request).
  eexists. vm_compute. reflexivity.
Defined.

Lemma filter_new_processing ups :
  filter (λ f, file_status f = FileProcessing) (new_file <$> ups) = [].
Proof.
  induction ups as [|u ups IH]; [done|].
  rewrite fmap_cons, filter_cons_False by done. exact IH.
Qed.

(** X14.  The 200 response tells the truth about the tracker.  When the id
    drawn for the batch is fresh, the tracker has been used with
    discipline so far, and nothing starts, cancels or deletes the new
    batch before the handler starts it, then after the two transitions the
    handler's calls lead to the use of the tracker is still disciplined and
    a progress query under the returned id reports what the response said:
    the status [Processing] and [totalFiles] as total, with the first file
    in progress and the others pending. *)
Theorem upload_response_agrees
    (js : JsString) (env : UploadEnv) (req : UploadRequest)
    (ls mid : list Label) (d : ProcessData) (l1 l2 : Label) :
  disciplined ls initial = true →
  Forall (λ b, batch_id b ≠ env_batchId env) (heap (run ls initial)) →
  response (processTranscripts js env req) = Status200 d →
  transitions (processTranscripts js env req) = [l1; l2] →
  forallb (leaves_alone (pd_batchId d)) mid = true →
  disciplined mid (run (ls ++ [l1]) initial) = true →
  let ls' := (ls ++ l1 :: mid ++ [l2])%list in
  disciplined ls' initial = true
  ∧ ∃ p, getBatchProgress (pd_batchId d) (run ls' initial) = Some p
         ∧ bp_batchId p = pd_batchId d
         ∧ bp_status p = Processing
         ∧ total (bp_metrics p) = Z.of_nat (pd_totalFiles d)
         ∧ pending (bp_metrics p) = Z.of_nat (pd_totalFiles d) - 1
         ∧ processing (bp_metrics p) = 1
         ∧ length (bp_processing p) = 1%nat.
Proof.
  intros Hd Hfresh E Etrans Hmid Hdm ls'.
  destruct (processTranscripts_200 js env req d E)
    as (fs & jd & p & o & c & g & ups & Hf & _ & _ & _ & _ & _ & _ & _ & _
        & _ & _ & _ & _ & Hlen & Hread & -> & _ & Htrans).
  rewrite Htrans in Etrans. injection Etrans as <- <-.
  cbn [pd_batchId pd_totalFiles] in *.
  pose proof (read_files_files _ _ _ _ Hread) as Hfiles.
  assert (Hups : ups ≠ []).
  { intros ->. by rewrite <- Hfiles in Hlen. }
  rewrite run_snoc in Hdm.
  match type of Hdm with
  | disciplined mid (step (LCreate ups ?cfg _ _) _) = true =>
      destruct (create_then_start (run ls initial) mid ups cfg
                  (env_batchId env) (env_created env) (env_started env)
                  (env_clock env)
                  (Inv_run ls Hd) ltac:(by apply bool_decide_eq_true) Hmid Hdm)
        as (Hd' & r & Hget)
  end.
  unfold ls'. rewrite disciplined_app, Hd, run_app. split; [done|].
  unfold getBatchProgress. rewrite Hget. eexists. split; [done|].
  unfold started_batch. destruct ups as [|u ups]; [done|].
  cbn [bp_batchId bp_status bp_metrics bp_processing].
  split_and!; try done.
  - simpl. by rewrite length_fmap.
  - cbn [after_begin on_metrics set_metrics metrics begin_metrics pending
         set_startedAt set_status new_batch on_file set_files].
    rewrite length_fmap. cbn [length]. lia.
  - rewrite length_fmap.
    cbn [after_begin on_metrics set_metrics metrics on_file set_files files
         set_startedAt set_status new_batch].
    rewrite fmap_cons. cbn [alter list_alter].
    rewrite filter_cons_True by done.
    by rewrite filter_new_processing.
Qed.

Lemma upload_response_agrees_witness :
  ∃ p, getBatchProgress "b7"
         (run ([LCreate [demo_upload "a.txt"] demo_config "b1" 10;
                LStart "b1" 11 (clock_at 12)]
               ++ transitions (processTranscripts demo_js demo_env demo_request))
            initial) = Some p
       ∧ bp_status p = Processing ∧ total (bp_metrics p) = 1.
Proof.
  destruct (upload_response_agrees demo_js demo_env demo_request
              [LCreate [demo_upload "a.txt"] demo_config "b1" 10;
               LStart "b1" 11 (clock_at 12)] [] _ _ _
              ltac:(vm_compute; reflexivity)
              ltac:(repeat constructor; by vm_compute)
              ltac:(vm_compute; reflexivity) ltac:(vm_compute; reflexivity)
              ltac:(reflexivity) ltac:(vm_compute; reflexivity))
    as (_ & p & Hp & _ & Hs & Ht & _).
  exists p. split; [exact Hp|]. split; [exact Hs|exact Ht].
Defined.

(** X15.  The handler tests the files again with the condition of the
    upload filter.  For a request whose files the filter has all stored,
    the test removes nothing: the handler never answers "No valid TXT
    files found", and the [totalFiles] of a 200 response is the number of
    files of the request. *)
Theorem stored_files_pass
    (js : JsString) (env : UploadEnv) (req : UploadRequest)
    (files : list MulterFile) :
  req_files req = Some files →
  Forall (λ file, fileFilter js file = Stored) files →
  response (processTranscripts js env req)
  ≠ Status400 "No valid TXT files found"
  ∧ ∀ d, response (processTranscripts js env req) = Status200 d →
         pd_totalFiles d = length files.
Proof.
  intros Hf Hall.
  assert (Hfilter : filter (λ file,
             mimetype file = "text/plain"
             ∨ js_endsWith js (js_toLowerCase js (originalname file)) ".txt"
               = true) files = files).
  { clear Hf. induction Hall as [|file files Hfile _ IH]; [done|].
    unfold fileFilter in Hfile. case_decide as Hc; [|done].
    by rewrite filter_cons_True, IH by done. }
  split.
  - unfold processTranscripts. rewrite Hf.
    destruct files as [|f0 files]; [done|].
    rewrite Hfilter. rewrite bool_decide_false by done.
    repeat (case_match; try done).
  - intros d Hd.
    destruct (processTranscripts_200 js env req d Hd)
      as (files' & jd & p & o & c & g & ups & Hf' & _ & _ & _ & _ & _ & _ & _
          & _ & _ & _ & _ & _ & _ & Hread & -> & _).
    assert (files' = files) as -> by congruence.
    rewrite Hfilter in Hread. cbn [pd_totalFiles].
    by rewrite <- (read_files_files _ _ _ _ Hread), length_fmap.
Qed.

Lemma stored_files_pass_witness :
  response (processTranscripts demo_js demo_env
     {| req_files := Some [up_file (demo_upload "a.txt")];
        req_jobDescription := Missing; req_prompt := Missing;
        req_openaiModel := Missing; req_claudeModel := Missing;
        req_geminiModel := Missing |})
  ≠ Status400 "No valid TXT files found".
Proof.
  eapply (stored_files_pass demo_js demo_env _ [up_file (demo_upload "a.txt")]).
  - reflexivity.
  - repeat constructor.
Defined.

(** ** What the status of a file says, and whose results it holds *)

Lemma coherent_new u : coherent (new_file u).
Proof. by repeat split. Qed.

Lemma coherent_begin f :
  fresh_file f → coherent f → coherent (set_file_status FileProcessing f).
Proof. intros (Hs & _) H. unfold coherent in *. by rewrite Hs in H. Qed.

Lemma settle_file_results r0 r1 r2 now f :
  no_results f →
  results (settle_file r0 r1 r2 now f)
  = {| openai := store r0 None; claude := store r1 None;
       gemini := store r2 None |}
  ∧ originalFile (settle_file r0 r1 r2 now f) = originalFile f.
Proof.
  intros (F1 & F2 & F3). unfold settle_file. rewrite F1, F2, F3.
  by destruct (bool_decide _).
Qed.

Lemma coherent_settle r0 r1 r2 now f :
  file_status f = FileProcessing → coherent f →
  coherent (settle_file r0 r1 r2 now f).
Proof.
  intros Hs H. unfold coherent in H. rewrite Hs in H.
  destruct H as ((F1 & F2 & F3) & He & _).
  unfold coherent, settle_file, some_result, no_results, timed.
  rewrite F1, F2, F3.
  destruct r0 as [v0|e0], r1 as [v1|e1], r2 as [v2|e2];
    cbn [successCount filter list_filter fulfilled length bool_decide
         decide_rel store set_results set_file_status set_error set_progress
         file_status results error progress openai claude gemini
         processingEnd totalDuration startTime];
    simpl; (split_and!; [..|by eexists]; try done);
    first [left; by eexists | right; left; by eexists
          | right; right; by eexists].
Qed.

Lemma or_no_analysis_nonempty x : or_no_analysis x ≠ "".
Proof. destruct x as [s|]; simpl; [|done]. by case_decide. Qed.

Lemma attributed_settle cfg t0 x now f :
  no_results f →
  results_attributed cfg
    (settle_file
       (settled_openai (models cfg) (originalname (originalFile f)) t0 x)
       (settled_claude (models cfg) (originalname (originalFile f)) t0 x)
       (settled_gemini (models cfg) (originalname (originalFile f)) t0 x)
       now f).
Proof.
  intros Hno. unfold results_attributed.
  destruct (settle_file_results
              (settled_openai (models cfg) (originalname (originalFile f)) t0 x)
              (settled_claude (models cfg) (originalname (originalFile f)) t0 x)
              (settled_gemini (models cfg) (originalname (originalFile f)) t0 x)
              now f Hno) as [-> ->].
  cbn [openai claude gemini].
  unfold settled_openai, settled_claude, settled_gemini.
  split_and!; intros a.
  - destruct (reply_openai x); simpl; [|done]. intros [= <-].
    split_and!; try done. apply or_no_analysis_nonempty.
  - destruct (reply_claude x); simpl; [|done]. by intros [= <-].
  - destruct (reply_gemini x); simpl; [|done]. by intros [= <-].
Qed.

Lemma attributed_same cfg f f' :
  results f' = results f → originalFile f' = originalFile f →
  results_attributed cfg f → results_attributed cfg f'.
Proof. intros E1 E2. unfold results_attributed. by rewrite E1, E2. Qed.

Lemma batch_ok3_same b b' :
  batch_ok3 b → files b' = files b → jobConfig b' = jobConfig b → batch_ok3 b'.
Proof.
  intros [H1 H2] Ef Ec. unfold batch_ok3, files_coherent, batch_attributed.
  by rewrite Ef, Ec.
Qed.

Lemma batch_ok3_new batchId ups cfg now :
  batch_ok3 (new_batch batchId ups cfg now).
Proof.
  split.
  - intros j f Hf. cbn [new_batch files] in Hf.
    rewrite list_lookup_fmap in Hf. destruct (ups !! j); [|done].
    injection Hf as <-. apply coherent_new.
  - intros cfg' j f _ Hf. cbn [new_batch files] in Hf.
    rewrite list_lookup_fmap in Hf. destruct (ups !! j); [|done].
    injection Hf as <-. by repeat split.
Qed.

Lemma batch_ok3_begin (i : nat) b f :
  batch_ok3 b → files b !! i = Some f → fresh_file f →
  batch_ok3 (after_begin i b).
Proof.
  intros [H1 H2] Hf Hfresh.
  assert (Hlook : ∀ j : nat, files (after_begin i b) !! j
            = if decide (i = j) then Some (set_file_status FileProcessing f)
              else files b !! j).
  { intros j. cbn [after_begin on_metrics set_metrics on_file set_files files].
    rewrite list_lookup_alter. case_decide; [subst; by rewrite Hf|done]. }
  split.
  - intros j f' Hf'. rewrite Hlook in Hf'. case_decide as E.
    + injection Hf' as <-. apply coherent_begin; [done|by eapply H1].
    + by eapply H1.
  - intros cfg j f' Hcfg Hf'. rewrite Hlook in Hf'. case_decide as E.
    + injection Hf' as <-. apply (attributed_same cfg f); try done.
      by eapply H2.
    + by eapply H2.
Qed.

Lemma batch_ok3_settle cfg t0 x (i : nat) b f :
  batch_ok3 b → jobConfig b = Some cfg → files b !! i = Some f →
  file_status f = FileProcessing →
  batch_ok3 (after_settle (models cfg) (originalname (originalFile f)) t0 x i b).
Proof.
  intros [H1 H2] Hcfg Hf Hs.
  set (name := originalname (originalFile f)).
  set (r0 := settled_openai (models cfg) name t0 x).
  set (r1 := settled_claude (models cfg) name t0 x).
  set (r2 := settled_gemini (models cfg) name t0 x).
  assert (Hlook : ∀ j : nat,
            files (after_settle (models cfg) name t0 x i b) !! j
            = if decide (i = j)
              then Some (settle_file r0 r1 r2 (settled_at x) f)
              else files b !! j).
  { intros j. cbn [after_settle on_metrics set_metrics on_file set_files files].
    rewrite list_lookup_alter. case_decide; [subst; by rewrite Hf|done]. }
  pose proof (H1 _ _ Hf) as Hc.
  assert (Hno : no_results f).
  { unfold coherent in Hc. rewrite Hs in Hc. by destruct Hc. }
  split.
  - intros j f' Hf'. rewrite Hlook in Hf'. case_decide as E.
    + injection Hf' as <-. by apply coherent_settle.
    + by eapply H1.
  - intros cfg' j f' Hcfg' Hf'.
    change (jobConfig (after_settle (models cfg) name t0 x i b))
      with (jobConfig b) in Hcfg'.
    rewrite Hlook in Hf'. case_decide as E.
    + injection Hf' as <-. assert (cfg' = cfg) as -> by congruence.
      by apply attributed_settle.
    + by eapply H2.
Qed.

Lemma Inv3_initial : Inv3 initial.
Proof. split; intros *; simpl; done. Qed.

Lemma Inv3_updated st st' r b' tid t' :
  Inv3 st → updated st st' r b' tid t' →
  batch_ok3 b' → task_batch t' = r →
  call_ok (task_phase t') (task_i t') b' →
  (∀ tid0 t0, tasks st !! tid0 = Some t0 → tid0 ≠ tid → live t0 →
     task_batch t0 ≠ r) →
  Inv3 st'.
Proof.
  intros [IB IT] (J & Hb' & Hframe & Ht' & Tframe) Hok Hr Hcall Hothers.
  split.
  - intros r0 b0 H0. destruct (decide (r0 = r)) as [->|Hne].
    + rewrite Hb' in H0. by injection H0 as <-.
    + rewrite Hframe in H0 by done. by eapply IB.
  - intros tid0 t0 b0 H0 Hb0. destruct (decide (tid0 = tid)) as [->|Hne].
    + rewrite Ht' in H0. injection H0 as <-. rewrite Hr, Hb' in Hb0.
      by injection Hb0 as <-.
    + rewrite Tframe in H0 by done.
      destruct (task_phase t0) as [r1 ms name t1| | |] eqn:Hph; try done.
      assert (Hl : live t0) by (unfold live; by rewrite Hph).
      rewrite Hframe in Hb0 by (by eapply Hothers).
      pose proof (IT _ _ _ H0 Hb0) as Hc. by rewrite Hph in Hc.
Qed.

Lemma Inv3_loop_move r batchId (i : nat) b0 b' t' :
  loop_move r batchId i b0 b' t' → batch_ok3 b0 →
  (∀ (j : nat) f, files b0 !! j = Some f → (i ≤ j)%nat → fresh_file f) →
  batch_ok3 b' ∧ task_batch t' = r ∧ call_ok (task_phase t') (task_i t') b'.
Proof.
  intros M Hok Hfresh.
  destruct M as [now Hi|Hi|cfg file now Hcfg Hfile].
  - done.
  - done.
  - split_and!; try done.
    + apply (batch_ok3_begin i b0 file); try done. by eapply Hfresh.
    + cbn [task_phase task_i call_ok]. exists cfg, (set_file_status FileProcessing file).
      split_and!; try done.
      cbn [after_begin on_metrics set_metrics on_file set_files files].
      by rewrite list_lookup_alter, decide_True, Hfile.
Qed.

Lemma Inv3_task_step l st :
  Inv st → Inv2 st → Inv3 st →
  (∃ tid o c g now, l = LSettle tid o c g now) ∨ (∃ tid now, l = LResume tid now) →
  Inv3 (step l st).
Proof.
  intros HI HI2 HI3 Hl.
  destruct (task_step_shape l st HI Hl)
    as [->|(r & b & b' & tid & t & t' & Hb & Ht & Hl' & Hr & U & M)]; [done|].
  destruct (inv_task st HI _ _ Ht Hl') as (b1 & Hb1 & Hid & Hs1 & Hs2 & Hph).
  rewrite Hr in Hb1. assert (b1 = b) as -> by congruence.
  destruct (inv2_task st HI2 _ _ Ht Hl') as (b1 & Hb1' & Hpos).
  rewrite Hr in Hb1'. assert (b1 = b) as -> by congruence.
  pose proof (inv3_batch st HI3 _ _ Hb) as Hok.
  pose proof (inv3_task st HI3 _ _ b Ht ltac:(by rewrite Hr)) as Hcall.
  pose proof (Inv_others st tid t HI Ht Hl') as Hothers. rewrite Hr in Hothers.
  destruct M as [batchId i ms name t0 x b|batchId i b Hi
                |batchId i b b' t' Hi M|batchId i b b' t' M];
    cbn [task_phase task_i task_batch] in *.
  - destruct Hpos as [(f & Hf & F1 & _) _].
    destruct Hcall as (cfg & f0 & Hcfg & Hf0 & -> & ->).
    assert (f0 = f) as -> by congruence.
    pose proof (batch_ok3_settle cfg t0 x i b f Hok Hcfg Hf F1) as H1.
    by eapply (Inv3_updated st _ r _ tid _ HI3 U).
  - by eapply (Inv3_updated st _ r _ tid _ HI3 U).
  - destruct (Inv3_loop_move r batchId (S i) b b' t' M Hok) as (H1 & H2 & H3).
    { intros j f Hf Hj. eapply Hpos; [done|lia]. }
    by eapply (Inv3_updated st _ r _ tid _ HI3 U).
  - destruct (Inv3_loop_move r batchId (S i) b b' t' M Hok) as (H1 & H2 & H3).
    { intros j f Hf Hj. eapply Hpos; [done|lia]. }
    by eapply (Inv3_updated st _ r _ tid _ HI3 U).
Qed.

Lemma Inv3_start st batchId now clock :
  Inv st → Inv2 st → Inv3 st → permitted (LStart batchId now clock) st = true →
  Inv3 (startProcessing batchId now clock st).2.
Proof.
  intros HI HI2 HI3 Hperm.
  destruct (start_shape batchId now clock st HI Hperm)
    as [->|(r & b & b' & t' & Hget & Hs & U & M)]; [done|].
  apply jobs_get_Some in Hget as [Hj Hb].
  destruct (inv2_batch st HI2 _ _ Hb) as (_ & _ & Hcr & _).
  assert (Hok0 : batch_ok3 (set_startedAt now (set_status Processing b))).
  { apply (batch_ok3_same b); try done. by eapply (inv3_batch st HI3). }
  destruct (Inv3_loop_move r batchId 0 _ b' t' M Hok0) as (H1 & H2 & H3).
  { intros j f Hf _. by eapply Hcr. }
  eapply (Inv3_updated st _ r _ _ _ HI3 U); try done.
  intros tid0 t0 Ht0 _ Hl0 E.
  destruct (inv_task st HI _ _ Ht0 Hl0) as (b0 & Hb0 & _ & Hs0 & _).
  rewrite E in Hb0. congruence.
Qed.

Lemma call_ok_same ph i b b' :
  files b' = files b → jobConfig b' = jobConfig b →
  call_ok ph i b → call_ok ph i b'.
Proof. intros E1 E2. unfold call_ok. by rewrite E1, E2. Qed.

Lemma Inv3_step l st :
  Inv st → Inv2 st → Inv3 st → permitted l st = true → Inv3 (step l st).
Proof.
  intros HI HI2 HI3 Hperm.
  destruct l as [ups cfg batchId now|batchId now clock|tid o c g now|tid now
                 |batchId|batchId].
  - destruct HI3 as [IB IT]. split; cbn [step createBatch snd heap tasks].
    + intros r b Hb. apply lookup_app_Some in Hb as [Hb|[_ Hb]].
      * by eapply IB.
      * apply list_lookup_singleton_Some in Hb as [_ <-]. apply batch_ok3_new.
    + intros tid t b Ht Hb.
      destruct (task_phase t) as [r1 ms name t1| | |] eqn:Hph; try done.
      assert (Hl : live t) by (unfold live; by rewrite Hph).
      destruct (inv_task st HI _ _ Ht Hl) as (b0 & Hb0 & _).
      rewrite (lookup_app_l_Some _ _ _ _ Hb0) in Hb. injection Hb as <-.
      pose proof (IT _ _ _ Ht Hb0) as Hc. by rewrite Hph in Hc.
  - by apply Inv3_start.
  - apply Inv3_task_step; try done. left. by exists tid, o, c, g, now.
  - apply Inv3_task_step; try done. right. by exists tid, now.
  - cbn [step]. unfold cancelBatch.
    destruct (jobs_get st batchId) as [[r b]|] eqn:Hget; [|done].
    destruct (bool_decide (status b = Completed)
              || bool_decide (status b = Cancelled)); [done|].
    cbn [snd]. destruct HI3 as [IB IT]. split.
    + intros r0 b0. rewrite mutate_lookup. case_decide as E.
      * destruct (heap st !! r0) as [b1|] eqn:Hb1; [|done]. intros [= <-].
        apply (batch_ok3_same b1); try done. by eapply IB.
      * by apply IB.
    + intros tid t b0 Ht. cbn [tasks mutate] in Ht.
      rewrite mutate_lookup. case_decide as E.
      * destruct (heap st !! task_batch t) as [b1|] eqn:Hb1; [|done].
        intros [= <-]. apply (call_ok_same _ _ b1); try done.
        by eapply (IT tid).
      * by apply (IT tid).
  - cbn [step]. unfold deleteBatch.
    destruct (jobs_get st batchId) as [[r b]|]; [|done].
    destruct (bool_decide _); [done|]. cbn [snd].
    destruct HI3 as [IB IT]. by split.
Qed.

Lemma Inv3_run ls : disciplined ls initial = true → Inv3 (run ls initial).
Proof.
  induction ls as [|l ls IH] using rev_ind; intros Hd.
  - apply Inv3_initial.
  - rewrite disciplined_snoc in Hd. apply andb_true_iff in Hd as [Hd Hp].
    rewrite run_snoc.
    apply Inv3_step; [by apply Inv_run|by apply Inv2_run|by apply IH|done].
Qed.

(** X17.  Under disciplined use the status of a file tells what its record
    holds, in every reachable state: a file that is [FilePending] or
    [FileProcessing] has no result, no error and no end time; a
    [FileCompleted] file has at least one result and no error; a
    [FileFailed] file has no result and the error "All models failed to
    process the transcript"; and a file that is completed or failed has its
    end time, with [totalDuration] the time since the [startTime] of the
    record (the instant [createBatch] read the file). *)
Theorem file_status_tells
    (ls : list Label) (r : nat) (b : BatchJob) (j : nat) (f : TranscriptFile) :
  disciplined ls initial = true →
  heap (run ls initial) !! r = Some b → files b !! j = Some f →
  match file_status f with
  | FilePending | FileProcessing =>
      no_results f ∧ error f = None ∧ untimed f
  | FileCompleted =>
      some_result f ∧ error f = None ∧ timed f
  | FileFailed =>
      no_results f
      ∧ error f = Some "All models failed to process the transcript"
      ∧ timed f
  end.
Proof.
  intros Hd Hb Hf.
  destruct (inv3_batch _ (Inv3_run ls Hd) _ _ Hb) as [Hc _].
  exact (Hc _ _ Hf).
Qed.

Lemma file_status_tells_witness :
  ∃ b f, heap (run demo_mixed initial) !! 0%nat = Some b
         ∧ files b !! 1%nat = Some f
         ∧ file_status f = FileFailed
         ∧ no_results f
         ∧ totalDuration (progress f) = Some 18.
Proof.
  eexists _, _. split; [vm_compute; reflexivity|].
  split; [vm_compute; reflexivity|]. split; [reflexivity|].
  pose proof (file_status_tells demo_mixed 0%nat _ 1%nat _
                ltac:(vm_compute; reflexivity) ltac:(vm_compute; reflexivity)
                ltac:(vm_compute; reflexivity)) as H.
  cbn [file_status] in H. destruct H as (H1 & _ & _).
  split; [exact H1|reflexivity].
Defined.

(** X18.  Under disciplined use every result a file holds was computed for
    that file with the model of the job configuration: its [filename] is
    the original name of the file and its [model] the configured model of
    its provider.  The text of an OpenAI result is never empty (an empty
    or missing completion is stored as "No analysis generated"). *)
Theorem results_belong_to_file
    (ls : list Label) (r : nat) (b : BatchJob) (cfg : JobConfig) (j : nat)
    (f : TranscriptFile) :
  disciplined ls initial = true →
  heap (run ls initial) !! r = Some b → jobConfig b = Some cfg →
  files b !! j = Some f →
  (∀ a, openai (results f) = Some a →
     filename a = originalname (originalFile f)
     ∧ model a = models_openai (models cfg) ∧ analysis a ≠ "")
  ∧ (∀ a, claude (results f) = Some a →
       filename a = originalname (originalFile f)
       ∧ model a = models_claude (models cfg))
  ∧ (∀ a, gemini (results f) = Some a →
       filename a = originalname (originalFile f)
       ∧ model a = models_gemini (models cfg)).
Proof.
  intros Hd Hb Hcfg Hf.
  destruct (inv3_batch _ (Inv3_run ls Hd) _ _ Hb) as [_ Ha].
  exact (Ha _ _ _ Hcfg Hf).
Qed.

Lemma results_belong_to_file_witness :
  ∃ b f a, heap (run demo_mixed initial) !! 0%nat = Some b
           ∧ files b !! 0%nat = Some f
           ∧ openai (results f) = Some a
           ∧ filename a = "a.txt" ∧ model a = "gpt-4o-mini".
Proof.
  eexists _, _, _. split; [vm_compute; reflexivity|].
  split; [vm_compute; reflexivity|]. split; [reflexivity|].
  destruct (results_belong_to_file demo_mixed 0%nat _ demo_config 0%nat _
              ltac:(vm_compute; reflexivity) ltac:(vm_compute; reflexivity)
              ltac:(vm_compute; reflexivity) ltac:(vm_compute; reflexivity))
    as (H & _ & _).
  destruct (H _ eq_refl) as (H1 & H2 & _).
  split; [exact H1|exact H2].
Defined.
